(** * The order and catalog service of backend/app.js

    The service keeps products, orders and order lines in a relational
    store (schema in backend/init.sql) and puts a read-through cache in
    front of the catalog reads.  This development embeds

    - the three tables, their column types and constraints, and the SQL
      statements the handlers send (section "The store");
    - the key/value cache with expiry (section "The cache");
    - the request handlers, written as programs over the calls they
      await (section "The handlers");
    - a run of one request at a time, and an interleaving of several
      requests at the points where a handler awaits.

    Conventions.  Money (DECIMAL(10,2)) is a number of cents in [Z]; the
    JavaScript number arithmetic on prices followed by the rounding the
    DECIMAL(10,2) column applies is taken as arithmetic on cents.
    Timestamps and the cache clock are seconds in [Z].  Body parameters
    that denote integers, and the order id of a route, are taken as the
    integer they denote; of the product id of a route the text is kept
    beside the integer ([route_id]), since the cache key is made of the
    text.
    Strings are byte strings, so the length of a VARCHAR value is
    over-approximated for multi-byte text. *)

From stdpp Require Import gmap strings list fin_maps pretty sorting.
From Stdlib Require Import ZArith Lia Ascii.

Local Open Scope Z_scope.

(** ** The store *)

(** *** Rows *)

Record product := mk_product {
  p_id : Z;
  p_name : string;
  p_description : option string;
  p_price : Z;
  p_category : string;
  p_stock : Z;
  p_image_url : option string;
  p_is_active : bool;
  p_created_at : Z;
  p_updated_at : Z
}.

Record order := mk_order {
  o_id : Z;
  o_customer_name : string;
  o_customer_email : string;
  o_total_amount : Z;
  o_status : string;
  o_created_at : Z;
  o_updated_at : Z
}.

Record order_item := mk_order_item {
  oi_id : Z;
  oi_order_id : Z;
  oi_product_id : Z;
  oi_quantity : Z;
  oi_price : Z;
  oi_created_at : Z
}.

(** The columns GET /api/products selects. *)
Record product_listing := mk_product_listing {
  pl_id : Z;
  pl_name : string;
  pl_description : option string;
  pl_price : Z;
  pl_category : string;
  pl_stock : Z;
  pl_image_url : option string;
  pl_created_at : Z
}.

(** The single row of GET /api/stats. *)
Record stats := mk_stats {
  total_orders : Z;
  total_products : Z;
  total_revenue : Z;
  pending_orders : Z
}.

(** *** Tables, keyed by their primary key, and the SERIAL sequences *)

Record tables := mk_tables {
  products : gmap Z product;
  orders : gmap Z order;
  order_items : gmap Z order_item
}.

Record sequences := mk_sequences {
  products_id_seq : Z;
  orders_id_seq : Z;
  order_items_id_seq : Z
}.

Record db := mk_db {
  db_tables : tables;
  db_seqs : sequences
}.

Definition no_rows : tables :=
  {| products := ∅; orders := ∅; order_items := ∅ |}.

(** The rows a transaction has written lie over the committed rows. *)
Definition overlay (written committed : tables) : tables :=
  {| products := products written ∪ products committed;
     orders := orders written ∪ orders committed;
     order_items := order_items written ∪ order_items committed |}.

Definition table_rows {A} (t : gmap Z A) : list A := (map_to_list t).*2.

Definition stock_of (t : tables) (id : Z) : Z :=
  match products t !! id with Some p => p_stock p | None => 0 end.

(** *** Column types *)

Definition int4 (z : Z) : bool :=
  (-2147483648 <=? z) && (z <=? 2147483647).

(** DECIMAL(10,2): at most ten digits, two of them after the point. *)
Definition numeric_10_2 (cents : Z) : bool :=
  (-10000000000 <? cents) && (cents <? 10000000000).

Fixpoint all_spaces (s : string) : bool :=
  match s with
  | EmptyString => true
  | String c s' => if decide (c = " "%char) then all_spaces s' else false
  end.

(** VARCHAR(n): a longer value is an error unless the excess is spaces,
    which are cut off. *)
Definition varchar (n : nat) (s : string) : option string :=
  if (String.length s <=? n)%nat then Some s
  else if all_spaces (String.substring n (String.length s - n) s)
       then Some (String.substring 0 n s)
       else None.

Definition valid_statuses : list string :=
  ["pending"; "processing"; "shipped"; "delivered"; "cancelled"].

(** *** Errors of a statement *)

Inductive sql_error :=
  | not_null_violation (column : string)
  | check_violation (constraint : string)
  | unique_violation (constraint : string)
  | foreign_key_violation (constraint : string)
  | numeric_value_out_of_range
  | string_data_right_truncation
  | connection_failure.

(** *** Statements, indexed by what [result.rows] holds *)

Inductive sql : Type → Type :=
  | select_active_products : sql (list product_listing)
  | select_active_product (id : Z) : sql (list product)
  | insert_product (name description : option string) (price : option Z)
      (category : option string) (stock : Z) (image_url : option string) :
      sql (list product)
  | update_product_fields (name description : option string)
      (price : option Z) (category : option string) (stock : option Z)
      (image_url : option string) (id : Z) : sql (list product)
  | deactivate_product (id : Z) : sql (list Z)
  | select_price_stock (id : Z) : sql (list (Z * Z))
  | insert_order (customer_name customer_email : option string)
      (total_amount : Z) : sql (list order)
  | select_price (id : Z) : sql (list Z)
  | insert_order_item (order_id product_id quantity price : Z) : sql unit
  | decrement_stock (quantity id : Z) : sql unit
  | update_order_status (status : string) (id : Z) : sql (list order)
  | select_stats : sql (list stats).

(** What a statement gives back: its rows or an error, the rows it wrote
    (to be laid over the transaction's or the committed rows) and the
    sequences, which advance whether or not the statement succeeds. *)
Record sql_result (R : Type) := mk_sql_result {
  sr_rows : sql_error + R;
  sr_writes : tables;
  sr_seqs : sequences
}.
Arguments mk_sql_result {R} _ _ _.
Arguments sr_rows {R} _.
Arguments sr_writes {R} _.
Arguments sr_seqs {R} _.

Definition sql_fail {R} (e : sql_error) (s : sequences) : sql_result R :=
  mk_sql_result (inl e) no_rows s.

Definition sql_read {R} (r : R) (s : sequences) : sql_result R :=
  mk_sql_result (inr r) no_rows s.

Definition write_product (id : Z) (p : product) : tables :=
  {| products := {[ id := p ]}; orders := ∅; order_items := ∅ |}.

Definition write_order (id : Z) (o : order) : tables :=
  {| products := ∅; orders := {[ id := o ]}; order_items := ∅ |}.

Definition write_order_item (id : Z) (i : order_item) : tables :=
  {| products := ∅; orders := ∅; order_items := {[ id := i ]} |}.

(** *** Row construction under the column types and CHECK constraints *)

Definition listing_of (p : product) : product_listing :=
  {| pl_id := p_id p; pl_name := p_name p; pl_description := p_description p;
     pl_price := p_price p; pl_category := p_category p;
     pl_stock := p_stock p; pl_image_url := p_image_url p;
     pl_created_at := p_created_at p |}.

(** The constraints every stored product row meets. *)
Definition check_product (p : product) : sql_error + product :=
  match varchar 255 (p_name p), varchar 100 (p_category p) with
  | Some name, Some category =>
      if negb (numeric_10_2 (p_price p)) then inl numeric_value_out_of_range
      else if negb (int4 (p_stock p)) then inl numeric_value_out_of_range
      else if p_price p <? 0 then inl (check_violation "products_price_check")
      else if p_stock p <? 0 then inl (check_violation "products_stock_check")
      else inr (mk_product (p_id p) name (p_description p) (p_price p)
                  category (p_stock p) (p_image_url p) (p_is_active p)
                  (p_created_at p) (p_updated_at p))
  | _, _ => inl string_data_right_truncation
  end.

Definition new_product (id : Z) (name description : option string)
    (price : option Z) (category : option string) (stock : Z)
    (image_url : option string) (now : Z) : sql_error + product :=
  match name, price, category with
  | None, _, _ => inl (not_null_violation "name")
  | Some _, None, _ => inl (not_null_violation "price")
  | Some _, Some _, None => inl (not_null_violation "category")
  | Some name, Some price, Some category =>
      check_product (mk_product id name description price category stock
                       image_url true now now)
  end.

(** COALESCE($n, column). *)
Definition coalesce {A} (param : option A) (column : A) : A :=
  match param with Some x => x | None => column end.

Definition coalesce_opt {A} (param column : option A) : option A :=
  match param with Some x => Some x | None => column end.

Definition updated_product (p : product) (name description : option string)
    (price : option Z) (category : option string) (stock : option Z)
    (image_url : option string) (now : Z) : sql_error + product :=
  check_product
    (mk_product (p_id p) (coalesce name (p_name p))
       (coalesce_opt description (p_description p))
       (coalesce price (p_price p)) (coalesce category (p_category p))
       (coalesce stock (p_stock p)) (coalesce_opt image_url (p_image_url p))
       (p_is_active p) (p_created_at p) now).

(** The BEFORE UPDATE trigger of init.sql stamps every updated row. *)
Definition deactivated (p : product) (now : Z) : product :=
  mk_product (p_id p) (p_name p) (p_description p) (p_price p)
    (p_category p) (p_stock p) (p_image_url p) false (p_created_at p) now.

Definition with_stock (p : product) (stock now : Z) : product :=
  mk_product (p_id p) (p_name p) (p_description p) (p_price p)
    (p_category p) stock (p_image_url p) (p_is_active p) (p_created_at p) now.

Definition new_order (id : Z) (customer_name customer_email : option string)
    (total_amount now : Z) : sql_error + order :=
  match customer_name, customer_email with
  | None, _ => inl (not_null_violation "customer_name")
  | Some _, None => inl (not_null_violation "customer_email")
  | Some name, Some email =>
      match varchar 255 name, varchar 255 email with
      | Some name, Some email =>
          if negb (numeric_10_2 total_amount)
          then inl numeric_value_out_of_range
          else if total_amount <? 0
          then inl (check_violation "orders_total_amount_check")
          else inr (mk_order id name email total_amount "pending" now now)
      | _, _ => inl string_data_right_truncation
      end
  end.

Definition new_order_item (v : tables) (id order_id product_id quantity
    price now : Z) : sql_error + order_item :=
  if negb (int4 order_id && int4 product_id && int4 quantity)
  then inl numeric_value_out_of_range
  else if negb (numeric_10_2 price) then inl numeric_value_out_of_range
  else if quantity <=? 0
  then inl (check_violation "order_items_quantity_check")
  else if price <? 0 then inl (check_violation "order_items_price_check")
  else match orders v !! order_id, products v !! product_id with
       | None, _ => inl (foreign_key_violation "order_items_order_id_fkey")
       | Some _, None =>
           inl (foreign_key_violation "order_items_product_id_fkey")
       | Some _, Some _ =>
           inr (mk_order_item id order_id product_id quantity price now)
       end.

Definition with_status (o : order) (status : string) (now : Z) :
    sql_error + order :=
  match varchar 50 status with
  | Some status =>
      if bool_decide (status ∈ valid_statuses)
      then inr (mk_order (o_id o) (o_customer_name o) (o_customer_email o)
                  (o_total_amount o) status (o_created_at o) now)
      else inl (check_violation "orders_status_check")
  | None => inl string_data_right_truncation
  end.

(** *** What each statement does

    [v] is what the statement sees: the committed rows, under the rows its
    own transaction has written.  Integer parameters are parsed as INTEGER
    before anything else. *)

Definition by_created_at_desc (a b : product) : Prop :=
  p_created_at b ≤ p_created_at a.

#[global] Instance by_created_at_desc_dec a b :
  Decision (by_created_at_desc a b) := Z_le_dec _ _.

(** COUNT(DISTINCT e), where e is NULL on the rows that give [None]. *)
Definition count_distinct (l : list (option Z)) : Z :=
  Z.of_nat (length (remove_dups (omap id l))).

(** SUM(e): NULL over no rows. *)
Definition sql_sum (l : list Z) : option Z :=
  match l with [] => None | _ => Some (foldr Z.add 0 l) end.

Definition stats_row (v : tables) : stats :=
  let joined :=
    filter (λ op : order * product, p_is_active op.2 = true)
      (list_prod (table_rows (orders v)) (table_rows (products v))) in
  {| total_orders := count_distinct ((λ op, Some (o_id op.1)) <$> joined);
     total_products := count_distinct ((λ op, Some (p_id op.2)) <$> joined);
     total_revenue :=
       coalesce (sql_sum ((λ op, o_total_amount op.1) <$> joined)) 0;
     pending_orders :=
       count_distinct
         ((λ op : order * product,
             if decide (o_status op.1 = "pending") then Some (o_id op.1)
             else None) <$> joined) |}.

Definition check_stock (stock : Z) : sql_error + Z :=
  if negb (int4 stock) then inl numeric_value_out_of_range
  else if stock <? 0 then inl (check_violation "products_stock_check")
  else inr stock.

(** SELECT id, name, description, price, category, stock, image_url,
    created_at FROM products WHERE is_active = true
    ORDER BY created_at DESC *)
Definition active_listing (v : tables) : list product_listing :=
  listing_of <$>
    merge_sort by_created_at_desc
      (filter (λ p, p_is_active p = true) (table_rows (products v))).

(** SELECT * FROM products WHERE id = $1 AND is_active = true *)
Definition active_product (v : tables) (id : Z) : list product :=
  match products v !! id with
  | Some p => if p_is_active p then [p] else []
  | None => []
  end.

Definition exec_sql {R} (q : sql R) (now : Z) (v : tables) (s : sequences) :
    sql_result R :=
  match q in sql R return sql_result R with
  | select_active_products => sql_read (active_listing v) s
  | select_active_product id =>
      if negb (int4 id) then sql_fail numeric_value_out_of_range s
      else sql_read (active_product v id) s
  | insert_product name description price category stock image_url =>
      let id := products_id_seq s + 1 in
      let s' := mk_sequences id (orders_id_seq s) (order_items_id_seq s) in
      match new_product id name description price category stock image_url
              now with
      | inl e => sql_fail e s'
      | inr p =>
          match products v !! id with
          | Some _ => sql_fail (unique_violation "products_pkey") s'
          | None => mk_sql_result (inr [p]) (write_product id p) s'
          end
      end
  | update_product_fields name description price category stock image_url
      id =>
      if negb (int4 id && from_option int4 true stock)
      then sql_fail numeric_value_out_of_range s
      else match products v !! id with
           | Some p =>
               if p_is_active p
               then match updated_product p name description price category
                            stock image_url now with
                    | inl e => sql_fail e s
                    | inr p' => mk_sql_result (inr [p']) (write_product id p') s
                    end
               else sql_read [] s
           | None => sql_read [] s
           end
  | deactivate_product id =>
      if negb (int4 id) then sql_fail numeric_value_out_of_range s
      else match products v !! id with
           | Some p =>
               mk_sql_result (inr [id]) (write_product id (deactivated p now)) s
           | None => sql_read [] s
           end
  | select_price_stock id =>
      if negb (int4 id) then sql_fail numeric_value_out_of_range s
      else sql_read
             match products v !! id with
             | Some p => if p_is_active p then [(p_price p, p_stock p)] else []
             | None => []
             end s
  | insert_order customer_name customer_email total_amount =>
      let id := orders_id_seq s + 1 in
      let s' := mk_sequences (products_id_seq s) id (order_items_id_seq s) in
      match new_order id customer_name customer_email total_amount now with
      | inl e => sql_fail e s'
      | inr o =>
          match orders v !! id with
          | Some _ => sql_fail (unique_violation "orders_pkey") s'
          | None => mk_sql_result (inr [o]) (write_order id o) s'
          end
      end
  | select_price id =>
      if negb (int4 id) then sql_fail numeric_value_out_of_range s
      else sql_read
             match products v !! id with
             | Some p => [p_price p]
             | None => []
             end s
  | insert_order_item order_id product_id quantity price =>
      let id := order_items_id_seq s + 1 in
      let s' := mk_sequences (products_id_seq s) (orders_id_seq s) id in
      match new_order_item v id order_id product_id quantity price now with
      | inl e => sql_fail e s'
      | inr i =>
          match order_items v !! id with
          | Some _ => sql_fail (unique_violation "order_items_pkey") s'
          | None => mk_sql_result (inr tt) (write_order_item id i) s'
          end
      end
  | decrement_stock quantity id =>
      if negb (int4 quantity && int4 id)
      then sql_fail numeric_value_out_of_range s
      else match products v !! id with
           | Some p =>
               match check_stock (p_stock p - quantity) with
               | inl e => sql_fail e s
               | inr stock =>
                   mk_sql_result (inr tt)
                     (write_product id (with_stock p stock now)) s
               end
           | None => sql_read tt s
           end
  | update_order_status status id =>
      if negb (int4 id) then sql_fail numeric_value_out_of_range s
      else match orders v !! id with
           | Some o =>
               match with_status o status now with
               | inl e => sql_fail e s
               | inr o' => mk_sql_result (inr [o']) (write_order id o') s
               end
           | None => sql_read [] s
           end
  | select_stats => sql_read [stats_row v] s
  end.

(** The product row an UPDATE has to lock before it writes it: the
    statement waits while another transaction holds an uncommitted
    version of that row. *)
Definition row_to_lock {R} (q : sql R) (v : tables) : option Z :=
  match q with
  | update_product_fields _ _ _ _ _ _ id =>
      match products v !! id with
      | Some p => if p_is_active p then Some id else None
      | None => None
      end
  | deactivate_product id | decrement_stock _ id =>
      match products v !! id with Some _ => Some id | None => None end
  | _ => None
  end.

(** ** The cache *)

(** What the handlers put in the cache and in their responses.  The cache
    holds [JSON.stringify] of these values and a hit answers with
    [JSON.parse] of the text, which gives the value back. *)
Inductive json :=
  | json_products (rows : list product_listing)
  | json_product (row : product)
  | json_order (row : order)
  | json_stats (row : stats)
  | json_undefined.

Record cache_entry := mk_cache_entry {
  ce_value : json;
  ce_expires : Z
}.

(** GET: the value, unless the key is absent or its time is up. *)
Definition redis_get (now : Z) (key : string) (c : gmap string cache_entry) :
    option json :=
  match c !! key with
  | Some e => if now <? ce_expires e then Some (ce_value e) else None
  | None => None
  end.

(** SETEX key seconds value. *)
Definition redis_setex (now : Z) (key : string) (seconds : Z) (value : json)
    (c : gmap string cache_entry) : gmap string cache_entry :=
  <[ key := mk_cache_entry value (now + seconds) ]> c.

(** DEL key. *)
Definition redis_del (key : string) (c : gmap string cache_entry) :
    gmap string cache_entry :=
  delete key c.

(** The parameter [:id] of a product route.  The handler has the text
    of the path segment: it makes the cache key of that text and passes
    the text to the store, which reads it as an INTEGER (so '1' and '01'
    are two texts that the store reads as 1).  A request carries the text
    and the integer the store reads it as. *)
Record route_id := mk_route_id {
  id_text : string;
  id_int : Z
}.

(** The usual spelling of an id. *)
Definition route (id : Z) : route_id := mk_route_id (pretty id) id.

(** `product:${id}` *)
Definition product_key (id : route_id) : string := "product:" +:+ id_text id.

(** ** The world a handler acts on *)

Record world := mk_world {
  w_db : db;
  w_cache : gmap string cache_entry
}.

Definition w_tables (w : world) : tables := db_tables (w_db w).

(** ** Handlers as programs over the calls they await *)

Inductive exn :=
  | ProductNotFound (product_id : Z)
  | InsufficientStock (product_id : Z)
  | TypeError
  | DatabaseError (e : sql_error)
  | RedisError.

Inductive call : Type → Type :=
  | redisClient_get (key : string) : call (option json)
  | redisClient_setEx (key : string) (seconds : Z) (value : json) : call unit
  | redisClient_del (key : string) : call unit
  | pool_query {R} (q : sql R) : call R
  | pool_connect : call unit
  | client_query {R} (q : sql R) : call R
  | client_begin : call unit
  | client_commit : call unit
  | client_rollback : call unit
  | client_release : call unit.

Inductive prog (A : Type) : Type :=
  | Ret (a : A)
  | Throw (e : exn)
  | Call {R : Type} (c : call R) (k : exn + R → prog A).
Arguments Ret {A} _.
Arguments Throw {A} _.
Arguments Call {A R} _ _.

Fixpoint prog_bind {A B} (f : A → prog B) (p : prog A) : prog B :=
  match p with
  | Ret a => f a
  | Throw e => Throw e
  | Call c k => Call c (λ r, prog_bind f (k r))
  end.

#[global] Instance prog_mret : MRet prog := @Ret.
#[global] Instance prog_mbind : MBind prog := @prog_bind.

(** [await c]: the value the call resolves to, or the exception it
    rejects with. *)
Definition await {R} (c : call R) : prog R :=
  Call c (λ r, match r with inl e => Throw e | inr x => Ret x end).

(** try { p } catch (error) { h error } *)
Fixpoint try_catch {A} (p : prog A) (h : exn → prog A) : prog A :=
  match p with
  | Ret a => Ret a
  | Throw e => h e
  | Call c k => Call c (λ r, try_catch (k r) h)
  end.

(** try { p } finally { f } *)
Fixpoint try_finally {A} (p : prog A) (f : prog unit) : prog A :=
  match p with
  | Ret a => prog_bind (λ _, Ret a) f
  | Throw e => prog_bind (λ _, Throw e) f
  | Call c k => Call c (λ r, try_finally (k r) f)
  end.

(** *** One call against the world

    [txn] is what the connection checked out of the pool has written in
    its open transaction, if it has one.  [pool.query] runs on another
    connection of the pool, outside any transaction.  When [fault] is
    set the call fails before it reaches the store or the cache; BEGIN,
    COMMIT, ROLLBACK and release are not made to fail. *)

Definition autocommit {R} (q : sql R) (now : Z) (d : db) : (exn + R) * db :=
  let r := exec_sql q now (db_tables d) (db_seqs d) in
  (match sr_rows r with inl e => inl (DatabaseError e) | inr x => inr x end,
   mk_db (overlay (sr_writes r) (db_tables d)) (sr_seqs r)).

Definition in_transaction {R} (q : sql R) (now : Z) (written : tables)
    (d : db) : (exn + R) * tables * db :=
  let r := exec_sql q now (overlay written (db_tables d)) (db_seqs d) in
  (match sr_rows r with inl e => inl (DatabaseError e) | inr x => inr x end,
   overlay (sr_writes r) written,
   mk_db (db_tables d) (sr_seqs r)).

Definition exec_call {R} (c : call R) (fault : bool) (now : Z)
    (txn : option tables) (w : world) : (exn + R) * option tables * world :=
  match c in call R return (exn + R) * option tables * world with
  | redisClient_get key =>
      if fault then (inl RedisError, txn, w)
      else (inr (redis_get now key (w_cache w)), txn, w)
  | redisClient_setEx key seconds value =>
      if fault then (inl RedisError, txn, w)
      else (inr tt, txn,
            mk_world (w_db w) (redis_setex now key seconds value (w_cache w)))
  | redisClient_del key =>
      if fault then (inl RedisError, txn, w)
      else (inr tt, txn, mk_world (w_db w) (redis_del key (w_cache w)))
  | pool_query q =>
      if fault then (inl (DatabaseError connection_failure), txn, w)
      else let '(r, d) := autocommit q now (w_db w) in
           (r, txn, mk_world d (w_cache w))
  | pool_connect =>
      if fault then (inl (DatabaseError connection_failure), txn, w)
      else (inr tt, txn, w)
  | client_query q =>
      if fault then (inl (DatabaseError connection_failure), txn, w)
      else match txn with
           | Some written =>
               let '(r, written', d) :=
                 in_transaction q now written (w_db w) in
               (r, Some written', mk_world d (w_cache w))
           | None =>
               let '(r, d) := autocommit q now (w_db w) in
               (r, None, mk_world d (w_cache w))
           end
  | client_begin =>
      (inr tt, match txn with Some _ => txn | None => Some no_rows end, w)
  | client_commit =>
      match txn with
      | Some written =>
          (inr tt, None,
           mk_world
             (mk_db (overlay written (w_tables w)) (db_seqs (w_db w)))
             (w_cache w))
      | None => (inr tt, None, w)
      end
  | client_rollback => (inr tt, None, w)
  | client_release => (inr tt, txn, w)
  end.

(** *** One request at a time

    The run of a handler to its end, each call in turn.  [faults] says
    which of the calls fail, in the order the handler makes them; calls
    past its end succeed. *)

Record state := mk_state {
  st_faults : list bool;
  st_txn : option tables;
  st_world : world
}.

Fixpoint run {A} (p : prog A) (now : Z) (st : state) : (exn + A) * state :=
  match p with
  | Ret a => (inr a, st)
  | Throw e => (inl e, st)
  | Call c k =>
      let '(r, txn, w) :=
        exec_call c (hd false (st_faults st)) now (st_txn st) (st_world st) in
      run (k r) now (mk_state (tl (st_faults st)) txn w)
  end.

(** ** The handlers *)

(** *** Requests and responses *)

Record product_fields := mk_product_fields {
  f_name : option string;
  f_description : option string;
  f_price : option Z;
  f_category : option string;
  f_stock : option Z;
  f_image_url : option string
}.

Record order_line := mk_order_line {
  product_id : Z;
  quantity : Z
}.

Record order_request := mk_order_request {
  customer_name : option string;
  customer_email : option string;
  items : option (list order_line)
}.

Inductive error_text :=
  | error_string (s : string)
  | error_message (e : exn).

Inductive body :=
  | source_data (source : string) (data : json)
  | message_data (message : string) (data : json)
  | message_only (message : string)
  | data_only (data : json)
  | error_body (error : error_text).

Record response := respond {
  r_status : Z;
  r_body : body
}.

(** [!x] on a body field: absent, or the empty string, or the number 0. *)
Definition not_string (x : option string) : bool :=
  match x with
  | None => true
  | Some s => if decide (s = EmptyString) then true else false
  end.

Definition not_number (x : option Z) : bool :=
  match x with
  | None => true
  | Some z => z =? 0
  end.

(** [x || d] on a number. *)
Definition or_number (x : option Z) (d : Z) : Z :=
  if not_number x then d else default d x.

(** [rows[0]], for the row or for one of its properties. *)
Definition first_row {A} (rows : list A) : prog A :=
  match rows with
  | [] => Throw TypeError
  | row :: _ => Ret row
  end.

Definition internal_server_error : response :=
  respond 500 (error_body (error_string "Internal server error")).

(** *** GET /api/products *)

Definition list_products : prog response :=
  let cacheKey := "products:all" in
  try_catch
    (cachedData ← await (redisClient_get cacheKey);
     match cachedData with
     | Some data => mret (respond 200 (source_data "cache" data))
     | None =>
         result ← await (pool_query select_active_products);
         await (redisClient_setEx cacheKey 300 (json_products result));;
         mret (respond 200 (source_data "database" (json_products result)))
     end)
    (λ error, mret internal_server_error).

(** *** GET /api/products/:id *)

Definition get_product (id : route_id) : prog response :=
  let cacheKey := product_key id in
  try_catch
    (cachedData ← await (redisClient_get cacheKey);
     match cachedData with
     | Some data => mret (respond 200 (source_data "cache" data))
     | None =>
         result ← await (pool_query (select_active_product (id_int id)));
         match result with
         | [] =>
             mret (respond 404 (error_body (error_string "Product not found")))
         | row :: _ =>
             await (redisClient_setEx cacheKey 600 (json_product row));;
             mret (respond 200 (source_data "database" (json_product row)))
         end
     end)
    (λ error, mret internal_server_error).

(** *** POST /api/products *)

Definition create_product (f : product_fields) : prog response :=
  if not_string (f_name f) || not_number (f_price f)
     || not_string (f_category f)
  then mret (respond 400 (error_body (error_string "Missing required fields")))
  else
    try_catch
      (result ← await (pool_query
                         (insert_product (f_name f) (f_description f)
                            (f_price f) (f_category f) (or_number (f_stock f) 0)
                            (f_image_url f)));
       await (redisClient_del "products:all");;
       mret (respond 201
               (message_data "Product created successfully"
                  (from_option json_product json_undefined (head result)))))
      (λ error, mret internal_server_error).

(** *** PUT /api/products/:id *)

Definition update_product (id : route_id) (f : product_fields) :
    prog response :=
  try_catch
    (result ← await (pool_query
                       (update_product_fields (f_name f) (f_description f)
                          (f_price f) (f_category f) (f_stock f)
                          (f_image_url f) (id_int id)));
     match result with
     | [] => mret (respond 404 (error_body (error_string "Product not found")))
     | row :: _ =>
         await (redisClient_del "products:all");;
         await (redisClient_del (product_key id));;
         mret (respond 200
                 (message_data "Product updated successfully"
                    (json_product row)))
     end)
    (λ error, mret internal_server_error).

(** *** DELETE /api/products/:id *)

Definition delete_product (id : route_id) : prog response :=
  try_catch
    (result ← await (pool_query (deactivate_product (id_int id)));
     match result with
     | [] => mret (respond 404 (error_body (error_string "Product not found")))
     | _ :: _ =>
         await (redisClient_del "products:all");;
         await (redisClient_del (product_key id));;
         mret (respond 200 (message_only "Product deleted successfully"))
     end)
    (λ error, mret internal_server_error).

(** *** POST /api/orders *)

(** The first loop: check every line against the product's row and add
    up the total. *)
Fixpoint price_loop (lines : list order_line) (total_amount : Z) : prog Z :=
  match lines with
  | [] => mret total_amount
  | item :: rest =>
      productResult ← await (client_query
                               (select_price_stock (product_id item)));
      match productResult with
      | [] => Throw (ProductNotFound (product_id item))
      | (price, stock) :: _ =>
          if stock <? quantity item
          then Throw (InsufficientStock (product_id item))
          else price_loop rest (total_amount + price * quantity item)
      end
  end.

(** The second loop: one order line and one stock update per item. *)
Fixpoint items_loop (order_id : Z) (lines : list order_line) : prog unit :=
  match lines with
  | [] => mret tt
  | item :: rest =>
      productResult ← await (client_query (select_price (product_id item)));
      price ← first_row productResult;
      await (client_query
               (insert_order_item order_id (product_id item) (quantity item)
                  price));;
      await (client_query (decrement_stock (quantity item) (product_id item)));;
      items_loop order_id rest
  end.

Definition order_transaction (req : order_request) (lines : list order_line) :
    prog response :=
  await client_begin;;
  total_amount ← price_loop lines 0;
  orderResult ← await (client_query
                         (insert_order (customer_name req) (customer_email req)
                            total_amount));
  order ← first_row orderResult;
  items_loop (o_id order) lines;;
  await client_commit;;
  await (redisClient_del "products:all");;
  mret (respond 201 (message_data "Order created successfully"
                       (json_order order))).

Definition create_order (req : order_request) : prog response :=
  if not_string (customer_name req) || not_string (customer_email req)
  then mret (respond 400 (error_body (error_string "Missing required fields")))
  else
    match items req with
    | None | Some [] =>
        mret (respond 400 (error_body (error_string "Missing required fields")))
    | Some lines =>
        await pool_connect;;
        try_finally
          (try_catch (order_transaction req lines)
             (λ error,
                await client_rollback;;
                mret (respond 500 (error_body (error_message error)))))
          (await client_release)
    end.

(** *** PATCH /api/orders/:id/status *)

Definition update_status (id : Z) (status : option string) : prog response :=
  match status with
  | Some status' =>
      if bool_decide (status' ∈ valid_statuses)
      then
        try_catch
          (result ← await (pool_query (update_order_status status' id));
           match result with
           | [] =>
               mret (respond 404 (error_body (error_string "Order not found")))
           | row :: _ =>
               mret (respond 200
                       (message_data "Order status updated successfully"
                          (json_order row)))
           end)
          (λ error, mret internal_server_error)
      else mret (respond 400 (error_body (error_string "Invalid status")))
  | None => mret (respond 400 (error_body (error_string "Invalid status")))
  end.

(** *** GET /api/stats *)

Definition get_stats : prog response :=
  try_catch
    (stats ← await (pool_query select_stats);
     mret (respond 200
             (data_only (from_option json_stats json_undefined (head stats)))))
    (λ error, mret internal_server_error).

(** *** The routes *)

Inductive request :=
  | GET_products
  | GET_product (id : route_id)
  | POST_products (f : product_fields)
  | PUT_product (id : route_id) (f : product_fields)
  | DELETE_product (id : route_id)
  | POST_orders (req : order_request)
  | PATCH_order_status (id : Z) (status : option string)
  | GET_stats.

Definition handler (r : request) : prog response :=
  match r with
  | GET_products => list_products
  | GET_product id => get_product id
  | POST_products f => create_product f
  | PUT_product id f => update_product id f
  | DELETE_product id => delete_product id
  | POST_orders req => create_order req
  | PATCH_order_status id status => update_status id status
  | GET_stats => get_stats
  end.

(** A request served on its own, from arrival to response, at time [now]
    with the calls in [faults] failing.  A handler opens and closes its
    own transaction, so only the world is carried from one request to the
    next. *)
Definition serve (r : request) (faults : list bool) (now : Z) (w : world) :
    (exn + response) * world :=
  let '(out, st) := run (handler r) now (mk_state faults None w) in
  (out, st_world st).

(** A sequence of requests, one after the other. *)
Fixpoint serve_all (rs : list (request * list bool * Z)) (w : world) : world :=
  match rs with
  | [] => w
  | (r, faults, now) :: rest => serve_all rest (serve r faults now w).2
  end.


(** ** A small shop for the examples

    Product A is the one of the scenario "stock 5, price 10.00". *)

Definition product_A : product :=
  mk_product 1 "A" None 1000 "Accessories" 5 None true 0 0.

Definition wireless_mouse : product :=
  mk_product 2 "Wireless Mouse"
    (Some "Ergonomic wireless mouse with precision tracking") 2999
    "Electronics" 200 None true 0 0.

Definition retired_lamp : product :=
  mk_product 3 "Desk Lamp LED" None 3499 "Accessories" 90 None false 0 0.

Definition shop_tables : tables :=
  {| products := {[ 1 := product_A; 2 := wireless_mouse; 3 := retired_lamp ]};
     orders := ∅;
     order_items := ∅ |}.

Definition shop : world :=
  mk_world (mk_db shop_tables (mk_sequences 3 0 0)) ∅.

Definition order_of (lines : list order_line) : order_request :=
  mk_order_request (Some "Alice Williams") (Some "alice.williams@example.com")
    (Some lines).

(** ** Notions the properties are stated with *)

(** The quantity a request orders of one product, over all its lines. *)
Definition ordered_quantity (lines : list order_line) (id : Z) : Z :=
  foldr (λ l acc, if decide (product_id l = id) then quantity l + acc else acc)
    0 lines.

(** CHECK (stock >= 0) on every row. *)
Definition stock_nonneg (t : tables) : Prop :=
  map_Forall (λ _ p, 0 ≤ p_stock p) (products t).

(** Price times quantity, over the lines of one order. *)
Definition lines_amount (t : tables) (order_id : Z) : Z :=
  map_fold
    (λ _ i acc,
       if decide (oi_order_id i = order_id)
       then oi_price i * oi_quantity i + acc else acc)
    0 (order_items t).

(** A successful response of POST /api/orders. *)
Definition created (out : exn + response) : Prop :=
  match out with
  | inr r => r_status r = 201
  | inl _ => False
  end.

(** The requests that only read. *)
Definition is_read (r : request) : Prop :=
  match r with
  | GET_products | GET_product _ | GET_stats => True
  | _ => False
  end.

(** The store reads one text as one integer: two routes of one text are
    routes of one integer. *)
Definition same_reading (a b : route_id) : Prop :=
  id_text a = id_text b → id_int a = id_int b.

(** A request that only reads and that, where it has the text of the
    route [id], has it read as [id] has. *)
Definition reads_like (id : route_id) (r : request) : Prop :=
  match r with
  | GET_products | GET_stats => True
  | GET_product id' => same_reading id' id
  | _ => False
  end.

(** The cache holds, under the key of the route [id] and under the key
    of the listing, nothing but what the store holds now. *)
Definition cache_current (id : route_id) (w : world) : Prop :=
  (∀ e, w_cache w !! product_key id = Some e →
        ∃ p, ce_value e = json_product p
             ∧ active_product (w_tables w) (id_int id) = [p])
  ∧ (∀ e, w_cache w !! "products:all" = Some e →
          ce_value e = json_products (active_listing (w_tables w))).

(** The answer to GET /api/products/:id that the rows [t] give. *)
Definition product_answer (t : tables) (id : Z) (source : string) : response :=
  match active_product t id with
  | [] => respond 404 (error_body (error_string "Product not found"))
  | row :: _ => respond 200 (source_data source (json_product row))
  end.

(** The answer to GET /api/products that the rows [t] give. *)
Definition listing_answer (t : tables) (source : string) : response :=
  respond 200 (source_data source (json_products (active_listing t))).

(** The response after a failed cache call in POST /api/orders. *)
Definition cache_error : exn + response :=
  inr (respond 500 (error_body (error_message RedisError))).

(** The calls of a successful order of one line, the last of which, the
    invalidation of the catalog key, fails. *)
Definition failing_invalidation : list bool :=
  [false; false; false; false; false; false; false; false; true].

(** The sum of [total_amount] over the orders. *)
Definition orders_amount (t : tables) : Z :=
  map_fold (λ _ o acc, o_total_amount o + acc) 0 (orders t).

(** The stock after an order, against the stock before it: every product
    is down by the quantity ordered of it, no ordered product is below
    zero, and the rows of the other products are as they were. *)
Definition decremented (lines : list order_line) (before after : tables) :
    Prop :=
  (∀ id, stock_of after id = stock_of before id - ordered_quantity lines id)
  ∧ (∀ l, l ∈ lines →
          0 ≤ stock_of after (product_id l)
          ∧ is_Some (products before !! product_id l))
  ∧ (∀ id, (∀ l, l ∈ lines → product_id l ≠ id) →
           products after !! id = products before !! id).

(** The stock is nowhere negative, in the committed rows and in the rows
    of the open transaction. *)
Definition stock_safe (txn : option tables) (w : world) : Prop :=
  stock_nonneg (w_tables w) ∧ from_option stock_nonneg True txn.


(** The price a product has in the rows [t]. *)
Definition price_of (t : tables) (id : Z) : Z :=
  match products t !! id with Some p => p_price p | None => 0 end.

(** Price times quantity over the lines of a request, at the prices of
    the rows [t]. *)
Definition request_amount (t : tables) (lines : list order_line) : Z :=
  foldr (λ l acc, price_of t (product_id l) * quantity l + acc) 0 lines.




(** ** Requests in flight together

    A handler gives way at every [await]; between two of them it runs
    alone.  So the requests in flight take their calls in turns, in any
    order.  A call is one command of the cache or one statement of the
    store.

    The store isolates transactions as PostgreSQL does at its default
    level, READ COMMITTED: a statement sees the committed rows under the
    rows of its own transaction ([overlay]); an UPDATE of a row of which
    another transaction holds an uncommitted version waits until that
    transaction has ended, and then applies to the row as committed;
    COMMIT lays the transaction's rows over the committed ones.  A plain
    SELECT never waits. *)

Record session := mk_session {
  s_prog : prog response;
  s_txn : option tables
}.

Record system := mk_system {
  sys_world : world;
  sys_sessions : list session
}.

Definition start (rs : list request) (w : world) : system :=
  mk_system w ((λ r, mk_session (handler r) None) <$> rs).

(** The product rows of which a session holds an uncommitted version. *)
Definition locked_rows (s : session) : gset Z :=
  match s_txn s with
  | Some written => dom (products written)
  | None => ∅
  end.

Definition locked_by_others (i : nat) (ss : list session) : gset Z :=
  ⋃ (imap (λ j s, if decide (j = i) then ∅ else locked_rows s) ss).

Definition waits {R} (c : call R) (txn : option tables) (w : world)
    (locked : gset Z) : bool :=
  match c with
  | pool_query q =>
      match row_to_lock q (w_tables w) with
      | Some id => bool_decide (id ∈ locked)
      | None => false
      end
  | client_query q =>
      match row_to_lock q (overlay (default no_rows txn) (w_tables w)) with
      | Some id => bool_decide (id ∈ locked)
      | None => false
      end
  | _ => false
  end.

(** Session [i] makes its next call.  There is no step when the session
    has come to its end or has to wait; a call that fails (also one that
    gives up waiting) is a step. *)
Definition step (i : nat) (fault : bool) (now : Z) (sys : system) :
    option system :=
  match sys_sessions sys !! i with
  | Some (mk_session (Call c k) txn) =>
      if negb fault
         && waits c txn (sys_world sys)
              (locked_by_others i (sys_sessions sys))
      then None
      else
        let '(r, txn', w') := exec_call c fault now txn (sys_world sys) in
        Some (mk_system w'
                (<[ i := mk_session (k r) txn' ]> (sys_sessions sys)))
  | _ => None
  end.

(** A schedule says which session steps next, whether its call fails,
    and at what time. *)
Fixpoint interleave (schedule : list (nat * bool * Z)) (sys : system) :
    option system :=
  match schedule with
  | [] => Some sys
  | (i, fault, now) :: rest =>
      match step i fault now sys with
      | Some sys' => interleave rest sys'
      | None => None
      end
  end.

(** What a session has answered, once it has come to its end. *)
Definition answer (sys : system) (i : nat) : option (exn + response) :=
  match sys_sessions sys !! i with
  | Some (mk_session (Ret r) _) => Some (inr r)
  | Some (mk_session (Throw e) _) => Some (inl e)
  | _ => None
  end.

(** Session [i] makes [n] calls in a row, none failing. *)
Definition turns (i n : nat) (now : Z) : list (nat * bool * Z) :=
  replicate n (i, false, now).

(** *** The decrements of a session, kept beside its program

    Of the calls a session makes, the ledger keeps the decrements: those
    of the open transaction, if one is open, and those that are
    committed. *)

Inductive event :=
  | ev_begin
  | ev_commit
  | ev_rollback
  | ev_decrement (l : order_line)
  | ev_other.

Definition event_of_query {R} (q : sql R) : (exn + R) → event :=
  match q with
  | decrement_stock quantity id =>
      λ r, match r with
           | inr _ => ev_decrement (mk_order_line id quantity)
           | inl _ => ev_other
           end
  | _ => λ _, ev_other
  end.

Definition event_of {R} (c : call R) : (exn + R) → event :=
  match c with
  | client_begin => λ _, ev_begin
  | client_commit => λ _, ev_commit
  | client_rollback => λ _, ev_rollback
  | client_query q => event_of_query q
  | _ => λ _, ev_other
  end.

Record ledger := mk_ledger {
  open : option (list order_line);
  committed : list order_line
}.

Definition account (σ : ledger) (e : event) : ledger :=
  match e with
  | ev_begin =>
      mk_ledger (Some (default [] (open σ))) (committed σ)
  | ev_commit =>
      mk_ledger None (committed σ ++ default [] (open σ))
  | ev_rollback => mk_ledger None (committed σ)
  | ev_decrement l =>
      match open σ with
      | Some lines => mk_ledger (Some (lines ++ [l])) (committed σ)
      | None => mk_ledger None (committed σ ++ [l])
      end
  | ev_other => σ
  end.

(** The statements of POST /api/orders. *)
Definition order_query {R} (q : sql R) : Prop :=
  match q with
  | select_price_stock _ | insert_order _ _ _ | select_price _
  | insert_order_item _ _ _ _ | decrement_stock _ _ => True
  | _ => False
  end.

(** The calls of POST /api/orders; its statements are sent inside its
    transaction. *)
Definition order_call {R} (σ : ledger) (c : call R) : Prop :=
  match c with
  | pool_query _ => False
  | client_query q => order_query q ∧ is_Some (open σ)
  | redisClient_get _ | redisClient_setEx _ _ _ => False
  | _ => True
  end.

(** [traces p σ Φ]: whatever its calls give back, [p] makes the calls of
    POST /api/orders only, and when it ends with [r] and the ledger
    [σ'], [Φ σ' r] holds. *)
Fixpoint traces {A} (p : prog A) (σ : ledger)
    (Φ : ledger → exn + A → Prop) : Prop :=
  match p with
  | Ret a => Φ σ (inr a)
  | Throw e => Φ σ (inl e)
  | Call c k =>
      order_call σ c ∧ ∀ r, traces (k r) (account σ (event_of c r)) Φ
  end.

(** What a created order has in its ledger: no transaction left open,
    and the lines of the request, once. *)
Definition order_ledger (req : order_request) (σ : ledger)
    (out : exn + response) : Prop :=
  created out → open σ = None ∧ items req = Some (committed σ).

(** What the ledger says of the rows: the transaction's product rows are
    rows of committed products with a stock that is not negative, and the
    stock a transaction sees is the committed stock less its open
    decrements. *)
Definition ledger_rows (C : tables) (txn : option tables) (σ : ledger) :
    Prop :=
  match txn with
  | Some written =>
      (∃ lines, open σ = Some lines
         ∧ ∀ id, id ∈ dom (products C) →
                 stock_of (overlay written C) id
                 = stock_of C id - ordered_quantity lines id)
      ∧ dom (products written) ⊆ dom (products C)
      ∧ stock_nonneg written
  | None => open σ = None
  end.

Definition txn_rows (txn : option tables) : gset Z :=
  match txn with
  | Some written => dom (products written)
  | None => ∅
  end.

(** The two sessions and the committed rows [C], against the rows [C0]
    at the start. *)
Record ledgers_ok (C0 C : tables) (txn1 : option tables) (σ1 : ledger)
    (txn2 : option tables) (σ2 : ledger) : Prop := mk_ledgers_ok {
  lo_rows1 : ledger_rows C txn1 σ1;
  lo_rows2 : ledger_rows C txn2 σ2;
  lo_apart : txn_rows txn1 ## txn_rows txn2;
  lo_dom : dom (products C) = dom (products C0);
  lo_nonneg : stock_nonneg C;
  lo_stock :
    ∀ id, id ∈ dom (products C0) →
          stock_of C id
          = stock_of C0 id - ordered_quantity (committed σ1) id
            - ordered_quantity (committed σ2) id
}.

(** Two orders in flight: the programs of the two sessions go with
    ledgers that fit the rows. *)
Definition orders_ok (C0 : tables) (req1 req2 : order_request)
    (sys : system) : Prop :=
  ∃ p1 txn1 p2 txn2 σ1 σ2,
    sys_sessions sys = [mk_session p1 txn1; mk_session p2 txn2]
    ∧ traces p1 σ1 (order_ledger req1)
    ∧ traces p2 σ2 (order_ledger req2)
    ∧ ledgers_ok C0 (w_tables (sys_world sys)) txn1 σ1 txn2 σ2.

(** The session is past the stock checks of the first loop: its next
    call is the INSERT of the order. *)
Definition at_insert_order (sys : system) (i : nat) : bool :=
  match sys_sessions sys !! i with
  | Some (mk_session (Call (client_query (insert_order _ _ _)) _) _) => true
  | _ => false
  end.

(** Two orders of three units of product A, of which five are in stock. *)
Definition two_orders : system :=
  start [POST_orders (order_of [mk_order_line 1 3]);
         POST_orders (order_of [mk_order_line 1 3])] shop.

(** A read of product A in flight with an update of its price. *)
Definition read_and_update : system :=
  start [GET_product (route 1);
         PUT_product (route 1)
           (mk_product_fields None None (Some 1500) None None None)]
    shop.


(** Orders of three and of two units of product A, of which five are in
    stock. *)
Definition two_orders_within_stock : system :=
  start [POST_orders (order_of [mk_order_line 1 3]);
         POST_orders (order_of [mk_order_line 1 2])] shop.

(** Both sessions connect, open their transactions and read the stock;
    then the first runs to its end, then the second. *)
Definition reads_first (n : nat) : list (nat * bool * Z) :=
  turns 0 3 100 ++ turns 1 3 101 ++ turns 0 7 102 ++ turns 1 n 103.

(** The read misses the cache and reads the row; the update runs from
    its start to its end; the read then caches what it had read. *)
Definition update_within_read : list (nat * bool * Z) :=
  turns 0 2 100 ++ turns 1 3 101 ++ turns 0 1 102.


(** Product A under another spelling of its id: GET /api/products/01. *)
Definition route_01 : route_id := mk_route_id "01" 1.

(** Product A at its new price. *)
Definition product_A_repriced : product :=
  mk_product 1 "A" None 1500 "Accessories" 5 None true 0 101.


(** ** What the requests keep of the rows *)

(** The rows [after] a run against the rows [before] it: every row is
    still there; a product has kept its id and its time of creation, and
    is still inactive if it was; an order has kept its id, customer,
    amount and time of creation; an order line is as it was. *)
Record rows_kept (before after : tables) : Prop := mk_rows_kept {
  kept_products :
    ∀ id p, products before !! id = Some p →
            ∃ p', products after !! id = Some p'
                  ∧ p_id p' = p_id p
                  ∧ p_created_at p' = p_created_at p
                  ∧ (p_is_active p = false → p_is_active p' = false);
  kept_orders :
    ∀ id o, orders before !! id = Some o →
            ∃ o', orders after !! id = Some o'
                  ∧ o_id o' = o_id o
                  ∧ o_customer_name o' = o_customer_name o
                  ∧ o_customer_email o' = o_customer_email o
                  ∧ o_total_amount o' = o_total_amount o
                  ∧ o_created_at o' = o_created_at o;
  kept_order_items :
    ∀ id i, order_items before !! id = Some i →
            order_items after !! id = Some i
}.

(** What init.sql declares of the rows, beside CHECK (stock >= 0): the
    primary keys, the other CHECKs and the two foreign keys of
    order_items. *)
Record constraints_ok (t : tables) : Prop := mk_constraints_ok {
  ck_products :
    ∀ id p, products t !! id = Some p → p_id p = id ∧ 0 ≤ p_price p;
  ck_orders :
    ∀ id o, orders t !! id = Some o →
            o_id o = id ∧ 0 ≤ o_total_amount o
            ∧ o_status o ∈ valid_statuses;
  ck_order_items :
    ∀ id i, order_items t !! id = Some i →
            oi_id i = id ∧ 0 < oi_quantity i ∧ 0 ≤ oi_price i
            ∧ is_Some (orders t !! oi_order_id i)
            ∧ is_Some (products t !! oi_product_id i)
}.

(** A property of the committed rows and of the rows a transaction
    sees, for the run of a program. *)
Definition through_txn (P : tables → Prop) (txn : option tables)
    (w : world) : Prop :=
  P (w_tables w)
  ∧ ∀ W, txn = Some W → P (overlay W (w_tables w)).

(** ** Notions for the catalog *)

(** Newest first, on the rows of a listing. *)
Definition newest_first (a b : product_listing) : Prop :=
  pl_created_at b ≤ pl_created_at a.

(** A body of POST /api/products the store takes: name, category and
    price are there, fit their columns and are not empty or zero, and the
    stock, if given, is a non-negative INTEGER. *)
Record storable (f : product_fields) (name category : string) (price : Z) :
    Prop := mk_storable {
  sb_name : f_name f = Some name ∧ name ≠ EmptyString
            ∧ (String.length name ≤ 255)%nat;
  sb_category : f_category f = Some category ∧ category ≠ EmptyString
                ∧ (String.length category ≤ 100)%nat;
  sb_price : f_price f = Some price ∧ 0 < price < 10000000000;
  sb_stock : from_option (λ s, 0 ≤ s ≤ 2147483647) True (f_stock f)
}.

(** The row POST /api/products stores under the key [id] at time [now]. *)
Definition created_row (f : product_fields) (id : Z) (name category : string)
    (price now : Z) : product :=
  mk_product id name (f_description f) price category (default 0 (f_stock f))
    (f_image_url f) true now now.

(** ** Notions for the statistics *)

Definition active_products (t : tables) : list product :=
  filter (λ p, p_is_active p = true) (table_rows (products t)).

Definition pending_rows (t : tables) : list order :=
  filter (λ o, o_status o = "pending") (table_rows (orders t)).

(** PRIMARY KEY (id) on products and on orders: the id of a row is the
    key it is stored under. *)
Definition rows_keyed (t : tables) : Prop :=
  (∀ id p, products t !! id = Some p → p_id p = id)
  ∧ (∀ id o, orders t !! id = Some o → o_id o = id).

(** ** GET /api/orders

    The handler makes one call, the query below, and answers with its
    rows, or with 500 when the call fails.  It reads only. *)

(** json_build_object('product_id', oi.product_id, 'product_name',
    p.name, 'quantity', oi.quantity, 'price', oi.price) of one row of the
    join; the columns of a side the LEFT JOIN has not found are null. *)
Record item_object := mk_item_object {
  io_product_id : option Z;
  io_product_name : option string;
  io_quantity : option Z;
  io_price : option Z
}.

Record order_listing := mk_order_listing {
  ol_id : Z;
  ol_customer_name : string;
  ol_customer_email : string;
  ol_total_amount : Z;
  ol_status : string;
  ol_created_at : Z;
  ol_items : list item_object
}.

(** The lines of the order [id]: order_items oi WHERE oi.order_id = id. *)
Definition lines_of (v : tables) (id : Z) : list order_item :=
  filter (λ i, oi_order_id i = id) (table_rows (order_items v)).

Definition item_of (v : tables) (i : order_item) : item_object :=
  mk_item_object (Some (oi_product_id i))
    (p_name <$> products v !! oi_product_id i)
    (Some (oi_quantity i)) (Some (oi_price i)).

(** json_agg over the group of one order in
    orders o LEFT JOIN order_items oi ON o.id = oi.order_id
             LEFT JOIN products p ON oi.product_id = p.id:
    an order without lines is one row of the join, with oi and p null. *)
Definition joined_items (v : tables) (id : Z) : list item_object :=
  match lines_of v id with
  | [] => [mk_item_object None None None None]
  | lines => item_of v <$> lines
  end.

Definition listed_order (v : tables) (o : order) : order_listing :=
  mk_order_listing (o_id o) (o_customer_name o) (o_customer_email o)
    (o_total_amount o) (o_status o) (o_created_at o)
    (joined_items v (o_id o)).

Definition order_created_at_desc (a b : order) : Prop :=
  o_created_at b ≤ o_created_at a.

#[global] Instance order_created_at_desc_dec a b :
  Decision (order_created_at_desc a b) := Z_le_dec _ _.

(** SELECT o.id, ..., json_agg(...) as items FROM orders o LEFT JOIN ...
    GROUP BY o.id ORDER BY o.created_at DESC *)
Definition select_orders (v : tables) : list order_listing :=
  listed_order v <$> merge_sort order_created_at_desc (table_rows (orders v)).

Inductive orders_body :=
  | orders_data (data : list order_listing)
  | orders_error (error : string).

(** The handler, given whether its call to the store fails. *)
Definition list_orders (fault : bool) (w : world) : Z * orders_body :=
  if fault then (500, orders_error "Internal server error")
  else (200, orders_data (select_orders (w_tables w))).

(** Newest first, on the rows of GET /api/orders. *)
Definition newest_order_first (a b : order_listing) : Prop :=
  ol_created_at b ≤ ol_created_at a.

(** Price times quantity over the items of a listed order; a null counts
    as 0. *)
Definition items_amount (items : list item_object) : Z :=
  foldr (λ io acc, default 0 (io_price io) * default 0 (io_quantity io) + acc)
    0 items.

(** The item GET /api/orders shows for a line of a request, at the name
    and price the product has in the rows [t]. *)
Definition item_of_line (t : tables) (l : order_line) : item_object :=
  mk_item_object (Some (product_id l))
    (p_name <$> products t !! product_id l)
    (Some (quantity l)) (Some (price_of t (product_id l))).

(** * Properties *)

(** ** How [run] goes through the program constructs *)

Section Run.
Context {A B : Type}.

Lemma run_bind (p : prog A) (f : A → prog B) now st :
  run (p ≫= f) now st =
    match run p now st with
    | (inr a, st') => run (f a) now st'
    | (inl e, st') => (inl e, st')
    end.
Proof.
  revert st. induction p as [a|e|R c k IH]; intros st; try reflexivity.
  change (run (Call c k ≫= f) now st)
    with (run (Call c (λ r, k r ≫= f)) now st).
  simpl. destruct (exec_call c _ now _ _) as [[r txn] w]. apply IH.
Qed.

Lemma run_try_catch (p : prog A) (h : exn → prog A) now st :
  run (try_catch p h) now st =
    match run p now st with
    | (inr a, st') => (inr a, st')
    | (inl e, st') => run (h e) now st'
    end.
Proof.
  revert st. induction p as [a|e|R c k IH]; intros st; try reflexivity.
  simpl. destruct (exec_call c _ now _ _) as [[r txn] w]. apply IH.
Qed.

Lemma run_try_finally (p : prog A) (f : prog unit) now st :
  run (try_finally p f) now st =
    match run p now st with
    | (r, st') =>
        match run f now st' with
        | (inr _, st'') => (r, st'')
        | (inl e, st'') => (inl e, st'')
        end
    end.
Proof.
  revert st. induction p as [a|e|R c k IH]; intros st.
  - simpl. change (prog_bind (λ _, Ret a) f) with (f ≫= λ _, Ret a).
    induction f as [[]|e|R c k IH] in st |- *; try reflexivity.
    change (run (Call c k ≫= (λ _, Ret a)) now st)
      with (run (Call c (λ r, k r ≫= (λ _, Ret a))) now st).
    simpl. destruct (exec_call c _ now _ _) as [[r txn] w]. apply IH.
  - simpl. change (prog_bind (λ _, Throw e) f) with (f ≫= λ _, @Throw A e).
    induction f as [[]|e'|R c k IH] in st |- *; try reflexivity.
    change (run (Call c k ≫= (λ _, Throw e)) now st)
      with (run (Call c (λ r, k r ≫= (λ _, @Throw A e))) now st).
    simpl. destruct (exec_call c _ now _ _) as [[r txn] w]. apply IH.
  - simpl. destruct (exec_call c _ now _ _) as [[r txn] w]. apply IH.
Qed.
End Run.

Lemma run_await {R} (c : call R) now st :
  run (await c) now st =
    let '(r, txn, w) :=
      exec_call c (hd false (st_faults st)) now (st_txn st) (st_world st) in
    (r, mk_state (tl (st_faults st)) txn w).
Proof.
  unfold await. simpl.
  destruct (exec_call c _ now _ _) as [[[e|x] txn] w]; reflexivity.
Qed.

(** ** Rows laid over rows *)

Lemma overlay_no_rows t : overlay no_rows t = t.
Proof.
  destruct t. unfold overlay, no_rows. simpl.
  f_equal; apply (left_id_L ∅ (∪)).
Qed.

Lemma overlay_assoc a b c : overlay a (overlay b c) = overlay (overlay a b) c.
Proof. unfold overlay. simpl. f_equal; apply (assoc_L (∪)). Qed.

Lemma products_write_product id p t :
  products (overlay (write_product id p) t) = <[ id := p ]> (products t).
Proof. simpl. symmetry. apply insert_union_singleton_l. Qed.

Lemma world_eta w : mk_world (mk_db (w_tables w) (db_seqs (w_db w))) (w_cache w) = w.
Proof. destruct w as [[]]. reflexivity. Qed.

(** ** Cache keys *)

Lemma product_key_inj id id' :
  product_key id = product_key id' → id_text id = id_text id'.
Proof. unfold product_key. intros H. by simplify_eq/=. Qed.

Lemma product_key_not_all id : product_key id ≠ "products:all".
Proof. unfold product_key. intros H. simplify_eq/=. Qed.

(** ** POST /api/products *)

(** C8.  A product whose price is exactly 0 is turned away: [!price] holds
    of the number 0, so the handler answers 400 "Missing required
    fields" and creates nothing, whatever the other fields are. *)
Theorem create_product_rejects_price_zero name description category stock
    image_url faults now w :
  serve
    (POST_products
       (mk_product_fields name description (Some 0) category stock image_url))
    faults now w
  = (inr (respond 400 (error_body (error_string "Missing required fields"))), w).
Proof.
  unfold serve, handler, create_product. simpl.
  rewrite orb_true_r. reflexivity.
Qed.

(** The same request with a price of one cent is served. *)
Example create_product_accepts_one_cent :
  (serve
     (POST_products
        (mk_product_fields (Some "Free sample") None (Some 1) (Some "Promo")
           None None)) [] 100 shop).1
  = inr (respond 201
           (message_data "Product created successfully"
              (json_product
                 (mk_product 4 "Free sample" None 1 "Promo" 0 None true
                    100 100)))).
Proof. reflexivity. Qed.

(** ** The cache fails *)

(** C5, as stated, fails.  With an empty cache a working [get] is a miss
    and GET /api/products answers 200 from the store; when the [get]
    fails the answer is 500. *)
Lemma list_products_failed_get_is_no_miss :
  redis_get 100 "products:all" (w_cache shop) = None
  ∧ (serve GET_products [] 100 shop).1
    = inr (listing_answer (w_tables shop) "database")
  ∧ (serve GET_products [true] 100 shop).1 = inr internal_server_error
  ∧ (serve GET_products [true] 100 shop).1 ≠ (serve GET_products [] 100 shop).1.
Proof. vm_compute. repeat split; try reflexivity. discriminate. Qed.

(** C5, amended.  A failure of the cache fails the request.  When the
    [get] fails, GET /api/products and GET /api/products/:id answer 500
    and leave the store unread; when the [get] misses and the [setEx]
    after the store read fails they answer 500 too; and a failing [del]
    makes DELETE /api/products/:id answer 500. *)
Theorem cache_failure_fails_the_request :
  (∀ faults now w,
     serve GET_products (true :: faults) now w = (inr internal_server_error, w))
  ∧ (∀ id faults now w,
       serve (GET_product id) (true :: faults) now w
       = (inr internal_server_error, w))
  ∧ (∀ faults now w,
       redis_get now "products:all" (w_cache w) = None →
       serve GET_products (false :: false :: true :: faults) now w
       = (inr internal_server_error, w))
  ∧ (∀ id p faults now w,
       redis_get now (product_key id) (w_cache w) = None →
       products (w_tables w) !! id_int id = Some p →
       p_is_active p = true →
       int4 (id_int id) = true →
       serve (GET_product id) (false :: false :: true :: faults) now w
       = (inr internal_server_error, w))
  ∧ (∀ id p faults now w,
       products (w_tables w) !! id_int id = Some p →
       int4 (id_int id) = true →
       (serve (DELETE_product id) (false :: true :: faults) now w).1
       = inr internal_server_error).
Proof.
  split; [reflexivity|]. split; [reflexivity|]. repeat split.
  - intros faults now w H. unfold serve, handler, list_products. cbn.
    rewrite H. cbn. rewrite overlay_no_rows. by destruct w as [[]].
  - intros id p faults now w H Hp Ha Hi.
    unfold serve, handler, get_product. cbn. rewrite H. cbn. rewrite Hi. cbn.
    unfold active_product. fold (w_tables w). rewrite Hp, Ha. cbn.
    rewrite overlay_no_rows. by destruct w as [[]].
  - intros id p faults now w Hp Hi. unfold serve, handler, delete_product.
    cbn. rewrite Hi. cbn. fold (w_tables w). rewrite Hp. reflexivity.
Qed.

Lemma cache_failure_fails_the_request_witness :
  serve GET_products [false; false; true] 100 shop
  = (inr internal_server_error, shop)
  ∧ serve (GET_product (route 1)) [false; false; true] 100 shop
    = (inr internal_server_error, shop)
  ∧ (serve (DELETE_product (route 1)) [false; true] 100 shop).1
    = inr internal_server_error.
Proof.
  destruct cache_failure_fails_the_request as (_ & _ & Hlist & Hget & Hdel).
  split; [|split].
  - apply Hlist. reflexivity.
  - apply (Hget (route 1) product_A); reflexivity.
  - apply (Hdel (route 1) product_A); reflexivity.
Defined.

(** ** POST /api/orders: the response after the commit *)

(** C1.  An order of three units of product A is committed, then the
    invalidation of the catalog key fails inside the same [try]: the
    handler sends ROLLBACK, which has nothing left to undo, and answers
    500, while the order, its line and the decrement stay in the store. *)
Theorem create_order_reports_failure_after_commit :
  let '(out, w) :=
    serve (POST_orders (order_of [mk_order_line 1 3])) failing_invalidation
      100 shop in
  out = inr (respond 500 (error_body (error_message RedisError)))
  ∧ orders (w_tables w) !! 1
    = Some (mk_order 1 "Alice Williams" "alice.williams@example.com" 3000
              "pending" 100 100)
  ∧ order_items (w_tables w) !! 1 = Some (mk_order_item 1 1 1 3 1000 100)
  ∧ stock_of (w_tables shop) 1 = 5
  ∧ stock_of (w_tables w) 1 = 2.
Proof. vm_compute. repeat split; reflexivity. Qed.

(** ** GET /api/stats *)

(** The shop after one order of three units of product A. *)
Example shop_after_order :
  let w := (serve (POST_orders (order_of [mk_order_line 1 3])) [] 100 shop).2 in
  orders_amount (w_tables w) = 3000
  ∧ active_product (w_tables w) 1 ≠ []
  ∧ active_product (w_tables w) 2 ≠ []
  ∧ active_product (w_tables w) 3 = [].
Proof. vm_compute. repeat split; discriminate. Qed.

(** C4.  With one order of 30.00 and two active products, the cross join
    counts the order's amount once per active product: total_revenue is
    60.00 where the orders sum to 30.00.  The three counts are right. *)
Theorem get_stats_revenue_times_products :
  let w := (serve (POST_orders (order_of [mk_order_line 1 3])) [] 100 shop).2 in
  orders_amount (w_tables w) = 3000
  ∧ (serve GET_stats [] 200 w).1
    = inr (respond 200
             (data_only
                (json_stats
                   {| total_orders := 1; total_products := 2;
                      total_revenue := 6000; pending_orders := 1 |}))).
Proof. vm_compute. split; reflexivity. Qed.

(** ** DELETE /api/products/:id *)






(** ** Catalog reads and the cache *)

Lemma active_product_overlay_no_rows t id :
  active_product (overlay no_rows t) id = active_product t id.
Proof. by rewrite overlay_no_rows. Qed.

Lemma active_product_at_most_one t id row rows :
  active_product t id = row :: rows → rows = [].
Proof.
  unfold active_product. destruct (products t !! id) as [p|]; [|done].
  destruct (p_is_active p); congruence.
Qed.

Lemma cache_current_same_tables id w w' :
  w_tables w' = w_tables w → w_cache w' = w_cache w →
  cache_current id w → cache_current id w'.
Proof. unfold cache_current. intros -> ->. done. Qed.

Lemma serve_list_products_frame faults now w :
  let w' := (serve GET_products faults now w).2 in
  w_tables w' = w_tables w ∧ ∀ id, cache_current id w → cache_current id w'.
Proof.
  destruct w as [[t s] c]. unfold serve, handler, list_products.
  destruct faults as [|[] [|[] [|[] faults]]]; cbn;
    destruct (redis_get now "products:all" c) eqn:Hget; cbn;
    rewrite ?overlay_no_rows; (split; [done|]); try done;
    intros id [Hone Hall]; split; cbn; unfold w_tables; cbn;
    intros e; unfold redis_setex.
  all: try (rewrite lookup_insert_ne by (symmetry; apply product_key_not_all); apply Hone).
  all: rewrite lookup_insert_eq; by intros [= <-].
Qed.
Lemma serve_get_product_frame id' faults now w :
  let w' := (serve (GET_product id') faults now w).2 in
  w_tables w' = w_tables w
  ∧ ∀ id, same_reading id' id → cache_current id w → cache_current id w'.
Proof.
  destruct w as [[t s] c]. unfold serve, handler, get_product.
  destruct faults as [|[] [|[] [|[] faults]]]; cbn;
    destruct (redis_get now (product_key id') c) eqn:Hget; cbn;
    try (split; done);
    destruct (int4 (id_int id')); cbn; try (split; done);
    destruct (active_product t (id_int id')) as [|row rows] eqn:Hrow; cbn;
    rewrite ?overlay_no_rows; (split; [done|]); try done;
    intros id Hsame [Hone Hall]; split; cbn; unfold w_tables; cbn;
    intros e; unfold redis_setex.
  all: try (rewrite lookup_insert_ne by apply product_key_not_all; apply Hall).
  all: destruct (decide (id_text id' = id_text id)) as [Heq|Hne];
    [ unfold product_key; rewrite Heq, lookup_insert_eq; intros [= <-]; cbn;
      exists row; split; [done|];
      by rewrite <- (Hsame Heq), Hrow, (active_product_at_most_one _ _ _ _ Hrow)
    | rewrite lookup_insert_ne by (intros ?%product_key_inj; done); apply Hone ].
Qed.

Lemma serve_get_stats_frame faults now w :
  let w' := (serve GET_stats faults now w).2 in
  w_tables w' = w_tables w ∧ ∀ id, cache_current id w → cache_current id w'.
Proof.
  destruct w as [[t s] c]. unfold serve, handler, get_stats.
  destruct faults as [|[] faults]; cbn; rewrite ?overlay_no_rows; done.
Qed.

Lemma serve_read_frame id r faults now w :
  reads_like id r →
  let w' := (serve r faults now w).2 in
  w_tables w' = w_tables w ∧ (cache_current id w → cache_current id w').
Proof.
  destruct r as [ |id'|?|? ?|?|?|? ?| ]; try done; intros Hr.
  - destruct (serve_list_products_frame faults now w) as [? H]. eauto.
  - destruct (serve_get_product_frame id' faults now w) as [? H]. eauto.
  - destruct (serve_get_stats_frame faults now w) as [? H]. eauto.
Qed.

Lemma serve_all_reads_frame id rs w :
  Forall (λ r : request * list bool * Z, reads_like id r.1.1) rs →
  w_tables (serve_all rs w) = w_tables w
  ∧ (cache_current id w → cache_current id (serve_all rs w)).
Proof.
  intros Hrs. revert w. induction Hrs as [|[[r faults] now] rs Hr _ IH]; intros w.
  - done.
  - cbn [serve_all]. destruct (serve_read_frame id r faults now w Hr) as [Ht Hc].
    destruct (IH (serve r faults now w).2) as [Ht' Hc']. split.
    + by rewrite Ht'.
    + intros H. by apply Hc', Hc.
Qed.

(** Under [cache_current], a read answers with what the store holds. *)
Lemma serve_get_product_current id now w :
  int4 (id_int id) = true →
  cache_current id w →
  ∃ source,
    (serve (GET_product id) [] now w).1
    = inr (product_answer (w_tables w) (id_int id) source).
Proof.
  intros Hi [Hone _]. destruct w as [[t s] c].
  unfold serve, handler, get_product, product_answer. cbn.
  unfold redis_get. destruct (c !! product_key id) as [e|] eqn:He.
  - destruct (Hone e He) as (p & Hv & Hp). unfold w_tables in *. cbn in *.
    destruct (now <? ce_expires e); cbn.
    + exists "cache". by rewrite Hp, Hv.
    + rewrite Hi. cbn. exists "database". by rewrite Hp.
  - cbn. rewrite Hi. cbn. exists "database". unfold w_tables. cbn.
    by destruct (active_product t (id_int id)).
Qed.

Lemma serve_list_products_current id now w :
  cache_current id w →
  ∃ source,
    (serve GET_products [] now w).1
    = inr (listing_answer (w_tables w) source).
Proof.
  intros [_ Hall]. destruct w as [[t s] c].
  unfold serve, handler, list_products, listing_answer. cbn.
  unfold redis_get. destruct (c !! "products:all") as [e|] eqn:He.
  - specialize (Hall e He). unfold w_tables in *. cbn in *.
    destruct (now <? ce_expires e); cbn.
    + exists "cache". by rewrite Hall.
    + by exists "database".
  - cbn. by exists "database".
Qed.
Lemma cache_current_after_del id (d : db) c :
  cache_current id
    (mk_world d (redis_del (product_key id) (redis_del "products:all" c))).
Proof.
  split; cbn; intros e; unfold redis_del; rewrite !lookup_delete;
    repeat case_decide; done.
Qed.

Lemma check_product_active p p' :
  check_product p = inr p' → p_is_active p' = p_is_active p.
Proof.
  unfold check_product. intros H.
  repeat (case_match; try discriminate). by simplify_eq.
Qed.

Lemma serve_update_product_ok id f faults now w resp w' :
  serve (PUT_product id f) faults now w = (inr resp, w') →
  r_status resp = 200 →
  int4 (id_int id) = true
  ∧ cache_current id w'
  ∧ ∃ row,
      r_body resp = message_data "Product updated successfully" (json_product row)
      ∧ active_product (w_tables w') (id_int id) = [row].
Proof.
  destruct w as [[t s] c]. unfold serve, handler, update_product.
  destruct faults as [|[] [|[] [|[] faults]]]; cbn;
    try (intros [= <- <-]; done);
    (destruct (int4 (id_int id)) eqn:Hi; cbn; [|intros [= <- <-]; done]);
    (destruct (from_option int4 true (f_stock f)); cbn; [|intros [= <- <-]; done]);
    (destruct (products t !! id_int id) as [p|] eqn:Hp; cbn;
       [|intros [= <- <-]; done]);
    (destruct (p_is_active p) eqn:Ha; cbn; [|intros [= <- <-]; done]);
    (destruct (updated_product p _ _ _ _ _ _ now) as [e|p'] eqn:Hup; cbn;
       [intros [= <- <-]; done|]);
    intros [= <- <-]; try done; intros _.
  all: split; [done|]; split; [apply cache_current_after_del|].
  all: exists p'; split; [done|]; unfold active_product, w_tables; cbn.
  all: rewrite <- insert_union_singleton_l, lookup_insert_eq.
  all: apply check_product_active in Hup; cbn in Hup; by rewrite Hup, Ha.
Qed.

Lemma serve_delete_product_ok id faults now w resp w' :
  serve (DELETE_product id) faults now w = (inr resp, w') →
  r_status resp = 200 →
  int4 (id_int id) = true
  ∧ cache_current id w'
  ∧ active_product (w_tables w') (id_int id) = [].
Proof.
  destruct w as [[t s] c]. unfold serve, handler, delete_product.
  destruct faults as [|[] [|[] [|[] faults]]]; cbn;
    try (intros [= <- <-]; done);
    (destruct (int4 (id_int id)) eqn:Hi; cbn; [|intros [= <- <-]; done]);
    (destruct (products t !! id_int id) as [p|] eqn:Hp; cbn;
       [|intros [= <- <-]; done]);
    intros [= <- <-]; try done; intros _.
  all: split; [done|]; split; [apply cache_current_after_del|].
  all: unfold active_product, w_tables; cbn.
  all: by rewrite <- insert_union_singleton_l, lookup_insert_eq.
Qed.

(** C6, amended.  The reads that follow a successful update or delete
    of a product, when requests are served one after the other and the
    product is read under the text of the route it was changed under:
    whatever reads come in between, failing or not, of the listing, of
    the statistics or of a product under any text (one text being read
    by the store as one integer), GET /api/products/:id answers with the
    row the store holds after the change (404 once it is deleted) and
    GET /api/products with the listing the store holds, from the cache
    or from the store. *)
Theorem reads_after_product_mutation id mutation faults now w resp w' reads
    now' :
  (mutation = DELETE_product id ∨ ∃ f, mutation = PUT_product id f) →
  serve mutation faults now w = (inr resp, w') →
  r_status resp = 200 →
  Forall (λ r : request * list bool * Z, reads_like id r.1.1) reads →
  let w'' := serve_all reads w' in
  w_tables w'' = w_tables w'
  ∧ (∃ source,
       (serve (GET_product id) [] now' w'').1
       = inr (product_answer (w_tables w') (id_int id) source))
  ∧ (∃ source,
       (serve GET_products [] now' w'').1
       = inr (listing_answer (w_tables w') source))
  ∧ (mutation = DELETE_product id →
     active_product (w_tables w') (id_int id) = [])
  ∧ (∀ f, mutation = PUT_product id f →
          ∃ row,
            r_body resp
            = message_data "Product updated successfully" (json_product row)
            ∧ active_product (w_tables w') (id_int id) = [row]).
Proof.
  intros Hm Hserve Hok Hreads w''.
  assert (int4 (id_int id) = true ∧ cache_current id w') as [Hi Hc].
  { destruct Hm as [->|[f ->]].
    - by destruct (serve_delete_product_ok _ _ _ _ _ _ Hserve Hok) as (? & ? & _).
    - by destruct (serve_update_product_ok _ _ _ _ _ _ _ Hserve Hok) as (? & ? & _). }
  destruct (serve_all_reads_frame id reads w' Hreads) as [Ht Hc'].
  specialize (Hc' Hc). fold w'' in Ht, Hc'.
  split; [done|]. rewrite <- Ht. split; [by apply serve_get_product_current|].
  split; [by apply (serve_list_products_current id)|]. rewrite Ht. split.
  - intros ->. by destruct (serve_delete_product_ok _ _ _ _ _ _ Hserve Hok) as (_ & _ & ?).
  - intros f ->. by destruct (serve_update_product_ok _ _ _ _ _ _ _ Hserve Hok) as (_ & _ & ?).
Qed.

Lemma reads_after_product_mutation_witness :
  let put :=
    PUT_product (route 1)
      (mk_product_fields None None (Some 1500) None None None) in
  let w' := (serve put [] 101 shop).2 in
  let w'' :=
    serve_all
      [(GET_product (route 1), [], 102); (GET_product route_01, [], 103);
       (GET_products, [], 104)] w' in
  w_tables w'' = w_tables w'
  ∧ (∃ source,
       (serve (GET_product (route 1)) [] 110 w'').1
       = inr (product_answer (w_tables w') 1 source))
  ∧ (∃ source,
       (serve GET_products [] 110 w'').1
       = inr (listing_answer (w_tables w') source))
  ∧ (put = DELETE_product (route 1) → active_product (w_tables w') 1 = [])
  ∧ (∀ f, put = PUT_product (route 1) f →
          ∃ row,
            r_body (respond 200
                      (message_data "Product updated successfully"
                         (json_product product_A_repriced)))
            = message_data "Product updated successfully" (json_product row)
            ∧ active_product (w_tables w') 1 = [row]).
Proof.
  intros put w'.
  apply (reads_after_product_mutation (route 1) put [] 101 shop
           (respond 200
              (message_data "Product updated successfully"
                 (json_product product_A_repriced)))
           w' _ 110).
  - right. by eexists.
  - vm_compute. reflexivity.
  - reflexivity.
  - repeat (constructor; [cbn; unfold same_reading; done|]). constructor.
Defined.

(** ** POST /api/orders: inside the transaction *)

Lemma run_client_query_txn {R} (q : sql R) now faults W w :
  run (await (client_query q)) now (mk_state faults (Some W) w)
  = if hd false faults
    then (inl (DatabaseError connection_failure),
          mk_state (tl faults) (Some W) w)
    else
      let r := exec_sql q now (overlay W (w_tables w)) (db_seqs (w_db w)) in
      (match sr_rows r with inl e => inl (DatabaseError e) | inr x => inr x end,
       mk_state (tl faults) (Some (overlay (sr_writes r) W))
         (mk_world (mk_db (w_tables w) (sr_seqs r)) (w_cache w))).
Proof. rewrite run_await. cbn. by destruct (hd false faults). Qed.

Lemma ordered_quantity_absent lines id :
  (∀ l, l ∈ lines → product_id l ≠ id) → ordered_quantity lines id = 0.
Proof.
  induction lines as [|l lines IH]; intros H; [done|]. cbn.
  rewrite decide_False by (apply H; left).
  apply IH. intros l' Hl'. apply H. by right.
Qed.

Lemma ordered_in_dec (lines : list order_line) id :
  (∃ l, l ∈ lines ∧ product_id l = id) ∨ (∀ l, l ∈ lines → product_id l ≠ id).
Proof.
  induction lines as [|l lines [(l' & Hl' & Heq)|IH]].
  - right. by intros l Hl%elem_of_nil.
  - left. exists l'. split; [by right|done].
  - destruct (decide (product_id l = id)) as [Heq|Hne].
    + left. exists l. split; [left|done].
    + right. intros l' [->|Hl']%elem_of_cons; [done|by apply IH].
Qed.

(** The first loop reads: it leaves the transaction and the world as
    they are, and no cache call is made in it. *)
Lemma price_loop_reads lines acc now faults W w r st' :
  run (price_loop lines acc) now (mk_state faults (Some W) w) = (r, st') →
  st_txn st' = Some W ∧ st_world st' = w ∧ r ≠ inl RedisError.
Proof.
  revert acc faults. induction lines as [|item rest IH]; intros acc faults.
  - cbn. by intros [= <- <-].
  - cbn [price_loop]. rewrite run_bind, run_client_query_txn.
    destruct (hd false faults); [by intros [= <- <-]|]. cbn.
    destruct (int4 (product_id item)); cbn;
      rewrite overlay_no_rows, world_eta; [|by intros [= <- <-]].
    destruct (_ !! product_id item) as [p|]; cbn; [|by intros [= <- <-]].
    destruct (p_is_active p); cbn; [|by intros [= <- <-]].
    destruct (p_stock p <? quantity item); [by intros [= <- <-]|].
    apply IH.
Qed.
Lemma check_stock_ok z s : check_stock z = inr s → s = z ∧ 0 ≤ z.
Proof.
  unfold check_stock. destruct (int4 z); cbn; [|done].
  destruct (z <? 0) eqn:H; [done|]. intros [= <-]. split; [done|lia].
Qed.

Lemma stock_of_insert t t' id p :
  products t' = <[ id := p ]> (products t) →
  ∀ id', stock_of t' id' = if decide (id = id') then p_stock p else stock_of t id'.
Proof.
  intros H id'. unfold stock_of. rewrite H, lookup_insert.
  by destruct (decide (id = id')).
Qed.

Lemma ordered_quantity_cons l rest id :
  ordered_quantity (l :: rest) id
  = (if decide (product_id l = id) then quantity l else 0)
    + ordered_quantity rest id.
Proof. unfold ordered_quantity. cbn. case_decide; lia. Qed.

Lemma decremented_nil t : decremented [] t t.
Proof.
  split; [|split].
  - intros id. cbn. lia.
  - by intros l Hl%elem_of_nil.
  - done.
Qed.

Lemma decremented_cons item rest p now V V2 V' :
  products V !! product_id item = Some p →
  products V2
  = <[ product_id item := with_stock p (p_stock p - quantity item) now ]>
      (products V) →
  0 ≤ p_stock p - quantity item →
  decremented rest V2 V' →
  decremented (item :: rest) V V'.
Proof.
  intros Hp HV2 Hpos (Hstock & Hordered & Hother).
  pose proof (stock_of_insert V V2 _ _ HV2) as HS.
  split; [|split].
  - intros id. rewrite Hstock, HS, ordered_quantity_cons.
    destruct (decide (product_id item = id)) as [<-|Hne]; [|lia].
    unfold stock_of. rewrite Hp. cbn. lia.
  - intros l [->|Hl]%elem_of_cons.
    + split; [|by rewrite Hp].
      destruct (ordered_in_dec rest (product_id item)) as [(l' & Hl' & Heq)|Hno].
      * rewrite <- Heq. by apply Hordered.
      * rewrite Hstock, HS, decide_True by done.
        rewrite (ordered_quantity_absent _ _ Hno). cbn. lia.
    + destruct (Hordered l Hl) as [H0 Hsome]. split; [done|].
      rewrite HV2, lookup_insert in Hsome. case_decide as Heq; [|done].
      rewrite <- Heq. by rewrite Hp.
  - intros id Hid. rewrite Hother.
    + rewrite HV2. apply lookup_insert_ne. apply Hid. left.
    + intros l Hl. apply Hid. by right.
Qed.
(** The second loop writes in the transaction only.  When it comes to
    its end, the stock the transaction sees is down by the quantities
    ordered, and every decrement has passed CHECK (stock >= 0). *)
Lemma items_loop_writes oid lines now faults W w r st' :
  run (items_loop oid lines) now (mk_state faults (Some W) w) = (r, st') →
  ∃ W',
    st_txn st' = Some W'
    ∧ w_tables (st_world st') = w_tables w
    ∧ w_cache (st_world st') = w_cache w
    ∧ r ≠ inl RedisError
    ∧ (r = inr tt →
       decremented lines (overlay W (w_tables w)) (overlay W' (w_tables w))).
Proof.
  revert faults W w. induction lines as [|item rest IH]; intros faults W w.
  - cbn. intros [= <- <-]. exists W. split_and!; try done.
    intros _. apply decremented_nil.
  - cbn -[new_order_item check_stock overlay].
    destruct (hd false faults).
    { intros [= <- <-]. exists W. by split_and!. }
    cbn -[new_order_item check_stock overlay].
    destruct (int4 (product_id item)) eqn:Hi;
      cbn -[new_order_item check_stock overlay]; rewrite !overlay_no_rows.
    2: { intros [= <- <-]. eexists. by split_and!. }
    fold (w_tables w).
    destruct (products (overlay W (w_tables w)) !! product_id item) as [p|] eqn:Hp;
      cbn -[new_order_item check_stock overlay].
    2: { intros [= <- <-]. eexists. by split_and!. }
    destruct (hd false (tl faults)).
    { intros [= <- <-]. eexists. by split_and!. }
    cbn -[new_order_item check_stock overlay]. fold (w_tables w).
    destruct (new_order_item _ _ _ _ _ _ _) as [e|i] eqn:Hnew;
      cbn -[new_order_item check_stock overlay].
    { rewrite overlay_no_rows. intros [= <- <-]. eexists. by split_and!. }
    destruct (order_items _ !! _) as [?|] eqn:Hfree;
      cbn -[new_order_item check_stock overlay].
    { rewrite overlay_no_rows. intros [= <- <-]. eexists. by split_and!. }
    destruct (hd false (tl (tl faults))).
    { intros [= <- <-]. eexists. by split_and!. }
    cbn -[new_order_item check_stock overlay].
    destruct (int4 (quantity item)) eqn:Hq;
      cbn -[new_order_item check_stock overlay].
    2: { rewrite overlay_no_rows. intros [= <- <-]. eexists. by split_and!. }
    rewrite Hi. cbn -[new_order_item check_stock overlay].
    assert (products (overlay (overlay (write_order_item
              (order_items_id_seq (db_seqs (w_db w)) + 1) i) W) (w_tables w))
            = products (overlay W (w_tables w))) as Hsame.
    { cbn. by rewrite (left_id_L ∅ (∪)). }
    rewrite Hsame, Hp. cbn -[new_order_item check_stock overlay].
    destruct (check_stock _) as [e|stock] eqn:Hcheck;
      cbn -[new_order_item check_stock overlay].
    { rewrite overlay_no_rows. intros [= <- <-]. eexists. by split_and!. }
    intros Hrun. apply IH in Hrun as (W' & Htxn & Ht & Hc & Hr & Hdec).
    unfold w_tables in *. cbn [w_db db_tables w_cache] in *.
    exists W'. split_and!; try done.
    intros ->. apply check_stock_ok in Hcheck as [-> Hpos].
    refine (decremented_cons item rest p now _ _ _ Hp _ Hpos (Hdec eq_refl)).
    cbn. rewrite <- insert_union_singleton_l, (left_id_L ∅ (∪)).
    symmetry. apply insert_union_l.
Qed.

Lemma decremented_products lines b b' a a' :
  products b = products b' → products a = products a' →
  decremented lines b a → decremented lines b' a'.
Proof.
  unfold decremented, stock_of. intros -> ->. done.
Qed.

Ltac order_unchanged :=
  cbn; intros [= <- <-]; left; cbn; split_and!;
  [ first [tauto | done | lia] | first [discriminate | done] | done | done ].

(** What POST /api/orders leaves behind, whichever calls fail: either
    nothing, or the committed order with its decrements. *)
Lemma create_order_outcome req faults now w out w' :
  serve (POST_orders req) faults now w = (out, w') →
  (¬ created out ∧ out ≠ cache_error
   ∧ w_tables w' = w_tables w ∧ w_cache w' = w_cache w)
  ∨ (∃ lines,
       items req = Some lines
       ∧ decremented lines (w_tables w) (w_tables w')
       ∧ ((created out ∧ w_cache w' = redis_del "products:all" (w_cache w))
          ∨ (out = cache_error ∧ w_cache w' = w_cache w))).
Proof.
  unfold serve, handler, create_order.
  destruct (not_string (customer_name req) || not_string (customer_email req)).
  { order_unchanged. }
  destruct (items req) as [[|item rest]|] eqn:Hitems.
  1,3: order_unchanged.
  assert (item :: rest ≠ []) as Hne by done.
  remember (item :: rest) as lines eqn:Hlines. clear Hlines.
  rewrite run_bind, run_await. cbn [exec_call st_faults st_txn st_world].
  destruct (hd false faults).
  { order_unchanged. }
  rewrite run_try_finally, run_try_catch. unfold order_transaction.
  rewrite run_bind, run_await. cbn [exec_call st_faults st_txn st_world].
  rewrite run_bind.
  destruct (run (price_loop lines 0) _ _) as [r1 st1] eqn:Hprice.
  apply price_loop_reads in Hprice as (Htxn1 & Hw1 & Hr1).
  destruct st1 as [f1 txn1 w1]. cbn in Htxn1, Hw1. subst txn1 w1.
  destruct r1 as [e|total_amount].
  { cbn; intros [= <- <-]; left; cbn. split_and!; [done|by intros [= ->]|done|done]. }
  rewrite run_bind, run_client_query_txn.
  destruct (hd false f1).
  { order_unchanged. }
  cbn -[overlay new_order]. rewrite !overlay_no_rows.
  destruct (new_order _ _ _ _ _) as [e|o] eqn:Hnew; cbn -[overlay].
  { order_unchanged. }
  destruct (orders (w_tables w) !! _) as [?|] eqn:Hfree; cbn -[overlay].
  { order_unchanged. }
  rewrite run_bind.
  destruct (run (items_loop (o_id o) lines) _ _) as [r2 st2] eqn:Hloop.
  apply items_loop_writes in Hloop as (W' & Htxn2 & Ht2 & Hc2 & Hr2 & Hdec).
  destruct st2 as [f2 txn2 [d2 c2]]. unfold w_tables in Ht2, Hdec.
  cbn in Htxn2, Ht2, Hc2, Hdec. subst txn2 c2.
  destruct r2 as [e|[]].
  { cbn. intros [= <- <-]. left. cbn. unfold w_tables.
    split_and!; [done|by intros [= ->]|done|done]. }
  specialize (Hdec eq_refl).
  assert (decremented lines (w_tables w) (overlay W' (db_tables d2))) as Hdec'.
  { revert Hdec. apply decremented_products.
    - cbn. by rewrite !(left_id_L ∅ (∪)).
    - by rewrite Ht2. }
  cbn -[overlay]. destruct (hd false (tl f2)); cbn -[overlay].
  - intros [= <- <-]. right. exists lines. split_and!; [done..|].
    right. done.
  - intros [= <- <-]. right. exists lines. split_and!; [done..|].
    left. done.
Qed.

(** ** CHECK (stock >= 0) *)

Lemma stock_nonneg_overlay a b :
  stock_nonneg a → stock_nonneg b → stock_nonneg (overlay a b).
Proof.
  unfold stock_nonneg. intros Ha Hb id p. cbn.
  intros [H|[_ H]]%lookup_union_Some_raw; [by apply (Ha id)|by apply (Hb id)].
Qed.

Lemma stock_nonneg_no_rows : stock_nonneg no_rows.
Proof. unfold stock_nonneg. cbn. apply map_Forall_empty. Qed.

Lemma stock_nonneg_write_product id p :
  0 ≤ p_stock p → stock_nonneg (write_product id p).
Proof. intros H. unfold stock_nonneg. cbn. by apply map_Forall_singleton. Qed.

Lemma check_product_stock p p' :
  check_product p = inr p' → 0 ≤ p_stock p'.
Proof.
  unfold check_product. intros H.
  repeat (case_match; try discriminate). simplify_eq. cbn. lia.
Qed.

(** No statement writes a product row with a negative stock. *)
Lemma new_product_stock id name description price category stock image_url
    now p :
  new_product id name description price category stock image_url now = inr p →
  0 ≤ p_stock p.
Proof.
  unfold new_product. intros H. repeat (case_match; try discriminate).
  by eapply check_product_stock.
Qed.

Lemma stock_nonneg_other_rows (t : tables) :
  products t = ∅ → stock_nonneg t.
Proof. unfold stock_nonneg. intros ->. apply map_Forall_empty. Qed.

Lemma exec_sql_stock_nonneg {R} (q : sql R) now v s :
  stock_nonneg v → stock_nonneg (sr_writes (exec_sql q now v s)).
Proof.
  intros Hv. destruct q; cbn;
    repeat (case_match; cbn);
    try (apply stock_nonneg_other_rows; reflexivity);
    apply stock_nonneg_write_product; cbn.
  - by eapply new_product_stock.
  - unfold updated_product in *. by eapply check_product_stock.
  - by eapply (Hv id).
  - by match goal with H : check_stock _ = inr _ |- _ =>
      apply check_stock_ok in H as [-> ?] end.
Qed.

Lemma exec_call_stock_safe {R} (c : call R) fault now txn w :
  stock_safe txn w →
  stock_safe (exec_call c fault now txn w).1.2 (exec_call c fault now txn w).2.
Proof.
  intros [Hw Htxn]. unfold stock_safe, w_tables in *.
  destruct c; destruct fault; try destruct txn as [W|]; cbn in *;
    repeat first
      [ done | split | apply stock_nonneg_overlay
      | apply exec_sql_stock_nonneg | apply stock_nonneg_no_rows ].
Qed.

Lemma run_stock_safe {A} (p : prog A) now st :
  stock_safe (st_txn st) (st_world st) →
  stock_safe (st_txn (run p now st).2) (st_world (run p now st).2).
Proof.
  revert st. induction p as [a|e|R c k IH]; intros st Hst; try done.
  cbn. pose proof (exec_call_stock_safe c (hd false (st_faults st)) now _ _ Hst) as H.
  destruct (exec_call c _ now _ _) as [[r txn] w]. by apply IH.
Qed.

Lemma serve_stock_nonneg r faults now w :
  stock_nonneg (w_tables w) → stock_nonneg (w_tables (serve r faults now w).2).
Proof.
  intros Hw. unfold serve.
  pose proof (run_stock_safe (handler r) now (mk_state faults None w)) as H.
  destruct (run (handler r) now _) as [out st]. by apply H.
Qed.

Lemma serve_all_stock_nonneg rs w :
  stock_nonneg (w_tables w) → stock_nonneg (w_tables (serve_all rs w)).
Proof.
  revert w. induction rs as [|[[r faults] now] rs IH]; intros w Hw; [done|].
  cbn. by apply IH, serve_stock_nonneg.
Qed.

(** The order that lists product A twice: each line asks for three of the
    five in stock.  Both lines pass the stock check of the first loop; the
    second decrement is refused by CHECK (stock >= 0) and the transaction
    is rolled back. *)
Example create_order_same_product_twice :
  serve (POST_orders (order_of [mk_order_line 1 3; mk_order_line 1 3])) [] 100
    shop
  = (inr (respond 500
            (error_body
               (error_message
                  (DatabaseError (check_violation "products_stock_check"))))),
     mk_world (mk_db shop_tables (mk_sequences 3 1 2)) ∅).
Proof. reflexivity. Qed.

(** C7.  The order of three units of product A whose invalidation of
    the catalog key fails after the commit neither fails without a change
    of state nor succeeds: the response is the 500 of the cache error,
    and the order and its line are stored and the stock of product A is
    down from 5 to 2. *)
Theorem create_order_fails_with_state_change :
  let '(out, w) :=
    serve (POST_orders (order_of [mk_order_line 1 3])) failing_invalidation
      100 shop in
  ¬ created out
  ∧ out = cache_error
  ∧ w_tables w ≠ w_tables shop
  ∧ orders (w_tables shop) = ∅
  ∧ (∃ o, orders (w_tables w) !! 1 = Some o)
  ∧ (∃ i, order_items (w_tables w) !! 1 = Some i)
  ∧ stock_of (w_tables shop) 1 = 5
  ∧ stock_of (w_tables w) 1 = 2
  ∧ decremented [mk_order_line 1 3] (w_tables shop) (w_tables w).
Proof.
  destruct (serve _ _ _ _) as [out w] eqn:Hserve.
  assert (out = cache_error ∧ stock_of (w_tables w) 1 = 2
          ∧ (∃ o, orders (w_tables w) !! 1 = Some o)
          ∧ (∃ i, order_items (w_tables w) !! 1 = Some i)) as (-> & Hs & Ho & Hi).
  { vm_compute in Hserve. injection Hserve as <- <-.
    split_and!; [reflexivity|reflexivity|by eexists|by eexists]. }
  assert (w_tables w ≠ w_tables shop) as Hne.
  { intros E. rewrite E in Hs. vm_compute in Hs. discriminate. }
  split_and!; try done.
  destruct (create_order_outcome _ _ _ _ _ _ Hserve)
    as [(_ & _ & Ht & _)|(lines & Hlines & Hdec & _)]; [done|].
  by injection Hlines as <-.
Qed.

(** X23.  The stock of no product is negative after any sequence of
    requests, whichever of their calls fail.  And for every POST
    /api/orders, also one that lists a product in several lines: either
    the order is not created and the tables are as they were, or the
    transaction is committed, and then every product's stock is its prior
    stock less the total quantity ordered of it and no ordered product is
    below zero.  The response is 201 in the second case, but for the
    commit after which the cache call fails, when it is 500. *)
Theorem stock_never_negative :
  (∀ rs w,
     stock_nonneg (w_tables w) → stock_nonneg (w_tables (serve_all rs w)))
  ∧ (∀ req faults now w out w',
       serve (POST_orders req) faults now w = (out, w') →
       (¬ created out ∧ w_tables w' = w_tables w)
       ∨ (∃ lines,
            items req = Some lines
            ∧ decremented lines (w_tables w) (w_tables w')
            ∧ (created out ∨ out = cache_error))).
Proof.
  split; [apply serve_all_stock_nonneg|].
  intros req faults now w out w' Hserve.
  destruct (create_order_outcome _ _ _ _ _ _ Hserve)
    as [(Hout & _ & Ht & _)|(lines & Hlines & Hdec & Hout)].
  - by left.
  - right. exists lines. split_and!; [done..|]. destruct Hout as [[]|[]]; auto.
Qed.

Lemma stock_never_negative_witness :
  stock_nonneg
    (w_tables
       (serve_all
          [(POST_orders (order_of [mk_order_line 1 3; mk_order_line 1 3]),
            [], 100);
           (POST_orders (order_of [mk_order_line 1 3]), [], 101);
           (PUT_product (route 2)
              (mk_product_fields None None None None (Some (-1)) None),
            [], 102);
           (POST_orders (order_of [mk_order_line 1 3]), [], 103)]
          shop)).
Proof.
  apply (proj1 stock_never_negative).
  unfold stock_nonneg. apply (bool_decide_unpack _). by vm_compute.
Defined.

(** ** POST /api/orders and the cached products *)

Lemma serve_get_product_from_database id now w0 row w :
  serve (GET_product id) [] now w0
  = (inr (respond 200 (source_data "database" (json_product row))), w) →
  int4 (id_int id) = true
  ∧ active_product (w_tables w0) (id_int id) = [row]
  ∧ w = mk_world (w_db w0)
          (redis_setex now (product_key id) 600 (json_product row) (w_cache w0)).
Proof.
  destruct w0 as [[t s] c]. unfold serve, handler, get_product.
  cbn -[active_product].
  destruct (redis_get now (product_key id) c); cbn -[active_product];
    [by intros [= <- <-]|].
  destruct (int4 (id_int id)); cbn -[active_product]; [|by intros [= <- <-]].
  destruct (active_product _ (id_int id)) as [|row' rows] eqn:Hrow; cbn;
    [by intros [= <- <-]|].
  rewrite overlay_no_rows. intros [= <- <-]. unfold w_tables.
  cbn. by rewrite (active_product_at_most_one _ _ _ _ Hrow).
Qed.

Lemma serve_get_product_hit id now w e :
  w_cache w !! product_key id = Some e →
  now < ce_expires e →
  serve (GET_product id) [] now w
  = (inr (respond 200 (source_data "cache" (ce_value e))), w).
Proof.
  intros He Hnow. unfold serve, handler, get_product. cbn.
  unfold redis_get. rewrite He.
  by rewrite (proj2 (Z.ltb_lt _ _) Hnow).
Qed.

Lemma serve_get_product_expired id now w e :
  w_cache w !! product_key id = Some e →
  ce_expires e ≤ now →
  int4 (id_int id) = true →
  (serve (GET_product id) [] now w).1
  = inr (product_answer (w_tables w) (id_int id) "database").
Proof.
  intros He Hnow Hi. destruct w as [[t s] c].
  unfold serve, handler, get_product, product_answer. cbn in *.
  unfold redis_get. rewrite He.
  rewrite (proj2 (Z.ltb_ge _ _) Hnow). cbn. rewrite Hi. cbn -[active_product].
  unfold w_tables. cbn -[active_product].
  by destruct (active_product _ (id_int id)).
Qed.

(** C10.  A successful POST /api/orders deletes the key of the catalog
    listing and no other: the entry of every product, also of a product
    the order took stock of, stays as it was.  So when GET
    /api/products/:id has filled the entry from the store at time [now0],
    the same request after the order answers from the cache with the row
    read before the order, stock included, at every time before
    [now0 + 600]; from then on it reads the store, whose stock is down by
    the quantity ordered. *)
Theorem create_order_keeps_product_entries req faults now w out w' id :
  serve (POST_orders req) faults now w = (out, w') →
  created out →
  w_cache w' = redis_del "products:all" (w_cache w)
  ∧ w_cache w' !! "products:all" = None
  ∧ w_cache w' !! product_key id = w_cache w !! product_key id
  ∧ (∃ lines,
       items req = Some lines
       ∧ decremented lines (w_tables w) (w_tables w'))
  ∧ (∀ now0 w0 row,
       serve (GET_product id) [] now0 w0
       = (inr (respond 200 (source_data "database" (json_product row))), w) →
       products (w_tables w) !! id_int id = Some row
       ∧ ∀ now',
           (now' < now0 + 600 →
            serve (GET_product id) [] now' w'
            = (inr (respond 200 (source_data "cache" (json_product row))), w'))
           ∧ (now0 + 600 ≤ now' →
              (serve (GET_product id) [] now' w').1
              = inr (product_answer (w_tables w') (id_int id) "database"))).
Proof.
  intros Hserve Hout.
  destruct (create_order_outcome _ _ _ _ _ _ Hserve)
    as [(Hno & _)|(lines & Hlines & Hdec & [[_ Hc]|[-> _]])]; try done.
  assert (w_cache w' !! product_key id = w_cache w !! product_key id) as Hkey.
  { rewrite Hc. unfold redis_del. apply lookup_delete_ne.
    intros H. by apply (product_key_not_all id). }
  split_and!; [done| |done|by exists lines|].
  { rewrite Hc. unfold redis_del. apply lookup_delete_eq. }
  intros now0 w0 row Hget.
  apply serve_get_product_from_database in Hget as (Hi & Hrow & ->).
  cbn in Hkey. unfold redis_setex in Hkey. rewrite lookup_insert_eq in Hkey.
  split.
  - unfold w_tables. cbn. fold (w_tables w0).
    unfold active_product in Hrow.
    destruct (products (w_tables w0) !! id_int id) as [p|]; [|done].
    destruct (p_is_active p); congruence.
  - intros now'. split; intros Hnow.
    + by apply (serve_get_product_hit id now' w' _ Hkey).
    + by apply (serve_get_product_expired id now' w' _ Hkey).
Qed.

Lemma create_order_keeps_product_entries_witness :
  let w := (serve (GET_product (route 1)) [] 50 shop).2 in
  let w' := (serve (POST_orders (order_of [mk_order_line 1 3])) [] 100 w).2 in
  serve (GET_product (route 1)) [] 120 w'
  = (inr (respond 200 (source_data "cache" (json_product product_A))), w')
  ∧ p_stock product_A = 5
  ∧ stock_of (w_tables w') 1 = 2.
Proof.
  intros w w'. split; [|split; reflexivity].
  pose proof (create_order_keeps_product_entries
                (order_of [mk_order_line 1 3]) [] 100 w
                (serve (POST_orders (order_of [mk_order_line 1 3])) [] 100 w).1
                w' (route 1)) as H.
  destruct H as (_ & _ & _ & _ & H); [reflexivity|reflexivity|].
  destruct (H 50 shop product_A) as [_ H']; [reflexivity|].
  apply H'. reflexivity.
Defined.

(** ** POST /api/orders: an order that is served *)

Lemma varchar_fits n s : (String.length s ≤ n)%nat → varchar n s = Some s.
Proof.
  intros H. unfold varchar. by rewrite (proj2 (Nat.leb_le _ _) H).
Qed.

















(** ** Two orders in flight together *)

Lemma traces_mono {A} (p : prog A) σ (Φ Ψ : ledger → exn + A → Prop) :
  (∀ σ' r, Φ σ' r → Ψ σ' r) → traces p σ Φ → traces p σ Ψ.
Proof.
  intros H. revert σ. induction p as [a|e|R c k IH]; intros σ; cbn; [auto..|].
  intros [Hc Hk]. split; [done|]. intros r. by apply IH.
Qed.

Lemma traces_bind {A B} (p : prog A) (f : A → prog B) σ Φ :
  traces p σ
    (λ σ' r, match r with
             | inr a => traces (f a) σ' Φ
             | inl e => Φ σ' (inl e)
             end) →
  traces (p ≫= f) σ Φ.
Proof.
  revert σ. induction p as [a|e|R c k IH]; intros σ; [done..|].
  change (Call c k ≫= f) with (Call c (λ r, k r ≫= f)). cbn.
  intros [Hc Hk]. split; [done|]. intros r. by apply IH.
Qed.

Lemma traces_try_catch {A} (p : prog A) (h : exn → prog A) σ Φ :
  traces p σ
    (λ σ' r, match r with
             | inr a => Φ σ' (inr a)
             | inl e => traces (h e) σ' Φ
             end) →
  traces (try_catch p h) σ Φ.
Proof.
  revert σ. induction p as [a|e|R c k IH]; intros σ; [done..|]. cbn.
  intros [Hc Hk]. split; [done|]. intros r. by apply IH.
Qed.

Lemma traces_try_finally {A} (p : prog A) (f : prog unit) σ Φ :
  traces p σ
    (λ σ' r, traces f σ'
               (λ σ'' r', match r' with
                          | inr _ => Φ σ'' r
                          | inl e => Φ σ'' (inl e)
                          end)) →
  traces (try_finally p f) σ Φ.
Proof.
  revert σ. induction p as [a|e|R c k IH]; intros σ.
  - cbn. intros H. change (prog_bind (λ _, Ret a) f) with (f ≫= λ _, Ret a).
    apply traces_bind. revert H. apply traces_mono. by intros σ' [e|[]].
  - cbn. intros H.
    change (prog_bind (λ _, Throw e) f) with (f ≫= λ _, @Throw A e).
    apply traces_bind. revert H. apply traces_mono. by intros σ' [e'|[]].
  - cbn. intros [Hc Hk]. split; [done|]. intros r. by apply IH.
Qed.

Lemma traces_await {R} (c : call R) σ (Φ : ledger → exn + R → Prop) :
  order_call σ c →
  (∀ r, Φ (account σ (event_of c r)) r) →
  traces (await c) σ Φ.
Proof. intros Hc H. cbn. split; [done|]. intros [e|x]; apply H. Qed.

(** The first loop leaves the ledger as it is. *)
Lemma traces_price_loop lines acc σ :
  is_Some (open σ) →
  traces (price_loop lines acc) σ (λ σ' _, σ' = σ).
Proof.
  intros Hopen. revert acc. induction lines as [|item rest IH]; intros acc;
    [done|].
  cbn [price_loop]. apply traces_bind, traces_await; [done|].
  intros [e|[|[price stock] rows]]; cbn; try done.
  destruct (stock <? quantity item); [done|]. apply IH.
Qed.

(** The second loop, when it comes to its end, has added its lines to
    the open transaction. *)
Lemma traces_items_loop oid lines opened com :
  traces (items_loop oid lines) (mk_ledger (Some opened) com)
    (λ σ' r, match r with
             | inr _ => σ' = mk_ledger (Some (opened ++ lines)) com
             | inl _ => True
             end).
Proof.
  revert opened. induction lines as [|item rest IH]; intros opened.
  - cbn. by rewrite app_nil_r.
  - destruct item as [pid q]. cbn [items_loop product_id quantity].
    apply traces_bind, traces_await; [done|].
    intros [e|rows]; [done|]. cbn [event_of event_of_query account].
    apply traces_bind. destruct rows as [|price rows]; [done|]. cbn [first_row traces].
    apply traces_bind, traces_await; [done|].
    intros [e|[]]; [done|]. cbn [event_of event_of_query account].
    apply traces_bind, traces_await; [done|].
    intros [e|[]]; [done|]. cbn [event_of event_of_query account open committed].
    specialize (IH (opened ++ [mk_order_line pid q])). revert IH.
    apply traces_mono. intros σ' [e|[]]; [done|]. by rewrite <- app_assoc.
Qed.

(** The order's handler: a created order has committed its lines, each
    once, and left no transaction open. *)
Lemma traces_create_order req :
  traces (create_order req) (mk_ledger None []) (order_ledger req).
Proof.
  unfold create_order.
  destruct (not_string (customer_name req) || not_string (customer_email req)).
  { cbn. unfold order_ledger. cbn. lia. }
  destruct (items req) as [[|item rest]|] eqn:Hitems;
    [cbn; unfold order_ledger; cbn; lia| |cbn; unfold order_ledger; cbn; lia].
  remember (item :: rest) as lines eqn:Hl. clear Hl.
  apply traces_bind, traces_await; [done|].
  intros [e|[]]; [by intros []|]. cbn [event_of account].
  apply traces_try_finally, traces_try_catch. unfold order_transaction.
  assert (∀ e σ, traces
            (await client_rollback;;
             mret (respond 500 (error_body (error_message e)))) σ
            (λ σ' r, traces (await client_release) σ'
               (λ σ'' r', match r' with
                          | inr _ => order_ledger req σ'' r
                          | inl e => order_ledger req σ'' (inl e)
                          end))) as Hcatch.
  { intros e σ. apply traces_bind, traces_await; [done|].
    intros [e'|[]]; cbn; (split; [done|]); intros [e''|[]]; cbn;
      unfold order_ledger; cbn; try lia; tauto. }
  apply traces_bind, traces_await; [done|].
  intros [e|[]]; [apply Hcatch|]. cbn [event_of account open committed default].
  apply traces_bind.
  eapply traces_mono; [|apply traces_price_loop; by eexists].
  intros σ' [e|total] ->; [apply Hcatch|].
  apply traces_bind, traces_await; [done|].
  intros [e|rows]; [apply Hcatch|]. cbn [event_of event_of_query account].
  apply traces_bind. destruct rows as [|order rows]; [apply Hcatch|].
  cbn [first_row traces].
  apply traces_bind.
  eapply traces_mono; [|apply traces_items_loop].
  intros σ' [e|[]]; [intros _; apply Hcatch|]. intros ->.
  apply traces_bind, traces_await; [done|].
  intros [e|[]]; [apply Hcatch|]. cbn [event_of account open committed default].
  apply traces_bind, traces_await; [done|].
  intros [e|[]]; [apply Hcatch|]. cbn [event_of account].
  cbn. split; [done|]. intros [e|[]]; cbn; unfold order_ledger; cbn; [tauto|].
  intros _. by rewrite Hitems.
Qed.

Lemma ordered_quantity_app a b id :
  ordered_quantity (a ++ b) id = ordered_quantity a id + ordered_quantity b id.
Proof.
  induction a as [|l a IH]; [done|].
  change ((l :: a) ++ b) with (l :: (a ++ b)).
  rewrite !ordered_quantity_cons, IH. lia.
Qed.

Lemma stock_of_overlay W C id :
  stock_of (overlay W C) id
  = match products W !! id with
    | Some p => p_stock p
    | None => stock_of C id
    end.
Proof.
  unfold stock_of. cbn. rewrite lookup_union.
  by destruct (products W !! id), (products C !! id).
Qed.

Lemma stock_of_absent t id : id ∉ dom (products t) → stock_of t id = 0.
Proof. intros H%not_elem_of_dom. unfold stock_of. by rewrite H. Qed.

Lemma ledger_rows_products C C' txn txn' σ :
  products C' = products C →
  from_option products ∅ txn' = from_option products ∅ txn →
  is_Some txn' ↔ is_Some txn →
  ledger_rows C txn σ → ledger_rows C' txn' σ.
Proof.
  intros HC Htxn Hsome. destruct txn as [W|], txn' as [W'|]; cbn in *.
  - unfold stock_nonneg. setoid_rewrite stock_of_overlay.
    unfold stock_of. by rewrite HC, Htxn.
  - destruct Hsome as [_ H]. by destruct H.
  - destruct Hsome as [H _]. by destruct H.
  - done.
Qed.

(** What the statements of an order write: no product row, but for the
    decrement of a product that is there, which writes its row with a
    stock that has passed the CHECK. *)
Lemma order_query_cases {R} (q : sql R) now V s :
  order_query q →
  let res := exec_sql q now V s in
  let r : exn + R :=
    match sr_rows res with inl e => inl (DatabaseError e) | inr x => inr x end in
  (products (sr_writes res) = ∅ ∧ event_of_query q r = ev_other)
  ∨ (∃ qty id,
       event_of_query q r = ev_decrement (mk_order_line id qty)
       ∧ ((products V !! id = None ∧ products (sr_writes res) = ∅)
          ∨ (∃ p, products V !! id = Some p
                  ∧ 0 ≤ p_stock p - qty
                  ∧ products (sr_writes res)
                    = {[ id := with_stock p (p_stock p - qty) now ]}
                  ∧ row_to_lock q V = Some id))).
Proof.
  destruct q as [ |?|? ? ? ? ? ?|? ? ? ? ? ? ?|?|?|? ? ?|?|? ? ? ?|qty pid
                |? ?| ]; try done; intros _; cbn.
  - left. by repeat case_match.
  - left. by repeat case_match.
  - left. by repeat case_match.
  - left. by repeat case_match.
  - destruct (int4 qty && int4 pid); cbn; [|by left].
    destruct (products V !! pid) as [p|] eqn:Hp; cbn.
    + destruct (check_stock _) as [e|stock] eqn:Hcheck; cbn; [by left|].
      apply check_stock_ok in Hcheck as [-> Hpos].
      right. exists qty, pid. split; [done|]. right. by exists p.
    + right. exists qty, pid. split; [done|]. by left.
Qed.

Lemma ledgers_ok_sym C0 C txn1 σ1 txn2 σ2 :
  ledgers_ok C0 C txn1 σ1 txn2 σ2 → ledgers_ok C0 C txn2 σ2 txn1 σ1.
Proof.
  intros [H1 H2 Hap Hdom Hnn Hst]. split; try done.
  intros id Hid. rewrite (Hst id Hid). lia.
Qed.

Lemma client_query_ledgers {R} (q : sql R) now C0 C s W σ1 txn2 σ2 :
  order_query q →
  ledgers_ok C0 C (Some W) σ1 txn2 σ2 →
  match row_to_lock q (overlay W C) with
  | Some id => id ∉ txn_rows txn2
  | None => True
  end →
  let res := exec_sql q now (overlay W C) s in
  ledgers_ok C0 C (Some (overlay (sr_writes res) W))
    (account σ1
       (event_of_query q
          match sr_rows res with
          | inl e => inl (DatabaseError e)
          | inr x => inr x
          end))
    txn2 σ2.
Proof.
  intros Hq [H1 H2 Hap Hdom Hnn Hst] Hlock res.
  destruct H1 as ((lines & Hopen & Hstock) & Hsub & Hwnn).
  destruct (order_query_cases q now (overlay W C) s Hq)
    as [[Hw Hev]|(qty & id & Hev & [[Hnone Hw]|(p & Hp & Hpos & Hw & Hl)])];
    fold res in Hw, Hev; rewrite Hev; clear Hev.
  - assert (products (overlay (sr_writes res) W) = products W) as Heq
      by (cbn; rewrite Hw; apply (left_id_L ∅ (∪))).
    split; try done.
    + apply (ledger_rows_products C C (Some W)); [done|done|done|].
      cbn. eauto 10.
    + cbn [txn_rows]. by rewrite Heq.
  - assert (products (overlay (sr_writes res) W) = products W) as Heq
      by (cbn; rewrite Hw; apply (left_id_L ∅ (∪))).
    cbn [account]. rewrite Hopen.
    split; try done.
    + cbn [ledger_rows]. split_and!.
      * eexists. split; [done|]. intros id' Hid'.
        rewrite stock_of_overlay, Heq, <- stock_of_overlay, (Hstock id' Hid').
        rewrite ordered_quantity_app, ordered_quantity_cons.
        change (ordered_quantity [] id') with 0.
        rewrite decide_False; [lia|]. cbn. intros ->.
        apply elem_of_dom in Hid' as [p' Hp'].
        cbn in Hnone. apply lookup_union_None in Hnone as [_ Hnone]. congruence.
      * by rewrite Heq.
      * unfold stock_nonneg. by rewrite Heq.
    + cbn [txn_rows]. by rewrite Heq.
  - rewrite Hl in Hlock.
    assert (products (overlay (sr_writes res) W)
            = <[ id := with_stock p (p_stock p - qty) now ]> (products W)) as Heq
      by (cbn; rewrite Hw; symmetry; apply insert_union_singleton_l).
    assert (id ∈ dom (products C)) as Hid.
    { cbn in Hp. apply lookup_union_Some_raw in Hp as [Hp|[_ Hp]].
      - apply Hsub. by apply elem_of_dom.
      - by apply elem_of_dom. }
    cbn [account]. rewrite Hopen.
    split; try done.
    + cbn [ledger_rows]. split_and!.
      * eexists. split; [done|]. intros id' Hid'.
        rewrite stock_of_overlay, Heq, lookup_insert.
        rewrite ordered_quantity_app, ordered_quantity_cons.
        change (ordered_quantity [] id') with 0. cbn [product_id quantity].
        destruct (decide (id = id')) as [<-|E].
        -- cbn. specialize (Hstock id Hid).
           unfold stock_of at 1 in Hstock. rewrite Hp in Hstock. lia.
        -- rewrite <- stock_of_overlay, (Hstock id' Hid'). lia.
      * rewrite Heq, dom_insert_L.
        intros x [->%elem_of_singleton|Hx]%elem_of_union; [done|by apply Hsub].
      * unfold stock_nonneg. rewrite Heq. apply map_Forall_insert_2; [|done].
        done.
    + cbn [txn_rows]. rewrite Heq, dom_insert_L.
      intros x [->%elem_of_singleton|Hx]%elem_of_union Hx2; [done|].
      by apply (Hap x).
Qed.

Lemma commit_ledgers C0 C W σ1 txn2 σ2 :
  ledgers_ok C0 C (Some W) σ1 txn2 σ2 →
  ledgers_ok C0 (overlay W C) None (account σ1 ev_commit) txn2 σ2.
Proof.
  intros [H1 H2 Hap Hdom0 Hnn Hst].
  destruct H1 as ((lines & Hopen & Hstock) & Hsub & Hwnn).
  assert (dom (products (overlay W C)) = dom (products C)) as Hdom'.
  { cbn. rewrite dom_union_L. apply (anti_symm (⊆)).
    - intros x [Hx|Hx]%elem_of_union; [by apply Hsub|done].
    - intros x Hx. apply elem_of_union. by right. }
  cbn [account]. rewrite Hopen. cbn.
  split; cbn [committed].
  - done.
  - destruct txn2 as [W2|]; [|done].
    destruct H2 as ((lines2 & Hopen2 & Hstock2) & Hsub2 & Hnn2).
    cbn [ledger_rows]. split_and!; [|by rewrite Hdom'|done].
    exists lines2. split; [done|]. intros id Hid. rewrite Hdom' in Hid.
    specialize (Hstock2 id Hid). rewrite stock_of_overlay in Hstock2.
    rewrite !(stock_of_overlay _ (overlay W C)).
    destruct (products W2 !! id) as [p2|] eqn:Hp2.
    + rewrite Hstock2. f_equal. rewrite stock_of_overlay.
      destruct (products W !! id) as [p|] eqn:Hp; [|done].
      exfalso. apply (Hap id); cbn; by apply elem_of_dom.
    + lia.
  - done.
  - by rewrite Hdom'.
  - by apply stock_nonneg_overlay.
  - intros id Hid. rewrite ordered_quantity_app, (Hstock id), (Hst id Hid).
    + lia.
    + by rewrite Hdom0.
Qed.

Lemma event_of_query_inl {R} (q : sql R) e : event_of_query q (inl e) = ev_other.
Proof. by destruct q. Qed.

Lemma ledgers_ok_world C0 C C' txn1 σ1 txn2 σ2 :
  C' = C → ledgers_ok C0 C txn1 σ1 txn2 σ2 → ledgers_ok C0 C' txn1 σ1 txn2 σ2.
Proof. by intros ->. Qed.

(** A call of an order, made when it need not wait, keeps the ledgers
    and the rows together. *)
Lemma exec_call_ledgers {R} (c : call R) fault now C0 txn1 σ1 txn2 σ2 w :
  order_call σ1 c →
  ledgers_ok C0 (w_tables w) txn1 σ1 txn2 σ2 →
  negb fault && waits c txn1 w (txn_rows txn2) = false →
  ledgers_ok C0 (w_tables (exec_call c fault now txn1 w).2)
    (exec_call c fault now txn1 w).1.2
    (account σ1 (event_of c (exec_call c fault now txn1 w).1.1))
    txn2 σ2.
Proof.
  intros Hc Hok Hwait. destruct c; cbn in Hc; try done.
  - (* del *) by destruct fault.
  - (* connect *) by destruct fault.
  - (* a statement *)
    destruct Hc as [Hq [lines Hopen]]. destruct fault; cbn.
    { by rewrite event_of_query_inl. }
    destruct txn1 as [W|].
    2: { destruct Hok as [H1 _]. cbn in H1. congruence. }
    cbn in Hwait. cbn -[overlay].
    apply client_query_ledgers; [done|done|].
    destruct (row_to_lock q _); [|done].
    by apply bool_decide_eq_false in Hwait.
  - (* BEGIN *)
    cbn. destruct txn1 as [W|].
    + destruct Hok as [H1 H2 Hap Hdom0 Hnn Hst].
      destruct H1 as ((lines & Hopen & Hstock) & Hsub & Hwnn).
      split; try done. cbn. rewrite Hopen. cbn. eauto 10.
    + destruct Hok as [H1 H2 Hap Hdom0 Hnn Hst]. cbn in H1.
      split; try done; cbn.
      rewrite H1. cbn. split_and!.
      * exists []. split; [done|]. intros id _.
        rewrite overlay_no_rows. cbn. lia.
      * by intros x Hx%elem_of_empty.
      * apply stock_nonneg_no_rows.
  - (* COMMIT *)
    cbn. destruct txn1 as [W|].
    + cbn. by apply commit_ledgers.
    + destruct Hok as [H1 H2 Hap Hdom0 Hnn Hst]. cbn in H1.
      split; try done; cbn; rewrite H1; cbn; rewrite ?app_nil_r; done.
  - (* ROLLBACK *)
    cbn. destruct Hok as [H1 H2 Hap Hdom0 Hnn Hst].
    split; try done; try (cbn; by intros x Hx%elem_of_empty).
Qed.

Lemma step_orders_ok C0 req1 req2 i fault now sys sys' :
  orders_ok C0 req1 req2 sys →
  step i fault now sys = Some sys' →
  orders_ok C0 req1 req2 sys'.
Proof.
  intros (p1 & txn1 & p2 & txn2 & σ1 & σ2 & Hss & Ht1 & Ht2 & Hok).
  unfold step. rewrite Hss.
  destruct i as [|[|i]]; cbn [lookup list_lookup]; [| |done].
  - destruct p1 as [a|e|R c k]; [done..|].
    assert (locked_by_others 0 [mk_session (Call c k) txn1; mk_session p2 txn2]
            = txn_rows txn2) as ->.
    { unfold locked_by_others, locked_rows, txn_rows. cbn.
      repeat case_decide; try done.
      by rewrite (left_id_L ∅ (∪)), (right_id_L ∅ (∪)). }
    destruct (negb fault && waits c txn1 _ _) eqn:Hwait; [done|].
    destruct Ht1 as [Hc Hk].
    pose proof (exec_call_ledgers c fault now C0 txn1 σ1 txn2 σ2
                  (sys_world sys) Hc Hok Hwait) as Hok'.
    destruct (exec_call c fault now txn1 (sys_world sys)) as [[r txn1'] w'].
    intros [= <-]. cbn in *.
    exists (k r), txn1', p2, txn2, (account σ1 (event_of c r)), σ2.
    split_and!; done.
  - destruct p2 as [a|e|R c k]; [done..|].
    assert (locked_by_others 1 [mk_session p1 txn1; mk_session (Call c k) txn2]
            = txn_rows txn1) as ->.
    { unfold locked_by_others, locked_rows, txn_rows. cbn.
      repeat case_decide; try done.
      by rewrite !(right_id_L ∅ (∪)). }
    destruct (negb fault && waits c txn2 _ _) eqn:Hwait; [done|].
    destruct Ht2 as [Hc Hk]. apply ledgers_ok_sym in Hok.
    pose proof (exec_call_ledgers c fault now C0 txn2 σ2 txn1 σ1
                  (sys_world sys) Hc Hok Hwait) as Hok'.
    destruct (exec_call c fault now txn2 (sys_world sys)) as [[r txn2'] w'].
    intros [= <-]. cbn in *.
    exists p1, txn1, (k r), txn2', σ1, (account σ2 (event_of c r)).
    split_and!; try done. by apply ledgers_ok_sym.
Qed.

Lemma interleave_orders_ok C0 req1 req2 schedule sys sys' :
  orders_ok C0 req1 req2 sys →
  interleave schedule sys = Some sys' →
  orders_ok C0 req1 req2 sys'.
Proof.
  revert sys. induction schedule as [|[[i fault] now] rest IH]; intros sys Hok.
  - by intros [= <-].
  - cbn. destruct (step i fault now sys) as [sys1|] eqn:Hstep; [|done].
    apply IH. by eapply step_orders_ok.
Qed.

Lemma start_orders_ok req1 req2 w :
  stock_nonneg (w_tables w) →
  orders_ok (w_tables w) req1 req2
    (start [POST_orders req1; POST_orders req2] w).
Proof.
  intros Hnn. eexists _, _, _, _, (mk_ledger None []), (mk_ledger None []).
  split; [reflexivity|]. split_and!; [apply traces_create_order..|].
  split; try done. cbn. intros id _. unfold ordered_quantity. cbn. lia.
Qed.

(** C2, amended.  Of two orders in flight together, whatever the order
    of their calls and whichever calls fail: when both are created, the
    quantities the two order of any product are together within the stock
    the product had, and its stock afterwards is that stock less both
    quantities.  So when the two quantities together exceed the stock of
    a product, at most one of the two orders is created. *)
Theorem concurrent_orders_never_oversell w req1 req2 schedule sys out1 out2 :
  stock_nonneg (w_tables w) →
  interleave schedule (start [POST_orders req1; POST_orders req2] w)
  = Some sys →
  answer sys 0 = Some out1 →
  answer sys 1 = Some out2 →
  (created out1 → created out2 →
   ∃ lines1 lines2,
     items req1 = Some lines1 ∧ items req2 = Some lines2
     ∧ ∀ id p, products (w_tables w) !! id = Some p →
               ordered_quantity lines1 id + ordered_quantity lines2 id
               ≤ p_stock p
               ∧ stock_of (w_tables (sys_world sys)) id
                 = p_stock p - ordered_quantity lines1 id
                   - ordered_quantity lines2 id)
  ∧ (∀ lines1 lines2 id p,
       items req1 = Some lines1 → items req2 = Some lines2 →
       products (w_tables w) !! id = Some p →
       p_stock p < ordered_quantity lines1 id + ordered_quantity lines2 id →
       ¬ (created out1 ∧ created out2)).
Proof.
  intros Hnn Hrun Ha1 Ha2.
  pose proof (interleave_orders_ok _ _ _ _ _ _ (start_orders_ok req1 req2 w Hnn)
                Hrun)
    as (p1 & txn1 & p2 & txn2 & σ1 & σ2 & Hss & Ht1 & Ht2 & Hok).
  assert (created out1 → created out2 →
          ∃ lines1 lines2,
            items req1 = Some lines1 ∧ items req2 = Some lines2
            ∧ ∀ id p, products (w_tables w) !! id = Some p →
                      ordered_quantity lines1 id + ordered_quantity lines2 id
                      ≤ p_stock p
                      ∧ stock_of (w_tables (sys_world sys)) id
                        = p_stock p - ordered_quantity lines1 id
                          - ordered_quantity lines2 id) as Hboth.
  { intros Hc1 Hc2. unfold answer in Ha1, Ha2. rewrite Hss in Ha1, Ha2.
    cbn in Ha1, Ha2.
    assert (order_ledger req1 σ1 out1) as H1
      by (destruct p1; [| |done]; injection Ha1 as <-; exact Ht1).
    assert (order_ledger req2 σ2 out2) as H2
      by (destruct p2; [| |done]; injection Ha2 as <-; exact Ht2).
    destruct (H1 Hc1) as [_ Hi1]. destruct (H2 Hc2) as [_ Hi2].
    exists (committed σ1), (committed σ2). split_and!; [done..|].
    intros id p Hp. destruct Hok as [_ _ _ Hdom Hnn' Hst].
    assert (id ∈ dom (products (w_tables w))) as Hid
      by (apply elem_of_dom; eauto).
    specialize (Hst id Hid). unfold stock_of at 2 in Hst. rewrite Hp in Hst.
    split; [|done].
    rewrite <- Hdom in Hid. apply elem_of_dom in Hid as [p' Hp'].
    pose proof (Hnn' id p' Hp') as Hpos. cbn in Hpos.
    unfold stock_of in Hst. rewrite Hp' in Hst. lia. }
  split; [done|].
  intros lines1 lines2 id p Hi1 Hi2 Hp Hlt [Hc1 Hc2].
  destruct (Hboth Hc1 Hc2) as (l1 & l2 & Hl1 & Hl2 & H).
  rewrite Hi1 in Hl1. rewrite Hi2 in Hl2.
  injection Hl1 as <-. injection Hl2 as <-.
  destruct (H id p Hp) as [Hle _]. lia.
Qed.

(** C2, as stated, fails: the reads of the stock are not serialized.
    Both sessions read the stock 5 of product A and pass the check for
    their 3 units before either has written; the first order is created;
    the decrement of the second is then refused by CHECK (stock >= 0),
    when, had the second order run after the first, its own check would
    have refused it. *)
Lemma create_order_reads_not_serialized :
  match interleave (turns 0 3 100 ++ turns 1 3 101) two_orders with
  | Some sys =>
      at_insert_order sys 0 = true ∧ at_insert_order sys 1 = true
      ∧ stock_of (w_tables (sys_world sys)) 1 = 5
  | None => False
  end
  ∧ match interleave (reads_first 6) two_orders with
    | Some sys =>
        answer sys 0
        = Some (inr (respond 201
                       (message_data "Order created successfully"
                          (json_order
                             (mk_order 1 "Alice Williams"
                                "alice.williams@example.com" 3000 "pending"
                                102 102)))))
        ∧ answer sys 1
          = Some (inr (respond 500
                         (error_body
                            (error_message
                               (DatabaseError
                                  (check_violation "products_stock_check"))))))
        ∧ stock_of (w_tables (sys_world sys)) 1 = 2
    | None => False
    end
  ∧ (serve (POST_orders (order_of [mk_order_line 1 3])) [] 103
       (serve (POST_orders (order_of [mk_order_line 1 3])) [] 102 shop).2).1
    = inr (respond 500 (error_body (error_message (InsufficientStock 1)))).
Proof.
  split; [|split]; vm_compute; done.
Qed.

Lemma concurrent_orders_never_oversell_witness :
  ∃ sys out1 out2,
    interleave (reads_first 7) two_orders_within_stock = Some sys
    ∧ answer sys 0 = Some out1
    ∧ answer sys 1 = Some out2
    ∧ created out1 ∧ created out2
    ∧ stock_of (w_tables (sys_world sys)) 1 = 0.
Proof.
  set (sys := default two_orders_within_stock
                (interleave (reads_first 7) two_orders_within_stock)).
  assert (interleave (reads_first 7) two_orders_within_stock = Some sys)
    as Hrun by (vm_compute; reflexivity).
  set (o1 := mk_order 1 "Alice Williams" "alice.williams@example.com" 3000
               "pending" 102 102).
  set (o2 := mk_order 2 "Alice Williams" "alice.williams@example.com" 2000
               "pending" 103 103).
  set (out1 := inr (respond 201 (message_data "Order created successfully"
                                   (json_order o1))) : exn + response).
  set (out2 := inr (respond 201 (message_data "Order created successfully"
                                   (json_order o2))) : exn + response).
  assert (answer sys 0 = Some out1) as Ha1 by (vm_compute; reflexivity).
  assert (answer sys 1 = Some out2) as Ha2 by (vm_compute; reflexivity).
  assert (stock_nonneg (w_tables shop)) as Hnn.
  { unfold stock_nonneg. apply (bool_decide_unpack _). by vm_compute. }
  destruct (concurrent_orders_never_oversell shop _ _ _ sys out1 out2
              Hnn Hrun Ha1 Ha2) as [Hboth _].
  destruct (Hboth eq_refl eq_refl) as (l1 & l2 & Hl1 & Hl2 & H).
  injection Hl1 as <-. injection Hl2 as <-.
  exists sys, out1, out2. split_and!; [done..|].
  by destruct (H 1 product_A eq_refl) as [_ ->].
Defined.

(** C6, as stated, fails in two ways.  Served one after the other: GET
    /api/products/01 caches product A under product:01; PUT
    /api/products/1 sets the price to 15.00, removes products:all and
    product:1 and answers 200; GET /api/products/01 is then answered
    from the cache with the price of before the update.  And with a read
    in flight during the update: GET /api/products/1 misses the cache
    and reads the row at price 10.00; PUT /api/products/1 sets the price
    to 15.00, removes both keys and answers 200; the read then caches
    the row it had read, and a GET /api/products/1 made after all that
    is answered from the cache with the price of before the update. *)
Lemma get_product_stale_after_update :
  let f := mk_product_fields None None (Some 1500) None None None in
  let updated :=
    respond 200
      (message_data "Product updated successfully"
         (json_product product_A_repriced)) in
  let stale :=
    respond 200 (source_data "cache" (json_product product_A)) in
  (let w1 := (serve (GET_product route_01) [] 100 shop).2 in
   let put := serve (PUT_product (route 1) f) [] 101 w1 in
   put.1 = inr updated
   ∧ products (w_tables put.2) !! 1 = Some product_A_repriced
   ∧ (serve (GET_product route_01) [] 102 put.2).1 = inr stale)
  ∧ match interleave update_within_read read_and_update with
    | Some sys =>
        answer sys 1 = Some (inr updated)
        ∧ products (w_tables (sys_world sys)) !! 1 = Some product_A_repriced
        ∧ (serve (GET_product (route 1)) [] 110 (sys_world sys)).1 = inr stale
    | None => False
    end.
Proof.
  vm_compute. done.
Qed.


(** ** What the requests keep of the rows *)

Lemma run_invariant {A} (I : option tables → world → Prop) :
  (∀ R (c : call R) fault now txn w,
     I txn w →
     I (exec_call c fault now txn w).1.2 (exec_call c fault now txn w).2) →
  ∀ (p : prog A) now st,
    I (st_txn st) (st_world st) →
    I (st_txn (run p now st).2) (st_world (run p now st).2).
Proof.
  intros Hstep p now. induction p as [a|e|R c k IH]; intros st HI; [done..|].
  cbn. specialize (Hstep R c (hd false (st_faults st)) now _ _ HI).
  destruct (exec_call c _ now _ _) as [[r txn] w]. by apply IH.
Qed.

Lemma rows_kept_refl t : rows_kept t t.
Proof. split; eauto 10. Qed.

Lemma rows_kept_trans a b c : rows_kept a b → rows_kept b c → rows_kept a c.
Proof.
  intros [Hp Ho Hi] [Hp' Ho' Hi']. split.
  - intros id p H. destruct (Hp id p H) as (p1 & Hl1 & ? & ? & ?).
    destruct (Hp' id p1 Hl1) as (p2 & Hl2 & ? & ? & ?).
    exists p2. split_and!; [done|congruence..|auto].
  - intros id o H. destruct (Ho id o H) as (o1 & Hl1 & ? & ? & ? & ? & ?).
    destruct (Ho' id o1 Hl1) as (o2 & Hl2 & ? & ? & ? & ? & ?).
    exists o2. split_and!; [done|congruence..].
  - auto.
Qed.

(** A row the transaction has written hides the committed one. *)
Lemma rows_kept_under C0 W C C' :
  rows_kept C0 (overlay W C) → rows_kept C0 C' → rows_kept C0 (overlay W C').
Proof.
  intros [Hp Ho Hi] [Hp' Ho' Hi']. split; cbn in *.
  - intros id p H. specialize (Hp id p H). specialize (Hp' id p H).
    destruct (products W !! id) as [x|] eqn:HW.
    + rewrite (lookup_union_Some_l _ (products C) _ x) in Hp by done.
      by rewrite (lookup_union_Some_l _ (products C') _ x).
    + by rewrite lookup_union_r.
  - intros id o H. specialize (Ho id o H). specialize (Ho' id o H).
    destruct (orders W !! id) as [x|] eqn:HW.
    + rewrite (lookup_union_Some_l _ (orders C) _ x) in Ho by done.
      by rewrite (lookup_union_Some_l _ (orders C') _ x).
    + by rewrite lookup_union_r.
  - intros id i H. specialize (Hi id i H). specialize (Hi' id i H).
    destruct (order_items W !! id) as [x|] eqn:HW.
    + rewrite (lookup_union_Some_l _ (order_items C) _ x) in Hi by done.
      by rewrite (lookup_union_Some_l _ (order_items C') _ x).
    + by rewrite lookup_union_r.
Qed.

Lemma check_product_inr p p' :
  check_product p = inr p' →
  varchar 255 (p_name p) = Some (p_name p')
  ∧ varchar 100 (p_category p) = Some (p_category p')
  ∧ p' = mk_product (p_id p) (p_name p') (p_description p) (p_price p)
           (p_category p') (p_stock p) (p_image_url p) (p_is_active p)
           (p_created_at p) (p_updated_at p)
  ∧ 0 ≤ p_price p ∧ numeric_10_2 (p_price p) = true
  ∧ 0 ≤ p_stock p ∧ int4 (p_stock p) = true.
Proof.
  unfold check_product.
  destruct (varchar 255 (p_name p)) as [name|]; [|done].
  destruct (varchar 100 (p_category p)) as [category|]; [|done].
  destruct (numeric_10_2 (p_price p)); [|done].
  destruct (int4 (p_stock p)); [|done]. cbn.
  destruct (p_price p <? 0) eqn:Hprice; [done|].
  destruct (p_stock p <? 0) eqn:Hstock; [done|].
  intros [= <-]. cbn. split_and!; try done; lia.
Qed.

Lemma rows_kept_write_product v id p' :
  (∀ p, products v !! id = Some p →
        p_id p' = p_id p ∧ p_created_at p' = p_created_at p
        ∧ (p_is_active p = false → p_is_active p' = false)) →
  rows_kept v (overlay (write_product id p') v).
Proof.
  intros H. split; cbn.
  - intros id' p Hp. rewrite <- insert_union_singleton_l.
    destruct (decide (id' = id)) as [->|Hne].
    + rewrite lookup_insert_eq. exists p'. split; [done|]. by apply H.
    + rewrite lookup_insert_ne by done. eauto 10.
  - intros id' o Ho. rewrite (left_id_L ∅ (∪)). eauto 10.
  - intros id' i Hi. by rewrite (left_id_L ∅ (∪)).
Qed.

Lemma rows_kept_write_order v id o' :
  (∀ o, orders v !! id = Some o →
        o_id o' = o_id o ∧ o_customer_name o' = o_customer_name o
        ∧ o_customer_email o' = o_customer_email o
        ∧ o_total_amount o' = o_total_amount o
        ∧ o_created_at o' = o_created_at o) →
  rows_kept v (overlay (write_order id o') v).
Proof.
  intros H. split; cbn.
  - intros id' p Hp. rewrite (left_id_L ∅ (∪)). eauto 10.
  - intros id' o Ho. rewrite <- insert_union_singleton_l.
    destruct (decide (id' = id)) as [->|Hne].
    + rewrite lookup_insert_eq. exists o'. split; [done|]. by apply H.
    + rewrite lookup_insert_ne by done. eauto 10.
  - intros id' i Hi. by rewrite (left_id_L ∅ (∪)).
Qed.

Lemma rows_kept_write_order_item v id i' :
  order_items v !! id = None →
  rows_kept v (overlay (write_order_item id i') v).
Proof.
  intros H. split; cbn.
  - intros id' p Hp. rewrite (left_id_L ∅ (∪)). eauto 10.
  - intros id' o Ho. rewrite (left_id_L ∅ (∪)). eauto 10.
  - intros id' i Hi. rewrite <- insert_union_singleton_l.
    rewrite lookup_insert_ne; [done|]. congruence.
Qed.

Lemma exec_sql_rows_kept {R} (q : sql R) now v s :
  rows_kept v (overlay (sr_writes (exec_sql q now v s)) v).
Proof.
  destruct q; cbn; unfold sql_fail, sql_read;
    repeat (case_match; cbn);
    try (rewrite overlay_no_rows; apply rows_kept_refl).
  - apply rows_kept_write_product. congruence.
  - apply rows_kept_write_product. intros pv Hpv.
    match goal with H : updated_product _ _ _ _ _ _ _ _ = inr _ |- _ =>
      apply check_product_inr in H as (_ & _ & -> & _) end.
    cbn. split_and!; congruence.
  - apply rows_kept_write_product. intros pv Hpv. cbn. split_and!; congruence.
  - apply rows_kept_write_order. congruence.
  - apply rows_kept_write_order_item. congruence.
  - apply rows_kept_write_product. intros pv Hpv. cbn. split_and!; congruence.
  - apply rows_kept_write_order. intros ov Hov.
    match goal with H : with_status _ _ _ = inr _ |- _ =>
      unfold with_status in H; repeat case_match; try done;
      injection H as <- end.
    cbn. split_and!; congruence.
Qed.

Lemma exec_call_rows_kept {R} (c : call R) fault now C0 txn w :
  through_txn (rows_kept C0) txn w →
  through_txn (rows_kept C0) (exec_call c fault now txn w).1.2
    (exec_call c fault now txn w).2.
Proof.
  intros [HC HW]. destruct w as [[C s] cache]. unfold w_tables in *.
  cbn in HC, HW.
  assert (∀ R (q : sql R),
            rows_kept C0 (overlay (sr_writes (exec_sql q now C s)) C)) as Hauto
    by (intros; eapply rows_kept_trans; [done|apply exec_sql_rows_kept]).
  destruct c; cbn; try (destruct fault; by split).
  - (* pool.query *)
    destruct fault; [by split|]. cbn. split; [apply Hauto|].
    intros W ->. eapply rows_kept_under; [by apply HW|apply Hauto].
  - (* client.query *)
    destruct fault; [by split|]. destruct txn as [W|]; cbn.
    + split; [done|]. intros ? [= <-]. rewrite <- overlay_assoc.
      eapply rows_kept_trans; [by apply HW|apply exec_sql_rows_kept].
    + split; [apply Hauto|done].
  - (* BEGIN *)
    split; [done|]. destruct txn as [W|]; [done|].
    intros ? [= <-]. by rewrite overlay_no_rows.
  - (* COMMIT *)
    destruct txn as [W|]; cbn; (split; [|done]); [by apply HW|done].
Qed.

Lemma serve_rows_kept C0 r faults now w :
  rows_kept C0 (w_tables w) → rows_kept C0 (w_tables (serve r faults now w).2).
Proof.
  intros H. unfold serve.
  pose proof (run_invariant (through_txn (rows_kept C0))
                (λ R c fault now txn w, exec_call_rows_kept c fault now C0 txn w)
                (handler r) now (mk_state faults None w)) as Hrun.
  destruct (run (handler r) now _) as [out st]. cbn in *.
  apply Hrun. by split.
Qed.

(** X1.  No request removes a row, whichever of its calls fail: after any
    sequence of requests every product, order and order line is still
    stored; an order line is as it was; an order has its customer, amount
    and time of creation; a product has its id and time of creation, and
    a deleted product is still deleted. *)
Theorem requests_keep_rows rs w :
  rows_kept (w_tables w) (w_tables (serve_all rs w)).
Proof.
  assert (∀ C0 w, rows_kept C0 (w_tables w) →
                  rows_kept C0 (w_tables (serve_all rs w))) as H.
  { intros C0. induction rs as [|[[r faults] now] rs IH]; intros w' Hw; [done|].
    cbn. apply IH. by apply serve_rows_kept. }
  apply H, rows_kept_refl.
Qed.

Lemma constraints_ok_write_product v id p' :
  constraints_ok v → p_id p' = id → 0 ≤ p_price p' →
  constraints_ok (overlay (write_product id p') v).
Proof.
  intros [Hp Ho Hi] Hid Hprice. split; cbn.
  - intros id' p. rewrite <- insert_union_singleton_l.
    destruct (decide (id' = id)) as [->|Hne].
    + rewrite lookup_insert_eq. by intros [= <-].
    + rewrite lookup_insert_ne by done. apply Hp.
  - intros id' o. rewrite (left_id_L ∅ (∪)). apply Ho.
  - intros id' i. rewrite !(left_id_L ∅ (∪)). intros H.
    destruct (Hi id' i H) as (? & ? & ? & ? & Hfk). split_and!; [done..|].
    apply lookup_union_is_Some. by right.
Qed.

Lemma constraints_ok_write_order v id o' :
  constraints_ok v → o_id o' = id → 0 ≤ o_total_amount o' →
  o_status o' ∈ valid_statuses →
  constraints_ok (overlay (write_order id o') v).
Proof.
  intros [Hp Ho Hi] Hid Htotal Hstatus. split; cbn.
  - intros id' p. rewrite (left_id_L ∅ (∪)). apply Hp.
  - intros id' o. rewrite <- insert_union_singleton_l.
    destruct (decide (id' = id)) as [->|Hne].
    + rewrite lookup_insert_eq. by intros [= <-].
    + rewrite lookup_insert_ne by done. apply Ho.
  - intros id' i. rewrite !(left_id_L ∅ (∪)). intros H.
    destruct (Hi id' i H) as (? & ? & ? & Hfk & ?). split_and!; [done..| |done].
    apply lookup_union_is_Some. by right.
Qed.

Lemma constraints_ok_write_order_item v id i' :
  constraints_ok v → oi_id i' = id → 0 < oi_quantity i' → 0 ≤ oi_price i' →
  is_Some (orders v !! oi_order_id i') →
  is_Some (products v !! oi_product_id i') →
  constraints_ok (overlay (write_order_item id i') v).
Proof.
  intros [Hp Ho Hi] Hid Hq Hprice Hfo Hfp. split; cbn.
  - intros id' p. rewrite (left_id_L ∅ (∪)). apply Hp.
  - intros id' o. rewrite (left_id_L ∅ (∪)). apply Ho.
  - intros id' i. rewrite !(left_id_L ∅ (∪)), <- insert_union_singleton_l.
    destruct (decide (id' = id)) as [->|Hne].
    + rewrite lookup_insert_eq. by intros [= <-].
    + rewrite lookup_insert_ne by done. apply Hi.
Qed.

Lemma new_order_item_inr v id order_id product_id quantity price now i :
  new_order_item v id order_id product_id quantity price now = inr i →
  i = mk_order_item id order_id product_id quantity price now
  ∧ 0 < quantity ∧ 0 ≤ price
  ∧ is_Some (orders v !! order_id) ∧ is_Some (products v !! product_id).
Proof.
  unfold new_order_item. repeat case_match; try done. intros [= <-].
  split_and!; [done|lia|lia|by eexists..].
Qed.

Lemma new_order_inr id name email total now o :
  new_order id name email total now = inr o →
  o_id o = id ∧ 0 ≤ o_total_amount o ∧ o_total_amount o = total
  ∧ o_status o = "pending" ∧ o_created_at o = now ∧ o_updated_at o = now.
Proof.
  unfold new_order. repeat case_match; try done. intros [= <-]. cbn.
  split_and!; [done|lia|done..].
Qed.

Lemma with_status_inr o status now o' :
  with_status o status now = inr o' →
  o' = mk_order (o_id o) (o_customer_name o) (o_customer_email o)
         (o_total_amount o) (o_status o') (o_created_at o) now
  ∧ varchar 50 status = Some (o_status o')
  ∧ o_status o' ∈ valid_statuses.
Proof.
  unfold with_status. destruct (varchar 50 status) as [status'|]; [|done].
  case_bool_decide; [|done]. by intros [= <-].
Qed.

Lemma exec_sql_constraints_ok {R} (q : sql R) now v s :
  constraints_ok v →
  constraints_ok (overlay (sr_writes (exec_sql q now v s)) v).
Proof.
  intros Hv. destruct q; cbn; unfold sql_fail, sql_read;
    repeat (case_match; cbn);
    try (by rewrite overlay_no_rows).
  - (* INSERT INTO products *)
    match goal with H : new_product _ _ _ _ _ _ _ _ = inr _ |- _ =>
      unfold new_product in H; repeat case_match; try done;
      apply check_product_inr in H as (_ & _ & -> & ? & _) end.
    by apply constraints_ok_write_product.
  - (* UPDATE products SET ... COALESCE *)
    match goal with H : updated_product _ _ _ _ _ _ _ _ = inr _ |- _ =>
      apply check_product_inr in H as (_ & _ & -> & ? & _) end.
    apply constraints_ok_write_product; [done| |done].
    cbn. by eapply ck_products.
  - (* UPDATE products SET is_active = false *)
    apply constraints_ok_write_product; [done|cbn..]; by eapply ck_products.
  - (* INSERT INTO orders *)
    match goal with H : new_order _ _ _ _ _ = inr _ |- _ =>
      apply new_order_inr in H as (? & ? & _ & Hst & _) end.
    apply constraints_ok_write_order; [done..|]. rewrite Hst.
    by apply (bool_decide_unpack _).
  - (* INSERT INTO order_items *)
    match goal with H : new_order_item _ _ _ _ _ _ _ = inr _ |- _ =>
      apply new_order_item_inr in H as (-> & ? & ? & ? & ?) end.
    by apply constraints_ok_write_order_item.
  - (* UPDATE products SET stock = stock - $1 *)
    apply constraints_ok_write_product; [done|cbn..]; by eapply ck_products.
  - (* UPDATE orders SET status *)
    match goal with H : with_status _ _ _ = inr _ |- _ =>
      apply with_status_inr in H as (-> & _ & ?) end.
    apply constraints_ok_write_order; [done|cbn..|done]; by eapply ck_orders.
Qed.

Lemma constraints_ok_under W C C' :
  constraints_ok (overlay W C) → constraints_ok C' → rows_kept C C' →
  constraints_ok (overlay W C').
Proof.
  intros [Hp Ho Hi] [Hp' Ho' Hi'] [Kp Ko _]. cbn in *.
  assert (∀ id, is_Some ((products W ∪ products C) !! id) →
                is_Some ((products W ∪ products C') !! id)) as Hfp.
  { intros id. rewrite !lookup_union_is_Some. intros [?|[p Hl]]; [by left|].
    right. destruct (Kp id p Hl) as (? & ? & _). by eexists. }
  assert (∀ id, is_Some ((orders W ∪ orders C) !! id) →
                is_Some ((orders W ∪ orders C') !! id)) as Hfo.
  { intros id. rewrite !lookup_union_is_Some. intros [?|[o Hl]]; [by left|].
    right. destruct (Ko id o Hl) as (? & ? & _). by eexists. }
  split; cbn.
  - intros id p. destruct (products W !! id) as [x|] eqn:HW.
    + rewrite (lookup_union_Some_l _ (products C') _ x) by done.
      intros [= <-]. apply Hp. by apply lookup_union_Some_l.
    + rewrite lookup_union_r by done. apply Hp'.
  - intros id o. destruct (orders W !! id) as [x|] eqn:HW.
    + rewrite (lookup_union_Some_l _ (orders C') _ x) by done.
      intros [= <-]. apply Ho. by apply lookup_union_Some_l.
    + rewrite lookup_union_r by done. apply Ho'.
  - intros id i. destruct (order_items W !! id) as [x|] eqn:HW.
    + rewrite (lookup_union_Some_l _ (order_items C') _ x) by done.
      intros [= <-].
      destruct (Hi id x) as (? & ? & ? & ? & ?);
        [by apply lookup_union_Some_l|]. split_and!; auto.
    + rewrite lookup_union_r by done. intros Hl.
      destruct (Hi' id i Hl) as (? & ? & ? & ? & ?). split_and!; [done..| |].
      * apply lookup_union_is_Some. by right.
      * apply lookup_union_is_Some. by right.
Qed.

Lemma exec_call_constraints_ok {R} (c : call R) fault now txn w :
  through_txn constraints_ok txn w →
  through_txn constraints_ok (exec_call c fault now txn w).1.2
    (exec_call c fault now txn w).2.
Proof.
  intros [HC HW]. destruct w as [[C s] cache]. unfold w_tables in *.
  cbn in HC, HW.
  destruct c; cbn; try (destruct fault; by split).
  - (* pool.query *)
    destruct fault; [by split|]. cbn.
    split; [by apply exec_sql_constraints_ok|].
    intros W ->. eapply constraints_ok_under; [by apply HW| |].
    + by apply exec_sql_constraints_ok.
    + apply exec_sql_rows_kept.
  - (* client.query *)
    destruct fault; [by split|]. destruct txn as [W|]; cbn.
    + split; [done|]. intros ? [= <-]. rewrite <- overlay_assoc.
      apply exec_sql_constraints_ok. by apply HW.
    + split; [by apply exec_sql_constraints_ok|done].
  - (* BEGIN *)
    split; [done|]. destruct txn as [W|]; [done|].
    intros ? [= <-]. by rewrite overlay_no_rows.
  - (* COMMIT *)
    destruct txn as [W|]; cbn; (split; [|done]); [by apply HW|done].
Qed.

Lemma serve_constraints_ok r faults now w :
  constraints_ok (w_tables w) →
  constraints_ok (w_tables (serve r faults now w).2).
Proof.
  intros H. unfold serve.
  pose proof (run_invariant (through_txn constraints_ok)
                (λ R c fault now txn w, exec_call_constraints_ok c fault now txn w)
                (handler r) now (mk_state faults None w)) as Hrun.
  destruct (run (handler r) now _) as [out st]. cbn in *.
  apply Hrun. by split.
Qed.

(** X2.  The primary keys, CHECKs and foreign keys of init.sql hold after
    every sequence of requests, whichever calls fail, if they held
    before: a row's id is its key, no price and no order amount is
    negative, every status is one of the five, every order line has a
    positive quantity and belongs to a stored order and a stored
    product. *)
Theorem requests_keep_constraints rs w :
  constraints_ok (w_tables w) → constraints_ok (w_tables (serve_all rs w)).
Proof.
  revert w. induction rs as [|[[r faults] now] rs IH]; intros w Hw; [done|].
  cbn. apply IH. by apply serve_constraints_ok.
Qed.

Lemma requests_keep_constraints_witness :
  constraints_ok
    (w_tables
       (serve_all
          [(POST_orders (order_of [mk_order_line 1 3; mk_order_line 2 1]), [],
            100);
           (PATCH_order_status 1 (Some "shipped"), [], 101);
           (DELETE_product (route 2), [], 102);
           (PUT_product (route 1)
              (mk_product_fields None None (Some (-5)) None None None), [],
            103)]
          shop)).
Proof.
  apply requests_keep_constraints. split.
  - assert (map_Forall (λ id p, p_id p = id ∧ 0 ≤ p_price p)
              (products (w_tables shop))) as H
      by (apply (bool_decide_unpack _); by vm_compute).
    intros id p. apply (H id p).
  - intros id o H. change ((∅ : gmap Z order) !! id = Some o) in H.
    by rewrite lookup_empty in H.
  - intros id i H. change ((∅ : gmap Z order_item) !! id = Some i) in H.
    by rewrite lookup_empty in H.
Defined.

(** ** PATCH /api/orders/:id/status *)

Lemma valid_status_fits status :
  status ∈ valid_statuses → varchar 50 status = Some status.
Proof.
  intros H. unfold valid_statuses in H.
  repeat (apply elem_of_cons in H as [->|H]); [done..|].
  by apply elem_of_nil in H.
Qed.

(** X3.  A status the handler lets through is one the store accepts: on a
    stored order the update is made and answered with 200 and the row as
    it now is.  Of that row only status and updated_at have changed; the
    other orders, the products with their stock, the order lines, the
    sequences and the cache are as they were, whatever the status was
    before and whatever it is now. *)
Theorem update_status_changes_status_only id status o faults now w :
  orders (w_tables w) !! id = Some o →
  int4 id = true →
  status ∈ valid_statuses →
  hd false faults = false →
  let o' := mk_order (o_id o) (o_customer_name o) (o_customer_email o)
              (o_total_amount o) status (o_created_at o) now in
  ∃ w',
    serve (PATCH_order_status id (Some status)) faults now w
    = (inr (respond 200
              (message_data "Order status updated successfully"
                 (json_order o'))), w')
    ∧ orders (w_tables w') = <[ id := o' ]> (orders (w_tables w))
    ∧ products (w_tables w') = products (w_tables w)
    ∧ order_items (w_tables w') = order_items (w_tables w)
    ∧ db_seqs (w_db w') = db_seqs (w_db w)
    ∧ w_cache w' = w_cache w.
Proof.
  intros Ho Hid Hst Hf o'. destruct w as [[t s] c]. unfold w_tables in *.
  cbn in Ho. unfold serve, handler, update_status.
  rewrite bool_decide_eq_true_2 by done.
  destruct faults as [|[] faults]; try done; cbn.
  all: rewrite Hid, Ho; cbn; unfold with_status.
  all: rewrite (valid_status_fits status Hst), bool_decide_eq_true_2 by done.
  all: cbn; eexists; split; [reflexivity|]; cbn.
  all: by rewrite <- insert_union_singleton_l, !(left_id_L ∅ (∪)).
Qed.

Lemma update_status_changes_status_only_witness :
  let w := (serve (POST_orders (order_of [mk_order_line 1 3])) [] 100 shop).2 in
  let o' := mk_order 1 "Alice Williams" "alice.williams@example.com" 3000
              "cancelled" 100 200 in
  ∃ w',
    serve (PATCH_order_status 1 (Some "cancelled")) [] 200 w
    = (inr (respond 200
              (message_data "Order status updated successfully"
                 (json_order o'))), w')
    ∧ orders (w_tables w') = <[ 1 := o' ]> (orders (w_tables w))
    ∧ products (w_tables w') = products (w_tables w)
    ∧ order_items (w_tables w') = order_items (w_tables w)
    ∧ db_seqs (w_db w') = db_seqs (w_db w)
    ∧ w_cache w' = w_cache w.
Proof.
  intros w.
  apply (update_status_changes_status_only 1 "cancelled"
           (mk_order 1 "Alice Williams" "alice.williams@example.com" 3000
              "pending" 100 100) [] 200 w).
  - vm_compute. reflexivity.
  - reflexivity.
  - apply (bool_decide_unpack _). by vm_compute.
  - reflexivity.
Defined.

(** X4.  The refusals of PATCH /api/orders/:id/status.  A status that is
    absent or not one of the five is answered with 400 before any call is
    made; with a status of the five, a store that cannot be reached gives
    500 and an id no order has gives 404.  None of them changes the store
    or the cache. *)
Theorem update_status_refusals id status faults now w :
  (from_option (λ s, s ∉ valid_statuses) True status →
   serve (PATCH_order_status id status) faults now w
   = (inr (respond 400 (error_body (error_string "Invalid status"))), w))
  ∧ (∀ s, status = Some s → s ∈ valid_statuses →
          hd false faults = true →
          serve (PATCH_order_status id status) faults now w
          = (inr internal_server_error, w))
  ∧ (∀ s, status = Some s → s ∈ valid_statuses →
          hd false faults = false → int4 id = true →
          orders (w_tables w) !! id = None →
          serve (PATCH_order_status id status) faults now w
          = (inr (respond 404 (error_body (error_string "Order not found"))),
             w)).
Proof.
  destruct w as [[t s] c]. unfold w_tables. cbn.
  unfold serve, handler, update_status. split_and!.
  - destruct status as [st|]; cbn; [|done]. intros H.
    by rewrite bool_decide_eq_false_2.
  - intros st -> Hst Hf. rewrite bool_decide_eq_true_2 by done.
    by destruct faults as [|[] faults].
  - intros st -> Hst Hf Hid Ho. rewrite bool_decide_eq_true_2 by done.
    destruct faults as [|[] faults]; try done; cbn.
    all: rewrite Hid, Ho; cbn.
    all: by rewrite overlay_no_rows.
Qed.

Lemma update_status_refusals_witness :
  serve (PATCH_order_status 1 (Some "refunded")) [] 100 shop
  = (inr (respond 400 (error_body (error_string "Invalid status"))), shop)
  ∧ serve (PATCH_order_status 1 (Some "shipped")) [] 100 shop
    = (inr (respond 404 (error_body (error_string "Order not found"))), shop).
Proof.
  destruct (update_status_refusals 1 (Some "refunded") [] 100 shop)
    as (H400 & _ & _).
  destruct (update_status_refusals 1 (Some "shipped") [] 100 shop)
    as (_ & _ & H404).
  split.
  - apply H400. cbn. apply (bool_decide_unpack _). by vm_compute.
  - apply (H404 "shipped"); try reflexivity.
    apply (bool_decide_unpack _). by vm_compute.
Defined.

(** ** PUT /api/products/:id *)

(** X5.  A successful update: the fields the body gives replace those of the
    row, the fields it leaves out stay as they were (COALESCE), and id,
    is_active and created_at are not touched; updated_at is the time of
    the update.  Nothing else in the store changes, and of the cache the
    two keys the product shows in are removed. *)
Theorem update_product_coalesces id f p faults now w resp w' :
  serve (PUT_product id f) faults now w = (inr resp, w') →
  r_status resp = 200 →
  products (w_tables w) !! id_int id = Some p →
  ∃ p',
    r_body resp = message_data "Product updated successfully" (json_product p')
    ∧ products (w_tables w') = <[ id_int id := p' ]> (products (w_tables w))
    ∧ orders (w_tables w') = orders (w_tables w)
    ∧ order_items (w_tables w') = order_items (w_tables w)
    ∧ db_seqs (w_db w') = db_seqs (w_db w)
    ∧ w_cache w'
      = redis_del (product_key id) (redis_del "products:all" (w_cache w))
    ∧ p_is_active p = true
    ∧ p' = mk_product (p_id p) (p_name p')
             (coalesce_opt (f_description f) (p_description p))
             (coalesce (f_price f) (p_price p)) (p_category p')
             (coalesce (f_stock f) (p_stock p))
             (coalesce_opt (f_image_url f) (p_image_url p))
             true (p_created_at p) now
    ∧ varchar 255 (coalesce (f_name f) (p_name p)) = Some (p_name p')
    ∧ varchar 100 (coalesce (f_category f) (p_category p))
      = Some (p_category p').
Proof.
  destruct w as [[t s] c]. unfold w_tables. cbn.
  intros Hserve Hok Hp. revert Hserve. unfold serve, handler, update_product.
  destruct faults as [|[] [|[] [|[] faults]]]; cbn;
    try (intros [= <- <-]; done);
    (destruct (int4 (id_int id) && from_option int4 true (f_stock f)); cbn;
       [|intros [= <- <-]; done]);
    rewrite Hp;
    (destruct (p_is_active p) eqn:Hact; cbn; [|intros [= <- <-]; done]);
    (destruct (updated_product p _ _ _ _ _ _ now) as [e|p'] eqn:Hup; cbn;
       [intros [= <- <-]; done|]);
    intros [= <- <-]; try done.
  all: apply check_product_inr in Hup as (Hname & Hcat & Heq & _); cbn in *.
  all: exists p'; rewrite Hact in Heq.
  all: split_and!; try done.
  all: try (by rewrite <- insert_union_singleton_l).
  all: try (by rewrite (left_id_L ∅ (∪))).
Qed.

Lemma update_product_coalesces_witness :
  let put :=
    PUT_product (route 2)
      (mk_product_fields None (Some EmptyString) (Some 0) None None None) in
  ∃ p',
    r_body (respond 200
              (message_data "Product updated successfully"
                 (json_product
                    (mk_product 2 "Wireless Mouse" (Some EmptyString) 0
                       "Electronics" 200 None true 0 100))))
    = message_data "Product updated successfully" (json_product p')
    ∧ products (w_tables (serve put [] 100 shop).2)
      = <[ 2 := p' ]> (products (w_tables shop))
    ∧ orders (w_tables (serve put [] 100 shop).2) = orders (w_tables shop)
    ∧ order_items (w_tables (serve put [] 100 shop).2)
      = order_items (w_tables shop)
    ∧ db_seqs (w_db (serve put [] 100 shop).2) = db_seqs (w_db shop)
    ∧ w_cache (serve put [] 100 shop).2
      = redis_del (product_key (route 2)) (redis_del "products:all" (w_cache shop))
    ∧ p_is_active wireless_mouse = true
    ∧ p' = mk_product (p_id wireless_mouse) (p_name p')
             (coalesce_opt (Some EmptyString) (p_description wireless_mouse))
             (coalesce (Some 0) (p_price wireless_mouse)) (p_category p')
             (coalesce None (p_stock wireless_mouse))
             (coalesce_opt None (p_image_url wireless_mouse))
             true (p_created_at wireless_mouse) 100
    ∧ varchar 255 (coalesce None (p_name wireless_mouse)) = Some (p_name p')
    ∧ varchar 100 (coalesce None (p_category wireless_mouse))
      = Some (p_category p').
Proof.
  intros put.
  apply (update_product_coalesces (route 2)
           (mk_product_fields None (Some EmptyString) (Some 0) None None None)
           wireless_mouse [] 100 shop).
  - vm_compute. reflexivity.
  - reflexivity.
  - reflexivity.
Defined.



(** ** How POST /api/orders ends *)

Lemma run_bind_inr {A B} (p : prog A) (f : A → prog B) now st b st' :
  run (p ≫= f) now st = (inr b, st') →
  ∃ a st1, run p now st = (inr a, st1) ∧ run (f a) now st1 = (inr b, st').
Proof.
  rewrite run_bind. destruct (run p now st) as [[e|a] st1]; [done|]. eauto.
Qed.

Lemma order_transaction_inr req lines now st resp st' :
  run (order_transaction req lines) now st = (inr resp, st') →
  r_status resp = 201 ∧ st_txn st' = None.
Proof.
  unfold order_transaction. intros H.
  apply run_bind_inr in H as ([] & st1 & _ & H).
  apply run_bind_inr in H as (total & st2 & _ & H).
  apply run_bind_inr in H as (orderResult & st3 & _ & H).
  apply run_bind_inr in H as (order & st4 & _ & H).
  apply run_bind_inr in H as ([] & st5 & _ & H).
  apply run_bind_inr in H as ([] & st6 & Hcommit & H).
  apply run_bind_inr in H as ([] & st7 & Hdel & H).
  cbn in H. injection H as Hresp Hst. subst resp st'. split; [done|].
  rewrite run_await in Hcommit, Hdel. cbn in Hcommit, Hdel.
  destruct (st_txn st5); injection Hcommit as Hst6; subst st6; cbn in Hdel;
    destruct (hd false _); injection Hdel as Hst7; by subst st7.
Qed.

(** Past its validation, POST /api/orders ends in one of three ways. *)
Lemma create_order_ends req lines faults now w out st' :
  not_string (customer_name req) = false →
  not_string (customer_email req) = false →
  items req = Some lines → lines ≠ [] →
  run (create_order req) now (mk_state faults None w) = (out, st') →
  (hd false faults = true
   ∧ out = inl (DatabaseError connection_failure)
   ∧ st' = mk_state (tl faults) None w)
  ∨ (hd false faults = false ∧ st_txn st' = None
     ∧ ∃ resp,
         out = inr resp
         ∧ (r_status resp = 201
            ∨ ∃ e, resp = respond 500 (error_body (error_message e)))).
Proof.
  intros Hname Hemail Hitems Hne. unfold create_order.
  rewrite Hname, Hemail, Hitems. destruct lines as [|l ls]; [done|]. cbn [orb].
  rewrite run_bind, run_await. cbn [exec_call st_faults st_txn st_world].
  destruct (hd false faults); [intros [= <- <-]; by left|].
  rewrite run_try_finally, run_try_catch. intros H. right. split; [done|].
  destruct (run (order_transaction req (l :: ls)) now _) as [[e|resp] st1]
    eqn:Hot.
  - cbn in H. injection H as <- <-. split; [done|]. eauto.
  - apply order_transaction_inr in Hot as [H201 Htxn].
    cbn in H. injection H as <- <-. cbn. split; [done|]. eauto.
Qed.

(** X7.  Whatever cache or store call fails, a handler answers, but for
    one case: when no connection can be had from the pool, POST
    /api/orders throws, outside its try block, and nothing has been
    changed.  (BEGIN, COMMIT, ROLLBACK and release are not made to
    fail.) *)
Theorem handlers_answer_unless_connect_fails r faults now w e :
  (serve r faults now w).1 = inl e →
  ∃ req,
    r = POST_orders req
    ∧ hd false faults = true
    ∧ e = DatabaseError connection_failure
    ∧ (serve r faults now w).2 = w.
Proof.
  assert (∀ (p : prog response) r0 st,
            (run (try_catch p (λ _, mret r0)) now st).1 ≠ inl e) as Hcatch.
  { intros p r0 st. rewrite run_try_catch.
    by destruct (run p now st) as [[?|?] ?]. }
  unfold serve.
  destruct (run (handler r) now (mk_state faults None w)) as [out st'] eqn:Hrun.
  cbn. intros ->.
  assert ((run (handler r) now (mk_state faults None w)).1 = inl e) as Hout
    by (by rewrite Hrun).
  destruct r; cbn [handler] in *;
    try (by apply Hcatch in Hout).
  - (* POST /api/products *)
    unfold create_product in Hout. case_match; [done|]. by apply Hcatch in Hout.
  - (* POST /api/orders *)
    exists req. unfold create_order in Hrun, Hout.
    destruct (not_string (customer_name req)) eqn:Hname; [done|].
    destruct (not_string (customer_email req)) eqn:Hemail; [done|].
    destruct (items req) as [[|l ls]|] eqn:Hitems; [done| |done].
    pose proof (create_order_ends req (l :: ls) faults now w (inl e) st'
                  Hname Hemail Hitems) as Hends.
    unfold create_order in Hends. rewrite Hname, Hemail, Hitems in Hends.
    destruct (Hends ltac:(done) Hrun) as [(? & [= <-] & ->)|(_ & _ & ? & ? & _)];
      done.
  - (* PATCH /api/orders/:id/status *)
    unfold update_status in Hout. repeat case_match; try done.
    by apply Hcatch in Hout.
Qed.

Lemma handlers_answer_unless_connect_fails_witness :
  ∃ req,
    POST_orders (order_of [mk_order_line 1 3]) = POST_orders req
    ∧ hd false [true] = true
    ∧ DatabaseError connection_failure = DatabaseError connection_failure
    ∧ (serve (POST_orders (order_of [mk_order_line 1 3])) [true] 100 shop).2
      = shop.
Proof.
  apply (handlers_answer_unless_connect_fails
           (POST_orders (order_of [mk_order_line 1 3])) [true] 100 shop).
  reflexivity.
Defined.

(** X8.  POST /api/orders never ends with its transaction open:
    whichever calls fail, what BEGIN opened has been committed or rolled
    back.  (ROLLBACK itself is not made to fail.) *)
Theorem create_order_closes_transaction req faults now w :
  st_txn (run (create_order req) now (mk_state faults None w)).2 = None.
Proof.
  destruct (run (create_order req) now (mk_state faults None w))
    as [out st'] eqn:Hrun. cbn.
  destruct (not_string (customer_name req)) eqn:Hname;
    [unfold create_order in Hrun; rewrite Hname in Hrun;
     by injection Hrun as <- <-|].
  destruct (not_string (customer_email req)) eqn:Hemail;
    [unfold create_order in Hrun; rewrite Hname, Hemail in Hrun;
     by injection Hrun as <- <-|].
  destruct (items req) as [[|l ls]|] eqn:Hitems;
    [unfold create_order in Hrun; rewrite Hname, Hemail, Hitems in Hrun;
     by injection Hrun as <- <-| |
     unfold create_order in Hrun; rewrite Hname, Hemail, Hitems in Hrun;
     by injection Hrun as <- <-].
  destruct (create_order_ends req (l :: ls) faults now w out st'
              Hname Hemail Hitems ltac:(done) Hrun)
    as [(_ & _ & ->)|(_ & ? & _)]; done.
Qed.

(** ** Refusals change nothing *)

(** X9.  A request answered with 400 or 404 has changed nothing: the rows,
    the sequences and the cache are as they were before it. *)
Theorem refused_requests_change_nothing r faults now w resp w' :
  serve r faults now w = (inr resp, w') →
  r_status resp = 400 ∨ r_status resp = 404 →
  w' = w.
Proof.
  destruct w as [[t s] c].
  destruct r as [ |id|f|id f|id|req|id status| ]; unfold serve; cbn [handler].
  - (* GET /api/products *)
    unfold list_products.
    destruct faults as [|[] [|[] [|[] faults]]]; cbn;
      destruct (redis_get now "products:all" c); cbn;
      intros [= <- <-] [?|?]; done.
  - (* GET /api/products/:id *)
    unfold get_product.
    destruct faults as [|[] [|[] [|[] faults]]]; cbn;
      destruct (redis_get now (product_key id) c); cbn;
      try (intros [= <- <-] [?|?]; done);
      (destruct (int4 (id_int id)); cbn; [|intros [= <- <-] [?|?]; done]);
      unfold active_product;
      (destruct (products t !! id_int id) as [p|]; cbn;
         [destruct (p_is_active p); cbn|]);
      intros [= <- <-] [?|?]; try done;
      by rewrite overlay_no_rows.
  - (* POST /api/products *)
    unfold create_product.
    destruct (not_string (f_name f) || not_number (f_price f)
              || not_string (f_category f));
      [by intros [= <- <-]|].
    destruct faults as [|[] [|[] faults]]; cbn;
      try (intros [= <- <-] [?|?]; done);
      (destruct (new_product _ _ _ _ _ _ _ now) as [e|p]; cbn;
         [|destruct (products t !! _); cbn]);
      intros [= <- <-] [?|?]; done.
  - (* PUT /api/products/:id *)
    unfold update_product.
    destruct faults as [|[] [|[] [|[] faults]]]; cbn;
      try (intros [= <- <-] [?|?]; done);
      (destruct (int4 (id_int id) && from_option int4 true (f_stock f)); cbn;
         [|intros [= <- <-] [?|?]; done]);
      (destruct (products t !! id_int id) as [p|]; cbn;
         [destruct (p_is_active p); cbn;
            [destruct (updated_product p _ _ _ _ _ _ now); cbn|]|]);
      intros [= <- <-] [?|?]; try done;
      by rewrite overlay_no_rows.
  - (* DELETE /api/products/:id *)
    unfold delete_product.
    destruct faults as [|[] [|[] [|[] faults]]]; cbn;
      try (intros [= <- <-] [?|?]; done);
      (destruct (int4 (id_int id)); cbn; [|intros [= <- <-] [?|?]; done]);
      (destruct (products t !! id_int id) as [p|]; cbn);
      intros [= <- <-] [?|?]; try done;
      by rewrite overlay_no_rows.
  - (* POST /api/orders *)
    destruct (run (create_order req) now _) as [out st'] eqn:Hrun.
    intros [= -> <-] Hstatus.
    destruct (not_string (customer_name req)) eqn:Hname;
      [unfold create_order in Hrun; rewrite Hname in Hrun;
       by injection Hrun as _ <-|].
    destruct (not_string (customer_email req)) eqn:Hemail;
      [unfold create_order in Hrun; rewrite Hname, Hemail in Hrun;
       by injection Hrun as _ <-|].
    destruct (items req) as [[|l ls]|] eqn:Hitems;
      [unfold create_order in Hrun; rewrite Hname, Hemail, Hitems in Hrun;
       by injection Hrun as _ <-| |
       unfold create_order in Hrun; rewrite Hname, Hemail, Hitems in Hrun;
       by injection Hrun as _ <-].
    destruct (create_order_ends req (l :: ls) faults now _ _ st'
                Hname Hemail Hitems ltac:(done) Hrun)
      as [(_ & ? & _)|(_ & _ & resp' & [= <-] & [H201|(e & ->)])]; [done|..].
    + rewrite H201 in Hstatus. by destruct Hstatus.
    + by destruct Hstatus.
  - (* PATCH /api/orders/:id/status *)
    unfold update_status. destruct status as [status|]; [|by intros [= <- <-]].
    case_bool_decide; [|by intros [= <- <-]].
    destruct faults as [|[] faults]; cbn;
      try (intros [= <- <-] [?|?]; done);
      (destruct (int4 id); cbn; [|intros [= <- <-] [?|?]; done]);
      (destruct (orders t !! id) as [o|]; cbn;
         [destruct (with_status o status now); cbn|]);
      intros [= <- <-] [?|?]; try done;
      by rewrite overlay_no_rows.
  - (* GET /api/stats *)
    unfold get_stats.
    destruct faults as [|[] faults]; cbn; intros [= <- <-] [?|?]; done.
Qed.

Lemma refused_requests_change_nothing_witness :
  (serve (GET_product (route 3)) [] 100 shop).2 = shop.
Proof.
  apply (refused_requests_change_nothing (GET_product (route 3)) [] 100 shop
           (respond 404 (error_body (error_string "Product not found")))).
  - vm_compute. reflexivity.
  - by right.
Defined.

(** ** The catalog *)

Lemma active_listing_elem v l :
  l ∈ active_listing v
  ↔ ∃ id p, products v !! id = Some p ∧ p_is_active p = true
            ∧ l = listing_of p.
Proof.
  unfold active_listing, table_rows. rewrite list_elem_of_fmap. split.
  - intros (p & -> & Hp). rewrite merge_sort_Permutation in Hp.
    apply list_elem_of_filter in Hp as [Hact Hp].
    apply list_elem_of_fmap in Hp as ([id p'] & -> & Hp).
    apply elem_of_map_to_list in Hp. eauto.
  - intros (id & p & Hp & Hact & ->). exists p. split; [done|].
    rewrite merge_sort_Permutation. apply list_elem_of_filter. split; [done|].
    apply list_elem_of_fmap. exists (id, p). split; [done|].
    by apply elem_of_map_to_list.
Qed.

Lemma active_listing_sorted v : StronglySorted newest_first (active_listing v).
Proof.
  unfold active_listing.
  apply (StronglySorted_fmap listing_of by_created_at_desc newest_first); [done|].
  apply StronglySorted_merge_sort.
  - intros a b c. unfold by_created_at_desc. lia.
  - intros a b. unfold by_created_at_desc. lia.
Qed.

(** X10.  GET /api/products on a miss: the rows come from the store, they are
    the active products and no others, newest first, and they are put in
    the cache for 300 seconds. *)
Theorem list_products_reads_catalog faults now w :
  redis_get now "products:all" (w_cache w) = None →
  hd false faults = false →
  hd false (tl faults) = false →
  hd false (tl (tl faults)) = false →
  let rows := active_listing (w_tables w) in
  serve GET_products faults now w
  = (inr (respond 200 (source_data "database" (json_products rows))),
     mk_world (w_db w)
       (redis_setex now "products:all" 300 (json_products rows) (w_cache w)))
  ∧ (∀ l, l ∈ rows
          ↔ ∃ id p, products (w_tables w) !! id = Some p
                    ∧ p_is_active p = true ∧ l = listing_of p)
  ∧ StronglySorted newest_first rows.
Proof.
  intros Hmiss H1 H2 H3 rows. destruct w as [[t s] c]. cbn in *.
  split; [|split; [apply active_listing_elem|apply active_listing_sorted]].
  unfold serve, handler, list_products.
  destruct faults as [|f1 [|f2 [|f3 faults]]]; cbn in *; subst; cbn;
    rewrite Hmiss; cbn; by rewrite overlay_no_rows.
Qed.

Lemma list_products_reads_catalog_witness :
  let rows := active_listing (w_tables shop) in
  serve GET_products [] 100 shop
  = (inr (respond 200 (source_data "database" (json_products rows))),
     mk_world (w_db shop)
       (redis_setex 100 "products:all" 300 (json_products rows)
          (w_cache shop)))
  ∧ (∀ l, l ∈ rows
          ↔ ∃ id p, products (w_tables shop) !! id = Some p
                    ∧ p_is_active p = true ∧ l = listing_of p)
  ∧ StronglySorted newest_first rows.
Proof.
  by apply (list_products_reads_catalog [] 100 shop).
Defined.

Lemma serve_list_products_entry e now faults w :
  w_cache w !! "products:all" = Some e →
  (now < ce_expires e →
   serve GET_products (false :: faults) now w
   = (inr (respond 200 (source_data "cache" (ce_value e))), w))
  ∧ (ce_expires e ≤ now →
     (serve GET_products [] now w).1
     = inr (listing_answer (w_tables w) "database")).
Proof.
  intros Hentry. destruct w as [[t s] c]. cbn in *.
  unfold serve, handler, list_products, listing_answer. split; intros Hnow; cbn.
  - unfold redis_get. rewrite Hentry. cbn.
    by rewrite (proj2 (Z.ltb_lt _ _) Hnow).
  - unfold redis_get. rewrite Hentry. cbn.
    by rewrite (proj2 (Z.ltb_ge _ _) Hnow).
Qed.

(** X11.  The listing read from the store at time [now] stays in the
    cache for 300 seconds.  Until then GET /api/products is answered with
    it without a call to the store, so also while the store cannot be
    reached; from then on the store is read again. *)
Theorem list_products_cached_for_300 now now' faults w :
  redis_get now "products:all" (w_cache w) = None →
  let w1 := (serve GET_products [] now w).2 in
  let rows := active_listing (w_tables w) in
  (now' < now + 300 →
   serve GET_products (false :: faults) now' w1
   = (inr (respond 200 (source_data "cache" (json_products rows))), w1))
  ∧ (now + 300 ≤ now' →
     (serve GET_products [] now' w1).1
     = inr (respond 200 (source_data "database" (json_products rows)))).
Proof.
  intros Hmiss w1 rows.
  assert (w1 = mk_world (w_db w)
                 (redis_setex now "products:all" 300 (json_products rows)
                    (w_cache w))) as Hw1.
  { unfold w1. destruct w as [[t s] c]. unfold serve, handler, list_products.
    cbn in *. rewrite Hmiss. cbn. by rewrite overlay_no_rows. }
  assert (w_cache w1 !! "products:all"
          = Some (mk_cache_entry (json_products rows) (now + 300))) as Hentry
    by (rewrite Hw1; cbn; unfold redis_setex; by rewrite lookup_insert_eq).
  destruct (serve_list_products_entry _ now' faults w1 Hentry) as [Hhit Hread].
  split; [done|]. intros Hnow. rewrite (Hread Hnow).
  unfold listing_answer, rows. by rewrite Hw1.
Qed.

Lemma list_products_cached_for_300_witness :
  let w1 := (serve GET_products [] 100 shop).2 in
  let rows := active_listing (w_tables shop) in
  serve GET_products [false; true; true] 399 w1
  = (inr (respond 200 (source_data "cache" (json_products rows))), w1)
  ∧ (serve GET_products [] 400 w1).1
    = inr (respond 200 (source_data "database" (json_products rows))).
Proof.
  intros w1 rows.
  destruct (list_products_cached_for_300 100 399 [true; true] shop eq_refl)
    as [Hhit _].
  destruct (list_products_cached_for_300 100 400 [] shop eq_refl)
    as [_ Hread].
  split; [apply Hhit|apply Hread]; lia.
Defined.

(** ** POST /api/products *)

Lemma storable_passes f name category price :
  storable f name category price →
  not_string (f_name f) || not_number (f_price f) || not_string (f_category f)
  = false.
Proof.
  intros [(-> & Hname & _) (-> & Hcat & _) (-> & Hprice) _]. cbn.
  rewrite !decide_False by done. cbn.
  destruct (Z.eqb_spec price 0); [lia|done].
Qed.

Lemma storable_new_product f name category price id now :
  storable f name category price →
  new_product id (f_name f) (f_description f) (f_price f) (f_category f)
    (or_number (f_stock f) 0) (f_image_url f) now
  = inr (created_row f id name category price now).
Proof.
  intros [(-> & _ & Hname) (-> & _ & Hcat) (-> & Hprice) Hstock].
  unfold new_product, check_product, created_row. cbn.
  rewrite !varchar_fits by done.
  assert (or_number (f_stock f) 0 = default 0 (f_stock f)) as ->.
  { unfold or_number, not_number. destruct (f_stock f) as [z|]; [|done].
    cbn. destruct (z =? 0) eqn:E; [|done]. apply Z.eqb_eq in E. by subst. }
  assert (0 ≤ default 0 (f_stock f) ≤ 2147483647) as Hs
    by (destruct (f_stock f); cbn in *; lia).
  unfold numeric_10_2, int4.
  repeat match goal with
         | |- context [?a <? ?b] => destruct (Z.ltb_spec a b); try lia
         | |- context [?a <=? ?b] => destruct (Z.leb_spec a b); try lia
         end.
  done.
Qed.

(** X12.  What is created can be read back.  A body the store takes is
    answered with 201 and the stored row: a new id, the fields of the
    body, stock 0 when none is given, active, created and updated now;
    the cached listing is dropped.  After that GET /api/products/:id,
    under a text of the new id of which the cache has no entry, answers
    with the same row and GET /api/products lists it. *)
Theorem create_product_round_trip f name category price now w :
  storable f name category price →
  let id := products_id_seq (db_seqs (w_db w)) + 1 in
  let row := created_row f id name category price now in
  products (w_tables w) !! id = None →
  int4 id = true →
  ∃ w',
    serve (POST_products f) [] now w
    = (inr (respond 201
              (message_data "Product created successfully"
                 (json_product row))), w')
    ∧ products (w_tables w') = <[ id := row ]> (products (w_tables w))
    ∧ orders (w_tables w') = orders (w_tables w)
    ∧ order_items (w_tables w') = order_items (w_tables w)
    ∧ w_cache w' = redis_del "products:all" (w_cache w)
    ∧ (∀ r now',
         id_int r = id →
         redis_get now' (product_key r) (w_cache w) = None →
         (serve (GET_product r) [] now' w').1
         = inr (respond 200 (source_data "database" (json_product row))))
    ∧ (∀ now',
         (serve GET_products [] now' w').1
         = inr (listing_answer (w_tables w') "database")
         ∧ listing_of row ∈ active_listing (w_tables w')).
Proof.
  intros Hf id row Hfresh Hid. destruct w as [[t s] c].
  unfold w_tables in *. cbn in id, row, Hfresh |- *.
  unfold serve, handler, create_product.
  rewrite (storable_passes _ _ _ _ Hf). cbn.
  rewrite (storable_new_product _ _ _ _ (products_id_seq s + 1) now Hf).
  fold id row. rewrite Hfresh. cbn.
  eexists. split; [reflexivity|]. cbn.
  rewrite <- insert_union_singleton_l, !(left_id_L ∅ (∪)).
  split_and!; try done.
  - intros r now' Hr Hmiss. unfold get_product. cbn.
    unfold redis_get, redis_del in *.
    rewrite lookup_delete_ne by (symmetry; apply product_key_not_all).
    rewrite Hmiss. cbn. rewrite Hr, Hid. cbn. unfold active_product. cbn.
    rewrite <- ?insert_union_singleton_l. by rewrite lookup_insert_eq.
  - intros now'. split.
    + unfold list_products, listing_answer. cbn. unfold redis_get, redis_del.
      by rewrite lookup_delete_eq.
    + apply active_listing_elem. exists id, row. cbn.
      rewrite <- ?insert_union_singleton_l. by rewrite lookup_insert_eq.
Qed.

Lemma create_product_round_trip_witness :
  let f := mk_product_fields (Some "USB-C Hub") None (Some 4999)
             (Some "Accessories") None None in
  let row := created_row f 4 "USB-C Hub" "Accessories" 4999 100 in
  ∃ w',
    serve (POST_products f) [] 100 shop
    = (inr (respond 201
              (message_data "Product created successfully"
                 (json_product row))), w')
    ∧ products (w_tables w') = <[ 4 := row ]> (products (w_tables shop))
    ∧ orders (w_tables w') = orders (w_tables shop)
    ∧ order_items (w_tables w') = order_items (w_tables shop)
    ∧ w_cache w' = redis_del "products:all" (w_cache shop)
    ∧ (∀ r now',
         id_int r = 4 →
         redis_get now' (product_key r) (w_cache shop) = None →
         (serve (GET_product r) [] now' w').1
         = inr (respond 200 (source_data "database" (json_product row))))
    ∧ (∀ now',
         (serve GET_products [] now' w').1
         = inr (listing_answer (w_tables w') "database")
         ∧ listing_of row ∈ active_listing (w_tables w')).
Proof.
  intros f row.
  apply (create_product_round_trip f "USB-C Hub" "Accessories" 4999 100 shop).
  - split; cbn; repeat split; try done; lia.
  - reflexivity.
  - reflexivity.
Defined.

(** X13.  A negative price or stock passes the handler's validation and is
    refused by the CHECKs of the store: the answer is 500 Internal server
    error, not 400, and no row is stored. *)
Theorem create_product_negative_is_500 f faults now w :
  not_string (f_name f) || not_number (f_price f) || not_string (f_category f)
  = false →
  from_option (λ price, price < 0) False (f_price f)
  ∨ from_option (λ stock, stock < 0) False (f_stock f) →
  (serve (POST_products f) faults now w).1 = inr internal_server_error
  ∧ w_tables (serve (POST_products f) faults now w).2 = w_tables w
  ∧ w_cache (serve (POST_products f) faults now w).2 = w_cache w.
Proof.
  intros Hvalid Hneg. destruct w as [[t s] c].
  unfold serve, handler, create_product. rewrite Hvalid.
  assert (∀ id,
            ∃ e, new_product id (f_name f) (f_description f) (f_price f)
                   (f_category f) (or_number (f_stock f) 0) (f_image_url f) now
                 = inl e) as Hnew.
  { intros id. unfold new_product.
    destruct (f_name f) as [name|]; [|by eexists].
    destruct (f_price f) as [price|]; [|by eexists].
    destruct (f_category f) as [category|]; [|by eexists].
    unfold check_product. cbn.
    destruct (varchar 255 name); [|by eexists].
    destruct (varchar 100 category); [|by eexists].
    destruct (numeric_10_2 price); [|by eexists].
    destruct (int4 (or_number (f_stock f) 0)); [|by eexists]. cbn.
    destruct (Z.ltb_spec price 0); [by eexists|].
    destruct Hneg as [Hneg|Hneg]; [cbn in Hneg; lia|].
    destruct (f_stock f) as [stock|]; [|done]. cbn in Hneg.
    unfold or_number, not_number. cbn.
    destruct (Z.eqb_spec stock 0); [lia|]. cbn.
    destruct (Z.ltb_spec stock 0); [by eexists|lia]. }
  destruct faults as [|[] faults]; cbn; try done.
  all: destruct (Hnew (products_id_seq s + 1)) as [e ->]; cbn.
  all: by rewrite overlay_no_rows.
Qed.

Lemma create_product_negative_is_500_witness :
  let f := mk_product_fields (Some "Refund") None (Some (-100)) (Some "Promo")
             None None in
  (serve (POST_products f) [] 100 shop).1 = inr internal_server_error
  ∧ w_tables (serve (POST_products f) [] 100 shop).2 = w_tables shop
  ∧ w_cache (serve (POST_products f) [] 100 shop).2 = w_cache shop.
Proof.
  intros f. apply (create_product_negative_is_500 f [] 100 shop).
  - reflexivity.
  - left. cbn. lia.
Defined.

(** X14.  When the row has been stored and the removal of the cached listing
    then fails, POST /api/products answers 500 although the product is
    there; a listing cached before is still served, without the new
    product, until its time is up. *)
Theorem create_product_stored_despite_500 f name category price faults now w :
  storable f name category price →
  let id := products_id_seq (db_seqs (w_db w)) + 1 in
  let row := created_row f id name category price now in
  products (w_tables w) !! id = None →
  ∃ w',
    serve (POST_products f) (false :: true :: faults) now w
    = (inr internal_server_error, w')
    ∧ products (w_tables w') = <[ id := row ]> (products (w_tables w))
    ∧ w_cache w' = w_cache w
    ∧ ∀ e now',
        w_cache w !! "products:all" = Some e →
        now' < ce_expires e →
        (serve GET_products [] now' w').1
        = inr (respond 200 (source_data "cache" (ce_value e))).
Proof.
  intros Hf id row Hfresh. destruct w as [[t s] c].
  unfold w_tables in *. cbn in id, row, Hfresh |- *.
  unfold serve, handler, create_product.
  rewrite (storable_passes _ _ _ _ Hf). cbn.
  rewrite (storable_new_product _ _ _ _ (products_id_seq s + 1) now Hf).
  fold id row. rewrite Hfresh. cbn.
  eexists. split; [reflexivity|]. cbn.
  rewrite <- insert_union_singleton_l.
  split_and!; try done.
  intros e now' He Hnow. unfold list_products, redis_get. cbn.
  rewrite He. by rewrite (proj2 (Z.ltb_lt _ _) Hnow).
Qed.

Lemma create_product_stored_despite_500_witness :
  let f := mk_product_fields (Some "USB-C Hub") None (Some 4999)
             (Some "Accessories") None None in
  let row := created_row f 4 "USB-C Hub" "Accessories" 4999 500 in
  let w := (serve GET_products [] 400 shop).2 in
  ∃ w',
    serve (POST_products f) [false; true] 500 w = (inr internal_server_error, w')
    ∧ products (w_tables w') = <[ 4 := row ]> (products (w_tables w))
    ∧ w_cache w' = w_cache w
    ∧ ∀ e now',
        w_cache w !! "products:all" = Some e →
        now' < ce_expires e →
        (serve GET_products [] now' w').1
        = inr (respond 200 (source_data "cache" (ce_value e))).
Proof.
  intros f row w.
  apply (create_product_stored_despite_500 f "USB-C Hub" "Accessories" 4999 []
           500 w).
  - split; cbn; repeat split; try done; lia.
  - reflexivity.
Defined.

(** ** POST /api/orders: the refusals *)

Lemma price_loop_stops before item rest acc now W w e :
  (∀ l, l ∈ before →
        ∃ p, products (overlay W (w_tables w)) !! product_id l = Some p
             ∧ p_is_active p = true
             ∧ int4 (product_id l) = true
             ∧ quantity l ≤ p_stock p) →
  int4 (product_id item) = true →
  (active_product (overlay W (w_tables w)) (product_id item) = []
   ∧ e = ProductNotFound (product_id item))
  ∨ (∃ p, active_product (overlay W (w_tables w)) (product_id item) = [p]
          ∧ p_stock p < quantity item
          ∧ e = InsufficientStock (product_id item)) →
  run (price_loop (before ++ item :: rest) acc) now (mk_state [] (Some W) w)
  = (inl e, mk_state [] (Some W) w).
Proof.
  revert acc. induction before as [|l before IH]; intros acc Hbefore Hid Hitem.
  - cbn [app price_loop]. rewrite run_bind, run_client_query_txn.
    cbn -[overlay]. rewrite Hid. cbn -[overlay].
    rewrite overlay_no_rows, world_eta.
    unfold active_product in Hitem.
    destruct Hitem as [[Hnone ->]|(p & Hp & Hlt & ->)];
      destruct (products (overlay W (w_tables w)) !! product_id item) as [p'|];
      try destruct (p_is_active p'); try done.
    injection Hp as ->. cbn. by rewrite (proj2 (Z.ltb_lt _ _) Hlt).
  - destruct (Hbefore l) as (p & Hp & Ha & Hi & Hq); [left|].
    cbn [app price_loop]. rewrite run_bind, run_client_query_txn.
    cbn -[overlay]. rewrite Hi. cbn -[overlay]. rewrite Hp, Ha.
    cbn -[overlay]. rewrite overlay_no_rows, world_eta.
    rewrite (proj2 (Z.ltb_ge _ _) Hq). apply IH; [|done..].
    intros l' Hl'. apply Hbefore. by right.
Qed.

(** X15.  The first line that names a product which is not stored or is
    deleted, or of which the stock is below the line's quantity, ends the
    order: the answer is 500 with the message of that line, and the rows,
    the sequences and the cache are as they were. *)
Theorem create_order_refused_in_first_loop req before item rest now w :
  not_string (customer_name req) = false →
  not_string (customer_email req) = false →
  items req = Some (before ++ item :: rest) →
  (∀ l, l ∈ before →
        ∃ p, products (w_tables w) !! product_id l = Some p
             ∧ p_is_active p = true
             ∧ int4 (product_id l) = true
             ∧ quantity l ≤ p_stock p) →
  int4 (product_id item) = true →
  (active_product (w_tables w) (product_id item) = [] →
   serve (POST_orders req) [] now w
   = (inr (respond 500
             (error_body (error_message (ProductNotFound (product_id item))))),
      w))
  ∧ (∀ p, active_product (w_tables w) (product_id item) = [p] →
          p_stock p < quantity item →
          serve (POST_orders req) [] now w
          = (inr (respond 500
                    (error_body
                       (error_message (InsufficientStock (product_id item))))),
             w)).
Proof.
  intros Hname Hemail Hitems Hbefore Hid.
  assert (∀ e,
            (active_product (w_tables w) (product_id item) = []
             ∧ e = ProductNotFound (product_id item))
            ∨ (∃ p, active_product (w_tables w) (product_id item) = [p]
                    ∧ p_stock p < quantity item
                    ∧ e = InsufficientStock (product_id item)) →
            serve (POST_orders req) [] now w
            = (inr (respond 500 (error_body (error_message e))), w)) as H.
  { intros e He. unfold serve, handler, create_order.
    rewrite Hname, Hemail, Hitems. cbn [orb].
    destruct (before ++ item :: rest) as [|l0 ls0] eqn:Hlines;
      [by destruct before|].
    rewrite <- Hlines. clear Hlines.
    rewrite run_bind, run_await. cbn [exec_call hd st_faults st_txn st_world tl].
    rewrite run_try_finally, run_try_catch. unfold order_transaction.
    rewrite run_bind, run_await. cbn [exec_call hd st_faults st_txn st_world tl].
    rewrite run_bind, (price_loop_stops before item rest 0 now no_rows w e);
      [done| |done|by rewrite overlay_no_rows].
    intros l Hl. rewrite overlay_no_rows. by apply Hbefore. }
  split.
  - intros Hnone. apply H. by left.
  - intros p Hp Hlt. apply H. right. by exists p.
Qed.

Lemma create_order_refused_in_first_loop_witness :
  serve (POST_orders (order_of [mk_order_line 1 3; mk_order_line 3 1])) [] 100
    shop
  = (inr (respond 500 (error_body (error_message (ProductNotFound 3)))), shop)
  ∧ serve (POST_orders (order_of [mk_order_line 2 1; mk_order_line 1 6])) []
      100 shop
    = (inr (respond 500 (error_body (error_message (InsufficientStock 1)))),
       shop).
Proof.
  split.
  - apply (create_order_refused_in_first_loop
             (order_of [mk_order_line 1 3; mk_order_line 3 1])
             [mk_order_line 1 3] (mk_order_line 3 1) [] 100 shop);
      try reflexivity.
    intros l Hl. apply list_elem_of_singleton in Hl as ->.
    exists product_A. repeat split; cbn; lia.
  - apply (create_order_refused_in_first_loop
             (order_of [mk_order_line 2 1; mk_order_line 1 6])
             [mk_order_line 2 1] (mk_order_line 1 6) [] 100 shop)
      with (p := product_A); try reflexivity.
    intros l Hl. apply list_elem_of_singleton in Hl as ->.
    exists wireless_mouse. repeat split; cbn; lia.
Defined.

Lemma new_order_item_nonpositive v id order_id product_id quantity price now :
  quantity ≤ 0 →
  ∃ e, new_order_item v id order_id product_id quantity price now = inl e.
Proof.
  intros Hq. unfold new_order_item.
  destruct (negb _); [by eexists|]. destruct (negb _); [by eexists|].
  rewrite (proj2 (Z.leb_le _ _) Hq). by eexists.
Qed.

Lemma items_loop_nonpositive oid lines l now st :
  l ∈ lines → quantity l ≤ 0 →
  ∃ e, (run (items_loop oid lines) now st).1 = inl e.
Proof.
  intros Hl Hq. revert st. induction lines as [|item rest IH]; intros st.
  { by apply elem_of_nil in Hl. }
  cbn [items_loop]. rewrite run_bind.
  destruct (run (await (client_query (select_price (product_id item)))) now st)
    as [[e|rows] st1]; [by eexists|].
  rewrite run_bind. destruct rows as [|price rows]; [by eexists|]. cbn [first_row].
  change (run (Ret price) now st1) with (inr (A:=exn) price, st1).
  cbn iota beta. rewrite run_bind.
  apply elem_of_cons in Hl as [->|Hl].
  - rewrite run_await. destruct st1 as [faults txn w]. cbn [st_faults st_txn st_world].
    unfold exec_call. destruct (hd false faults); [by eexists|].
    destruct txn as [W|]; unfold in_transaction, autocommit;
      cbn -[overlay new_order_item].
    all: match goal with
         | |- context [new_order_item ?v ?id _ _ _ _ _] =>
             destruct (new_order_item_nonpositive v id oid (product_id item)
                         (quantity item) price now Hq) as [e ->]
         end.
    all: cbn; by eexists.
  - destruct (run (await (client_query (insert_order_item _ _ _ _))) now st1)
      as [[e|[]] st2]; [by eexists|].
    rewrite run_bind.
    destruct (run (await (client_query (decrement_stock _ _))) now st2)
      as [[e|[]] st3]; [by eexists|].
    by apply IH.
Qed.

Lemma order_transaction_nonpositive req lines l faults now w r st' :
  l ∈ lines → quantity l ≤ 0 →
  run (order_transaction req lines) now (mk_state faults None w) = (r, st') →
  ∃ e, r = inl e ∧ e ≠ RedisError.
Proof.
  intros Hl Hq. unfold order_transaction.
  rewrite run_bind, run_await. cbn [exec_call hd st_faults st_txn st_world tl].
  rewrite run_bind.
  destruct (run (price_loop lines 0) now _) as [[e|total] st2] eqn:Hpl.
  { intros [= <- <-]. apply price_loop_reads in Hpl as (_ & _ & ?).
    exists e. split; [done|congruence]. }
  apply price_loop_reads in Hpl as (Htxn & Hw & _).
  destruct st2 as [faults2 txn2 w2]. cbn in Htxn, Hw. subst txn2 w2.
  rewrite run_bind, run_client_query_txn.
  destruct (hd false faults2); [intros [= <- <-]; by eexists|].
  cbn zeta.
  destruct (sr_rows (exec_sql (insert_order _ _ _) now _ _)) as [e|rows];
    [intros [= <- <-]; by eexists|].
  rewrite run_bind. destruct rows as [|order rows];
    [intros [= <- <-]; by eexists|].
  cbn [first_row].
  match goal with
  | |- context [run (Ret order) now ?st] =>
      change (run (Ret order) now st) with (inr (A:=exn) order, st)
  end.
  cbn iota beta. rewrite run_bind.
  match goal with
  | |- context [run (items_loop ?oid lines) now ?st] =>
      destruct (items_loop_nonpositive oid lines l now st Hl Hq) as [e He];
      destruct (run (items_loop oid lines) now st) as [r3 st3] eqn:Hil
  end.
  cbn in He. subst r3. intros [= <- <-]. exists e. split; [done|].
  apply items_loop_writes in Hil as (_ & _ & _ & _ & Hne & _). congruence.
Qed.

(** X16.  An order with a line whose quantity is zero or negative is never
    created, whichever calls fail: the handler does not look at the
    quantity, CHECK (quantity > 0) of order_items refuses the line, and
    the transaction is rolled back.  The rows and the cache are as they
    were. *)
Theorem create_order_nonpositive_quantity req lines l faults now w :
  items req = Some lines →
  l ∈ lines →
  quantity l ≤ 0 →
  ¬ created (serve (POST_orders req) faults now w).1
  ∧ w_tables (serve (POST_orders req) faults now w).2 = w_tables w
  ∧ w_cache (serve (POST_orders req) faults now w).2 = w_cache w.
Proof.
  intros Hitems Hl Hq.
  destruct (serve (POST_orders req) faults now w) as [out w'] eqn:Hserve.
  assert (¬ created out ∧ out ≠ cache_error) as [Hno Hne].
  { revert Hserve. unfold serve, handler, create_order. rewrite Hitems.
    destruct (not_string (customer_name req) || not_string (customer_email req));
      [cbn; intros [= <- <-]; split; [cbn; lia|discriminate]|].
    destruct lines as [|l0 ls0] eqn:Hlines; [by apply elem_of_nil in Hl|].
    rewrite <- Hlines in *. clear Hlines.
    rewrite run_bind, run_await. cbn [exec_call st_faults st_txn st_world].
    destruct (hd false faults);
      [cbn; intros [= <- <-]; split; [tauto|discriminate]|].
    rewrite run_try_finally, run_try_catch.
    destruct (run (order_transaction req lines) now _) as [r st1] eqn:Hot.
    apply (order_transaction_nonpositive _ _ l) in Hot as (e & -> & He);
      [|done..].
    cbn. intros [= <- <-]. split; [done|].
    unfold cache_error. congruence. }
  cbn [fst snd].
  destruct (create_order_outcome _ _ _ _ _ _ Hserve)
    as [(_ & _ & Ht & Hc)|(? & _ & _ & [[? _]|[? _]])]; done.
Qed.

Lemma create_order_nonpositive_quantity_witness :
  ¬ created (serve (POST_orders (order_of [mk_order_line 1 0])) [] 100 shop).1
  ∧ w_tables (serve (POST_orders (order_of [mk_order_line 1 0])) [] 100 shop).2
    = w_tables shop
  ∧ w_cache (serve (POST_orders (order_of [mk_order_line 1 0])) [] 100 shop).2
    = w_cache shop.
Proof.
  apply (create_order_nonpositive_quantity
           (order_of [mk_order_line 1 0]) [mk_order_line 1 0]
           (mk_order_line 1 0) [] 100 shop).
  - reflexivity.
  - by left.
  - cbn. lia.
Defined.

(** ** A failing cache call after the store has been written *)

(** X17.  When the update has been made and a removal from the cache then
    fails, PUT /api/products/:id answers 500 although the row is
    changed.  When it is the second removal that fails, the entry of the
    product is still in the cache, and GET /api/products/:id is answered
    with the row of before the update until the entry's time is up. *)
Theorem update_product_applied_despite_500 id f p p' faults now w :
  products (w_tables w) !! id_int id = Some p →
  p_is_active p = true →
  int4 (id_int id) = true →
  from_option int4 true (f_stock f) = true →
  updated_product p (f_name f) (f_description f) (f_price f) (f_category f)
    (f_stock f) (f_image_url f) now = inr p' →
  (∃ w',
     serve (PUT_product id f) (false :: true :: faults) now w
     = (inr internal_server_error, w')
     ∧ products (w_tables w') = <[ id_int id := p' ]> (products (w_tables w))
     ∧ w_cache w' = w_cache w)
  ∧ (∃ w',
       serve (PUT_product id f) (false :: false :: true :: faults) now w
       = (inr internal_server_error, w')
       ∧ products (w_tables w') = <[ id_int id := p' ]> (products (w_tables w))
       ∧ w_cache w' = redis_del "products:all" (w_cache w)
       ∧ ∀ e now',
           w_cache w !! product_key id = Some e →
           now' < ce_expires e →
           (serve (GET_product id) [] now' w').1
           = inr (respond 200 (source_data "cache" (ce_value e)))).
Proof.
  intros Hp Hact Hid Hstock Hup. destruct w as [[t s] c].
  unfold w_tables in *. cbn in Hp |- *.
  unfold serve, handler, update_product. cbn.
  rewrite Hid, Hstock, Hp, Hact, Hup. cbn.
  split; (eexists; split; [reflexivity|]; cbn;
          rewrite <- ?insert_union_singleton_l; split_and!; try done).
  intros e now' He Hnow. unfold get_product, redis_get, redis_del. cbn.
  rewrite lookup_delete_ne by (symmetry; apply product_key_not_all).
  rewrite He. by rewrite (proj2 (Z.ltb_lt _ _) Hnow).
Qed.

Lemma update_product_applied_despite_500_witness :
  let f := mk_product_fields None None (Some 1500) None None None in
  let w := (serve (GET_product (route 1)) [] 100 shop).2 in
  (∃ w',
     serve (PUT_product (route 1) f) [false; true] 101 w
     = (inr internal_server_error, w')
     ∧ products (w_tables w') = <[ 1 := product_A_repriced ]> (products (w_tables w))
     ∧ w_cache w' = w_cache w)
  ∧ (∃ w',
       serve (PUT_product (route 1) f) [false; false; true] 101 w
       = (inr internal_server_error, w')
       ∧ products (w_tables w')
         = <[ 1 := product_A_repriced ]> (products (w_tables w))
       ∧ w_cache w' = redis_del "products:all" (w_cache w)
       ∧ ∀ e now',
           w_cache w !! product_key (route 1) = Some e →
           now' < ce_expires e →
           (serve (GET_product (route 1)) [] now' w').1
           = inr (respond 200 (source_data "cache" (ce_value e)))).
Proof.
  intros f w.
  apply (update_product_applied_despite_500 (route 1) f product_A product_A_repriced
           [] 101 w); reflexivity.
Defined.

(** X18.  When the product has been deleted in the store and the second
    removal from the cache then fails, DELETE /api/products/:id answers
    500 although the product is deleted; its entry is still in the cache,
    from which GET /api/products/:id goes on answering 200 with the
    product until the entry's time is up. *)
Theorem delete_product_applied_despite_500 id p faults now w :
  products (w_tables w) !! id_int id = Some p →
  int4 (id_int id) = true →
  ∃ w',
    serve (DELETE_product id) (false :: false :: true :: faults) now w
    = (inr internal_server_error, w')
    ∧ active_product (w_tables w') (id_int id) = []
    ∧ w_cache w' = redis_del "products:all" (w_cache w)
    ∧ ∀ e now',
        w_cache w !! product_key id = Some e →
        now' < ce_expires e →
        (serve (GET_product id) [] now' w').1
        = inr (respond 200 (source_data "cache" (ce_value e))).
Proof.
  intros Hp Hid. destruct w as [[t s] c].
  unfold w_tables in *. cbn in Hp |- *.
  unfold serve, handler, delete_product. cbn.
  rewrite Hid, Hp. cbn.
  eexists; split; [reflexivity|]; cbn; split_and!; try done.
  - unfold active_product. cbn.
    by rewrite <- insert_union_singleton_l, lookup_insert_eq.
  - intros e now' He Hnow. unfold get_product, redis_get, redis_del. cbn.
    rewrite lookup_delete_ne by (symmetry; apply product_key_not_all).
    rewrite He. by rewrite (proj2 (Z.ltb_lt _ _) Hnow).
Qed.

Lemma delete_product_applied_despite_500_witness :
  let w := (serve (GET_product (route 1)) [] 100 shop).2 in
  ∃ w',
    serve (DELETE_product (route 1)) [false; false; true] 101 w
    = (inr internal_server_error, w')
    ∧ active_product (w_tables w') 1 = []
    ∧ w_cache w' = redis_del "products:all" (w_cache w)
    ∧ ∀ e now',
        w_cache w !! product_key (route 1) = Some e →
        now' < ce_expires e →
        (serve (GET_product (route 1)) [] now' w').1
        = inr (respond 200 (source_data "cache" (ce_value e))).
Proof.
  intros w.
  apply (delete_product_applied_despite_500 (route 1) product_A [] 101 w); reflexivity.
Defined.

(** ** GET /api/stats *)

Lemma filter_list_prod {A B} (P : B → Prop) `{!∀ b, Decision (P b)}
    (l : list A) (k : list B) :
  filter (λ ab : A * B, P ab.2) (list_prod l k) = list_prod l (filter P k).
Proof.
  induction l as [|a l IH]; [done|]. cbn [list_prod].
  rewrite filter_app, IH. f_equal.
  clear IH. induction k as [|b k IH]; [done|]. cbn [map].
  rewrite !filter_cons. cbn [snd].
  destruct (decide (P b)); cbn [map]; by rewrite IH.
Qed.

Lemma elem_of_list_prod_fst {A B C} (f : A → C) (l : list A) (k : list B) x :
  x ∈ (λ ab : A * B, f ab.1) <$> list_prod l k ↔ k ≠ [] ∧ x ∈ f <$> l.
Proof.
  rewrite !list_elem_of_fmap. split.
  - intros ([a b] & -> & Hab). apply list_elem_of_In, in_prod_iff in Hab as [Ha Hb].
    split; [by destruct k|]. exists a. split; [done|]. by apply list_elem_of_In.
  - intros [Hk (a & -> & Ha)]. destruct k as [|b k]; [done|].
    exists (a, b). split; [done|].
    apply list_elem_of_In, in_prod_iff. split; [by apply list_elem_of_In|by left].
Qed.

Lemma elem_of_list_prod_snd {A B C} (f : B → C) (l : list A) (k : list B) x :
  x ∈ (λ ab : A * B, f ab.2) <$> list_prod l k ↔ l ≠ [] ∧ x ∈ f <$> k.
Proof.
  rewrite !list_elem_of_fmap. split.
  - intros ([a b] & -> & Hab). apply list_elem_of_In, in_prod_iff in Hab as [Ha Hb].
    split; [by destruct l|]. exists b. split; [done|]. by apply list_elem_of_In.
  - intros [Hl (b & -> & Hb)]. destruct l as [|a l]; [done|].
    exists (a, b). split; [done|].
    apply list_elem_of_In, in_prod_iff. split; [by left|by apply list_elem_of_In].
Qed.

Lemma count_distinct_NoDup (l : list (option Z)) (k : list Z) :
  NoDup k → (∀ x, x ∈ omap id l ↔ x ∈ k) →
  count_distinct l = Z.of_nat (length k).
Proof.
  intros Hk Hl. unfold count_distinct. f_equal. apply Permutation_length.
  apply NoDup_Permutation; [apply NoDup_remove_dups|done|].
  intros x. by rewrite elem_of_remove_dups.
Qed.

Lemma count_distinct_none (l : list (option Z)) :
  omap id l = [] → count_distinct l = 0.
Proof. unfold count_distinct. by intros ->. Qed.

Lemma omap_id_Some {A B} (f : A → B) (l : list A) :
  omap id ((λ a, Some (f a)) <$> l) = f <$> l.
Proof. induction l as [|a l IH]; [done|]. cbn. by rewrite IH. Qed.

Lemma omap_id_if {A B} (P : A → Prop) `{!∀ a, Decision (P a)} (f : A → B)
    (l : list A) :
  omap id ((λ a, if decide (P a) then Some (f a) else None) <$> l)
  = f <$> filter P l.
Proof.
  induction l as [|a l IH]; [done|]. rewrite filter_cons. cbn -[filter].
  destruct (decide (P a)); cbn -[filter]; by rewrite IH.
Qed.

Lemma sum_pairs_fst {A B} (g : A → Z) (a : A) (k : list B) acc :
  foldr Z.add acc ((λ ab : A * B, g ab.1) <$> map (λ y : B, (a, y)) k)
  = Z.of_nat (length k) * g a + acc.
Proof.
  induction k as [|b k IHk]; [cbn; lia|].
  cbn [map fmap list_fmap foldr length]. rewrite IHk. cbn. lia.
Qed.

Lemma sum_list_prod_fst {A B} (g : A → Z) (l : list A) (k : list B) :
  foldr Z.add 0 ((λ ab : A * B, g ab.1) <$> list_prod l k)
  = Z.of_nat (length k) * foldr Z.add 0 (g <$> l).
Proof.
  induction l as [|a l IH]; [cbn; lia|]. cbn [list_prod].
  rewrite fmap_app, foldr_app, sum_pairs_fst, IH. cbn. lia.
Qed.

Lemma orders_amount_rows t :
  orders_amount t = foldr Z.add 0 (o_total_amount <$> table_rows (orders t)).
Proof.
  unfold orders_amount, table_rows. rewrite map_fold_foldr.
  induction (map_to_list (orders t)) as [|[id o] l IH]; [done|].
  cbn. by rewrite IH.
Qed.

Lemma NoDup_order_ids t :
  rows_keyed t → NoDup (o_id <$> table_rows (orders t)).
Proof.
  intros [_ Ho]. unfold table_rows.
  assert (o_id <$> (map_to_list (orders t)).*2 = (map_to_list (orders t)).*1)
    as ->; [|apply NoDup_fst_map_to_list].
  rewrite <- list_fmap_compose. apply list_fmap_ext.
  intros i [id o] Hl. cbn. apply Ho.
  apply elem_of_map_to_list. by eapply list_elem_of_lookup_2.
Qed.

Lemma NoDup_product_ids t :
  rows_keyed t → NoDup (p_id <$> table_rows (products t)).
Proof.
  intros [Hp _]. unfold table_rows.
  assert (p_id <$> (map_to_list (products t)).*2 = (map_to_list (products t)).*1)
    as ->; [|apply NoDup_fst_map_to_list].
  rewrite <- list_fmap_compose. apply list_fmap_ext.
  intros i [id p] Hl. cbn. apply Hp.
  apply elem_of_map_to_list. by eapply list_elem_of_lookup_2.
Qed.

Lemma NoDup_fmap_filter {A B} (f : A → B) (P : A → Prop)
    `{!∀ a, Decision (P a)} (l : list A) :
  NoDup (f <$> l) → NoDup (f <$> filter P l).
Proof.
  induction l as [|a l IH]; [done|]. rewrite filter_cons. cbn -[filter].
  intros [Ha Hl]%NoDup_cons. destruct (decide (P a)); [|by apply IH].
  cbn -[filter]. apply NoDup_cons. split; [|by apply IH].
  intros (a' & Heq & Ha')%list_elem_of_fmap. apply Ha.
  apply list_elem_of_fmap. exists a'. split; [done|].
  by apply list_elem_of_filter in Ha' as [_ ?].
Qed.

Lemma list_prod_nil_r {A B} (l : list A) : list_prod l (@nil B) = [].
Proof. by induction l. Qed.

Lemma filter_list_prod_fst {A B} (P : A → Prop) `{!∀ a, Decision (P a)}
    (l : list A) (k : list B) :
  filter (λ ab : A * B, P ab.1) (list_prod l k) = list_prod (filter P l) k.
Proof.
  induction l as [|a l IH]; [done|]. rewrite filter_cons. cbn [list_prod].
  rewrite filter_app, IH.
  assert (filter (λ ab : A * B, P ab.1) (map (λ y : B, (a, y)) k)
          = if decide (P a) then map (λ y : B, (a, y)) k else []) as ->.
  { clear IH. induction k as [|b k IH]; [by destruct (decide (P a))|].
    cbn [map]. rewrite filter_cons. cbn [fst]. rewrite IH.
    by destruct (decide (P a)). }
  by destruct (decide (P a)).
Qed.

(** The four aggregates over the rows of orders CROSS JOIN products. *)
Lemma aggregates_of_join (O : list order) (A : list product) :
  NoDup (o_id <$> O) → NoDup (p_id <$> A) →
  let a := Z.of_nat (length A) in
  let n := Z.of_nat (length O) in
  count_distinct ((λ op : order * product, Some (o_id op.1)) <$> list_prod O A)
  = (if a =? 0 then 0 else n)
  ∧ count_distinct
      ((λ op : order * product, Some (p_id op.2)) <$> list_prod O A)
    = (if n =? 0 then 0 else a)
  ∧ coalesce
      (sql_sum ((λ op : order * product, o_total_amount op.1)
                  <$> list_prod O A)) 0
    = a * foldr Z.add 0 (o_total_amount <$> O)
  ∧ count_distinct
      ((λ op : order * product,
          if decide (o_status op.1 = "pending") then Some (o_id op.1)
          else None) <$> list_prod O A)
    = (if a =? 0 then 0
       else Z.of_nat (length (filter (λ o, o_status o = "pending") O))).
Proof.
  intros HO HA a n. split_and!.
  - (* COUNT(DISTINCT o.id) *)
    destruct A as [|p A].
    + by rewrite list_prod_nil_r.
    + unfold a, n. cbn [length Z.eqb Z.of_nat]. rewrite <- (length_fmap o_id).
      apply count_distinct_NoDup; [done|].
      intros x. rewrite (omap_id_Some (λ op : order * product, o_id op.1)).
      rewrite (elem_of_list_prod_fst o_id).
      split; [by intros [_ ?]|by intros ?].
  - (* COUNT(DISTINCT p.id) *)
    destruct O as [|o O]; [done|].
    unfold a, n. cbn [length Z.eqb Z.of_nat]. rewrite <- (length_fmap p_id).
    apply count_distinct_NoDup; [done|].
    intros x. rewrite (omap_id_Some (λ op : order * product, p_id op.2)).
    rewrite (elem_of_list_prod_snd p_id).
    split; [by intros [_ ?]|by intros ?].
  - (* COALESCE(SUM(o.total_amount), 0) *)
    unfold a. rewrite <- (sum_list_prod_fst o_total_amount O A).
    by destruct (_ <$> list_prod O A).
  - (* COUNT(DISTINCT CASE WHEN o.status = 'pending' THEN o.id END) *)
    unfold count_distinct.
    rewrite (omap_id_if (λ op : order * product, o_status op.1 = "pending")
               (λ op, o_id op.1)).
    pose proof (filter_list_prod_fst (λ o, o_status o = "pending") O A)
      as Hjoin.
    cbn beta in Hjoin. rewrite Hjoin. clear Hjoin.
    destruct A as [|p A].
    + by rewrite list_prod_nil_r.
    + unfold a. cbn [length Z.eqb Z.of_nat]. f_equal.
      rewrite <- (length_fmap o_id).
      apply Permutation_length, NoDup_Permutation;
        [apply NoDup_remove_dups|by apply NoDup_fmap_filter|].
      intros x. rewrite elem_of_remove_dups.
      rewrite (elem_of_list_prod_fst o_id).
      split; [by intros [_ ?]|by intros ?].
Qed.

Lemma stats_row_counts t :
  rows_keyed t →
  let a := Z.of_nat (length (active_products t)) in
  let n := Z.of_nat (size (orders t)) in
  stats_row t
  = {| total_orders := if a =? 0 then 0 else n;
       total_products := if n =? 0 then 0 else a;
       total_revenue := a * orders_amount t;
       pending_orders :=
         if a =? 0 then 0 else Z.of_nat (length (pending_rows t)) |}.
Proof.
  intros Hkeys. cbv zeta. unfold stats_row. cbv zeta.
  pose proof (filter_list_prod (λ p, p_is_active p = true)
                (table_rows (orders t)) (table_rows (products t))) as Hjoin.
  cbn beta in Hjoin. rewrite Hjoin. clear Hjoin.
  fold (active_products t).
  destruct (aggregates_of_join (table_rows (orders t)) (active_products t))
    as (-> & -> & -> & ->).
  - by apply NoDup_order_ids.
  - apply NoDup_fmap_filter. by apply NoDup_product_ids.
  - rewrite orders_amount_rows. unfold pending_rows, table_rows.
    by rewrite !length_fmap, !length_map_to_list.
Qed.

(** X19.  The statistics, in general.  The counts and the sum are taken over
    the pairs of an order and an active product, so: total_revenue is the
    sum of the order amounts times the number of active products;
    total_orders and pending_orders are 0 when no product is active, and
    total_products is 0 when there is no order; otherwise the counts are
    the numbers of orders, of active products and of pending orders. *)
Theorem get_stats_counts faults now w :
  rows_keyed (w_tables w) →
  hd false faults = false →
  let a := Z.of_nat (length (active_products (w_tables w))) in
  let n := Z.of_nat (size (orders (w_tables w))) in
  serve GET_stats faults now w
  = (inr (respond 200
            (data_only
               (json_stats
                  {| total_orders := if a =? 0 then 0 else n;
                     total_products := if n =? 0 then 0 else a;
                     total_revenue := a * orders_amount (w_tables w);
                     pending_orders :=
                       if a =? 0 then 0
                       else Z.of_nat (length (pending_rows (w_tables w))) |}))),
     w).
Proof.
  intros Hkeys Hf. cbv zeta. rewrite <- (stats_row_counts _ Hkeys).
  destruct w as [[t s] c]. unfold serve, handler, get_stats.
  destruct faults as [|[] faults]; try done; cbn -[stats_row];
    by rewrite overlay_no_rows.
Qed.

Lemma get_stats_counts_witness :
  serve GET_stats [] 100 shop
  = (inr (respond 200
            (data_only
               (json_stats
                  {| total_orders := 0; total_products := 0;
                     total_revenue := 0; pending_orders := 0 |}))),
     shop).
Proof.
  assert (rows_keyed (w_tables shop)) as Hkeys.
  { split.
    - assert (map_Forall (λ id p, p_id p = id) (products (w_tables shop))) as H
        by (apply (bool_decide_unpack _); by vm_compute).
      intros id p. apply (H id p).
    - intros id o H. change ((∅ : gmap Z order) !! id = Some o) in H.
      by rewrite lookup_empty in H. }
  exact (get_stats_counts [] 100 shop Hkeys eq_refl).
Defined.

(** ** GET /api/orders *)

Lemma lines_amount_lines_of v id :
  lines_amount v id
  = foldr (λ i acc, oi_price i * oi_quantity i + acc) 0 (lines_of v id).
Proof.
  unfold lines_amount, lines_of, table_rows. rewrite map_fold_foldr.
  induction (map_to_list (order_items v)) as [|[k i] l IH]; [done|].
  cbn [foldr uncurry fmap list_fmap snd]. rewrite filter_cons, IH.
  by destruct (decide (oi_order_id i = id)).
Qed.

(** X20.  GET /api/orders lists every stored order and nothing else, once
    each, newest first.  Its items are never an empty list: an order with
    lines has one item per line, with the line's product id, quantity and
    price and the name the product has now, and price times quantity over
    them is the amount of its lines; an order without lines has one item
    in which all four are null. *)
Theorem list_orders_lists_every_order w :
  let rows := select_orders (w_tables w) in
  list_orders false w = (200, orders_data rows)
  ∧ (∀ r, r ∈ rows
          ↔ ∃ id o, orders (w_tables w) !! id = Some o
                    ∧ r = listed_order (w_tables w) o)
  ∧ length rows = size (orders (w_tables w))
  ∧ StronglySorted newest_order_first rows
  ∧ (∀ r, r ∈ rows →
          ol_items r ≠ []
          ∧ items_amount (ol_items r) = lines_amount (w_tables w) (ol_id r)
          ∧ (lines_of (w_tables w) (ol_id r) = [] →
             ol_items r = [mk_item_object None None None None])
          ∧ (lines_of (w_tables w) (ol_id r) ≠ [] →
             ol_items r
             = item_of (w_tables w) <$> lines_of (w_tables w) (ol_id r))).
Proof.
  intros rows. set (v := w_tables w).
  assert (∀ r, r ∈ rows
               ↔ ∃ id o, orders v !! id = Some o ∧ r = listed_order v o)
    as Hrows.
  { intros r. unfold rows, select_orders, table_rows. fold v.
    rewrite list_elem_of_fmap. split.
    - intros (o & -> & Ho). rewrite merge_sort_Permutation in Ho.
      apply list_elem_of_fmap in Ho as ([id o'] & -> & Ho).
      apply elem_of_map_to_list in Ho. eauto.
    - intros (id & o & Ho & ->). exists o. split; [done|].
      rewrite merge_sort_Permutation. apply list_elem_of_fmap.
      exists (id, o). split; [done|]. by apply elem_of_map_to_list. }
  split_and!; [done|done| | |].
  - unfold rows, select_orders, table_rows.
    by rewrite length_fmap, merge_sort_Permutation, length_fmap,
      length_map_to_list.
  - unfold rows, select_orders.
    apply (StronglySorted_fmap (listed_order (w_tables w))
             order_created_at_desc newest_order_first); [done|].
    apply StronglySorted_merge_sort.
    + intros a b c. unfold order_created_at_desc. lia.
    + intros a b. unfold order_created_at_desc. lia.
  - intros r (id & o & _ & ->)%Hrows. cbn. unfold joined_items.
    rewrite lines_amount_lines_of.
    destruct (lines_of v (o_id o)) as [|i lines] eqn:Hlines.
    + by split_and!.
    + split_and!; [done| |done|done].
      unfold items_amount. clear Hlines.
      induction (i :: lines) as [|i' l IH]; [done|]. cbn. by rewrite IH.
Qed.

(** A store that cannot be reached is answered with 500 Internal server
    error. *)
Example list_orders_store_down w :
  list_orders true w = (500, orders_error "Internal server error").
Proof. done. Qed.

(** X21.  POST /api/orders answers 400 in exactly one case: a customer field
    or the items are absent or empty.  It looks at nothing else: not at
    the form of the email, not at the quantities, not at the products. *)
Theorem create_order_400_iff req faults now w :
  (∃ resp, (serve (POST_orders req) faults now w).1 = inr resp
           ∧ r_status resp = 400)
  ↔ not_string (customer_name req) = true
    ∨ not_string (customer_email req) = true
    ∨ items req = None
    ∨ items req = Some [].
Proof.
  unfold serve. cbn [handler].
  destruct (run (create_order req) now (mk_state faults None w))
    as [out st'] eqn:Hrun. cbn [fst].
  destruct (not_string (customer_name req)) eqn:Hname.
  { unfold create_order in Hrun. rewrite Hname in Hrun.
    injection Hrun as <- _. split; [by left|]. intros _. by eexists. }
  destruct (not_string (customer_email req)) eqn:Hemail.
  { unfold create_order in Hrun. rewrite Hname, Hemail in Hrun.
    injection Hrun as <- _. split; [by right; left|]. intros _. by eexists. }
  destruct (items req) as [[|l ls]|] eqn:Hitems.
  - unfold create_order in Hrun. rewrite Hname, Hemail, Hitems in Hrun.
    injection Hrun as <- _. split; [by right; right; right|].
    intros _. by eexists.
  - split; [|by intros [?|[?|[?|?]]]].
    intros (resp & -> & H400).
    destruct (create_order_ends req (l :: ls) faults now w _ st'
                Hname Hemail Hitems ltac:(done) Hrun)
      as [(_ & ? & _)|(_ & _ & resp' & [= <-] & [H201|(e & ->)])];
      [done|rewrite H201 in H400; done|done].
  - unfold create_order in Hrun. rewrite Hname, Hemail, Hitems in Hrun.
    injection Hrun as <- _. split; [by right; right; left|].
    intros _. by eexists.
Qed.

(** ** A created order, read back *)

Lemma lines_of_same_items v v' id :
  order_items v = order_items v' → lines_of v id = lines_of v' id.
Proof. unfold lines_of. by intros ->. Qed.

Lemma lines_of_insert_fresh v k i id :
  order_items v !! k = None →
  lines_of (overlay (write_order_item k i) v) id
  ≡ₚ (if decide (oi_order_id i = id) then [i] else []) ++ lines_of v id.
Proof.
  intros Hfresh. unfold lines_of, table_rows. cbn.
  rewrite <- insert_union_singleton_l, map_to_list_insert by done.
  cbn [fmap list_fmap snd]. rewrite filter_cons.
  by destruct (decide (oi_order_id i = id)).
Qed.

Lemma run_client_query_inr {R} (q : sql R) now faults W C s c x st' :
  run (await (client_query q)) now
    (mk_state faults (Some W) (mk_world (mk_db C s) c)) = (inr x, st') →
  let r := exec_sql q now (overlay W C) s in
  sr_rows r = inr x
  ∧ st' = mk_state (tl faults) (Some (overlay (sr_writes r) W))
            (mk_world (mk_db C (sr_seqs r)) c).
Proof.
  rewrite run_client_query_txn. destruct (hd false faults); [done|].
  unfold w_tables. cbn.
  destruct (sr_rows (exec_sql q now (overlay W C) s)); [done|].
  by intros [= -> <-].
Qed.

Lemma run_select_price_inr id now faults W C s c rows st' :
  run (await (client_query (select_price id))) now
    (mk_state faults (Some W) (mk_world (mk_db C s) c)) = (inr rows, st') →
  rows = match products (overlay W C) !! id with
         | Some p => [p_price p]
         | None => []
         end
  ∧ st' = mk_state (tl faults) (Some W) (mk_world (mk_db C s) c).
Proof.
  intros [Hrows ->]%run_client_query_inr. cbn -[overlay] in *.
  destruct (int4 id); [|done]. cbn -[overlay] in *.
  rewrite overlay_no_rows. by injection Hrows as <-.
Qed.

Lemma run_insert_order_item_inr oid pid q price now faults W C s c st' :
  run (await (client_query (insert_order_item oid pid q price))) now
    (mk_state faults (Some W) (mk_world (mk_db C s) c)) = (inr tt, st') →
  let k := order_items_id_seq s + 1 in
  let i := mk_order_item k oid pid q price now in
  order_items (overlay W C) !! k = None
  ∧ st' = mk_state (tl faults) (Some (overlay (write_order_item k i) W))
            (mk_world
               (mk_db C (mk_sequences (products_id_seq s) (orders_id_seq s) k))
               c).
Proof.
  intros [Hrows ->]%run_client_query_inr. cbn -[overlay new_order_item] in *.
  destruct (new_order_item _ _ _ _ _ _ _) as [e|i] eqn:Hnew; [done|].
  apply new_order_item_inr in Hnew as (-> & _).
  destruct (order_items (overlay W C) !! _) eqn:Hfresh; [done|]. done.
Qed.

Lemma run_decrement_stock_inr q pid now faults W C s c st' :
  run (await (client_query (decrement_stock q pid))) now
    (mk_state faults (Some W) (mk_world (mk_db C s) c)) = (inr tt, st') →
  ∃ W',
    st' = mk_state (tl faults) (Some W') (mk_world (mk_db C s) c)
    ∧ order_items (overlay W' C) = order_items (overlay W C)
    ∧ orders (overlay W' C) = orders (overlay W C)
    ∧ ∀ id,
        p_name <$> products (overlay W' C) !! id
        = p_name <$> products (overlay W C) !! id
        ∧ price_of (overlay W' C) id = price_of (overlay W C) id.
Proof.
  intros [Hrows ->]%run_client_query_inr. cbn -[overlay] in *.
  destruct (int4 q && int4 pid); [|done]. cbn -[overlay] in *.
  destruct (products (overlay W C) !! pid) as [p|] eqn:Hp.
  - destruct (check_stock (p_stock p - q)) as [e|stock]; [done|].
    cbn -[overlay]. eexists. split; [done|]. rewrite <- overlay_assoc.
    split_and!.
    + cbn. by rewrite !(left_id_L ∅ (∪)).
    + cbn. by rewrite !(left_id_L ∅ (∪)).
    + intros id. unfold price_of. rewrite products_write_product.
      destruct (decide (id = pid)) as [->|Hne].
      * by rewrite lookup_insert_eq, Hp.
      * by rewrite lookup_insert_ne.
  - cbn -[overlay]. exists W. by rewrite overlay_no_rows.
Qed.

Lemma items_loop_lines oid lines now faults W C s c st' :
  run (items_loop oid lines) now
    (mk_state faults (Some W) (mk_world (mk_db C s) c)) = (inr tt, st') →
  ∃ faults' W' s' rows,
    st' = mk_state faults' (Some W') (mk_world (mk_db C s') c)
    ∧ Forall2
        (λ l i,
           oi_order_id i = oid ∧ oi_product_id i = product_id l
           ∧ oi_quantity i = quantity l
           ∧ oi_price i = price_of (overlay W C) (product_id l))
        lines rows
    ∧ lines_of (overlay W' C) oid ≡ₚ rows ++ lines_of (overlay W C) oid
    ∧ orders (overlay W' C) = orders (overlay W C)
    ∧ ∀ id,
        p_name <$> products (overlay W' C) !! id
        = p_name <$> products (overlay W C) !! id
        ∧ price_of (overlay W' C) id = price_of (overlay W C) id.
Proof.
  revert faults W s st'.
  induction lines as [|item rest IH]; intros faults W s st' H.
  { cbn in H. injection H as <-. exists faults, W, s, []. by split_and!. }
  cbn [items_loop] in H.
  apply run_bind_inr in H as (productResult & st1 & Hselect & H).
  apply run_select_price_inr in Hselect as [-> ->].
  apply run_bind_inr in H as (price & st1 & Hfirst & H).
  destruct (products (overlay W C) !! product_id item) as [p|] eqn:Hp; [|done].
  cbn in Hfirst. injection Hfirst as <- <-.
  apply run_bind_inr in H as ([] & st2 & Hinsert & H).
  apply run_insert_order_item_inr in Hinsert as [Hfresh ->].
  apply run_bind_inr in H as ([] & st3 & Hdec & H).
  apply run_decrement_stock_inr in Hdec
    as (W3 & -> & Hitems3 & Horders3 & Hsame3).
  apply IH in H as (faults' & W' & s' & rows & -> & Hrows & Hlines & Horders
                    & Hsame).
  set (k := order_items_id_seq s + 1) in *.
  set (i := mk_order_item k oid (product_id item) (quantity item) (p_price p)
              now) in *.
  assert (∀ id,
            p_name <$> products (overlay W3 C) !! id
            = p_name <$> products (overlay W C) !! id
            ∧ price_of (overlay W3 C) id = price_of (overlay W C) id) as H3.
  { intros id. destruct (Hsame3 id) as [-> ->]. unfold price_of. cbn.
    by rewrite !(left_id_L ∅ (∪)). }
  exists faults', W', s', (i :: rows). split_and!; [done| | | |].
  - constructor; [unfold price_of; by rewrite Hp|].
    eapply Forall2_impl; [done|]. intros l i' (? & ? & ? & Hprice).
    split_and!; [done..|]. rewrite Hprice. apply H3.
  - rewrite Hlines, (lines_of_same_items _ _ _ Hitems3).
    rewrite <- overlay_assoc, lines_of_insert_fresh by done.
    cbn [oi_order_id i]. rewrite decide_True by done.
    cbn [app]. symmetry. apply Permutation_middle.
  - rewrite Horders, Horders3. cbn. by rewrite !(left_id_L ∅ (∪)).
  - intros id. destruct (Hsame id) as [-> ->]. apply H3.
Qed.

Lemma run_select_price_stock_inr id now faults W C s c rows st' :
  run (await (client_query (select_price_stock id))) now
    (mk_state faults (Some W) (mk_world (mk_db C s) c)) = (inr rows, st') →
  rows = match products (overlay W C) !! id with
         | Some p => if p_is_active p then [(p_price p, p_stock p)] else []
         | None => []
         end
  ∧ st' = mk_state (tl faults) (Some W) (mk_world (mk_db C s) c).
Proof.
  intros [Hrows ->]%run_client_query_inr. cbn -[overlay] in *.
  destruct (int4 id); [|done]. cbn -[overlay] in *.
  rewrite overlay_no_rows. by injection Hrows as <-.
Qed.

Lemma price_loop_total lines acc now faults W C s c total st' :
  run (price_loop lines acc) now
    (mk_state faults (Some W) (mk_world (mk_db C s) c)) = (inr total, st') →
  total = acc + request_amount (overlay W C) lines
  ∧ ∃ faults', st' = mk_state faults' (Some W) (mk_world (mk_db C s) c).
Proof.
  revert acc faults. induction lines as [|item rest IH]; intros acc faults H.
  { cbn in H. injection H as <- <-. split; [cbn; lia|by eexists]. }
  cbn [price_loop] in H.
  apply run_bind_inr in H as (productResult & st1 & Hselect & H).
  apply run_select_price_stock_inr in Hselect as [-> ->].
  unfold request_amount. cbn [foldr]. unfold price_of at 1.
  destruct (products (overlay W C) !! product_id item) as [p|]; [|done].
  destruct (p_is_active p); [|done].
  destruct (p_stock p <? quantity item); [done|].
  apply IH in H as [-> ?]. split; [|done]. unfold request_amount. lia.
Qed.

Lemma run_insert_order_inr name email total now faults W C s c rows st' :
  run (await (client_query (insert_order name email total))) now
    (mk_state faults (Some W) (mk_world (mk_db C s) c)) = (inr rows, st') →
  let id := orders_id_seq s + 1 in
  ∃ o,
    rows = [o]
    ∧ new_order id name email total now = inr o
    ∧ orders (overlay W C) !! id = None
    ∧ st' = mk_state (tl faults) (Some (overlay (write_order id o) W))
              (mk_world
                 (mk_db C
                    (mk_sequences (products_id_seq s) id
                       (order_items_id_seq s))) c).
Proof.
  intros [Hrows ->]%run_client_query_inr. cbn -[overlay new_order] in *.
  destruct (new_order _ _ _ _ _) as [e|o] eqn:Hnew; [done|].
  destruct (orders (overlay W C) !! _) eqn:Hfresh; [done|].
  cbn -[overlay] in *. injection Hrows as <-. by exists o.
Qed.

(** What POST /api/orders has run through when it answers 201. *)
Lemma created_order_run req faults now C s c resp w' :
  serve (POST_orders req) faults now (mk_world (mk_db C s) c) = (inr resp, w') →
  r_status resp = 201 →
  ∃ lines o W' s',
    items req = Some lines ∧ lines ≠ []
    ∧ resp = respond 201
               (message_data "Order created successfully" (json_order o))
    ∧ new_order (orders_id_seq s + 1) (customer_name req) (customer_email req)
        (request_amount C lines) now = inr o
    ∧ orders C !! (orders_id_seq s + 1) = None
    ∧ w' = mk_world (mk_db (overlay W' C) s') (redis_del "products:all" c)
    ∧ orders (overlay W' C) = <[ orders_id_seq s + 1 := o ]> (orders C)
    ∧ (∃ rows,
         Forall2
           (λ l i,
              oi_order_id i = o_id o ∧ oi_product_id i = product_id l
              ∧ oi_quantity i = quantity l
              ∧ oi_price i = price_of C (product_id l))
           lines rows
         ∧ lines_of (overlay W' C) (o_id o) ≡ₚ rows ++ lines_of C (o_id o))
    ∧ ∀ id, p_name <$> products (overlay W' C) !! id
            = p_name <$> products C !! id.
Proof.
  unfold serve. cbn [handler]. unfold create_order.
  destruct (not_string (customer_name req) || not_string (customer_email req));
    [by intros [= <- <-]|].
  destruct (items req) as [[|l0 ls0]|] eqn:Hitems;
    [by intros [= <- <-]| |by intros [= <- <-]].
  remember (l0 :: ls0) as lines eqn:Hlines.
  assert (lines ≠ []) as Hne by (by subst).
  clear Hlines l0 ls0.
  rewrite run_bind, run_await. cbn [exec_call st_faults st_txn st_world].
  destruct (hd false faults); [cbn; intros H; discriminate H|].
  rewrite run_try_finally, run_try_catch.
  destruct (run (order_transaction req lines) now _) as [[e|resp'] st1] eqn:Hot;
    [cbn; by intros [= <- <-]|].
  cbn. intros [= -> <-] _.
  unfold order_transaction in Hot.
  apply run_bind_inr in Hot as ([] & st0 & Hbegin & Hot).
  rewrite run_await in Hbegin. cbn in Hbegin. injection Hbegin as <-.
  apply run_bind_inr in Hot as (total & st2 & Hprice & Hot).
  apply price_loop_total in Hprice as [-> [faults2 ->]].
  rewrite overlay_no_rows, Z.add_0_l in Hot.
  apply run_bind_inr in Hot as (orderResult & st3 & Hinsert & Hot).
  apply run_insert_order_inr in Hinsert as (o & -> & Hnew & Hfresh & ->).
  rewrite overlay_no_rows in Hfresh.
  apply run_bind_inr in Hot as (order & st3 & Hfirst & Hot).
  cbn in Hfirst. injection Hfirst as <- <-.
  apply run_bind_inr in Hot as ([] & st4 & Hloop & Hot).
  apply items_loop_lines in Hloop
    as (faults4 & W' & s' & rows & -> & Hrows & Hlines & Horders & Hsame).
  apply run_bind_inr in Hot as ([] & st5 & Hcommit & Hot).
  rewrite run_await in Hcommit. cbn -[overlay] in Hcommit.
  injection Hcommit as <-.
  apply run_bind_inr in Hot as ([] & st6 & Hdel & Hot).
  rewrite run_await in Hdel. cbn -[overlay] in Hdel.
  destruct (hd false (tail faults4)); [done|]. injection Hdel as <-.
  cbn -[overlay] in Hot. injection Hot as <- <-.
  set (W1 := overlay (write_order (orders_id_seq s + 1) o) no_rows) in *.
  assert (products (overlay W1 C) = products C
          ∧ order_items (overlay W1 C) = order_items C
          ∧ orders (overlay W1 C) = <[ orders_id_seq s + 1 := o ]> (orders C))
    as (Hp1 & Hi1 & Ho1).
  { cbn. rewrite !(left_id_L ∅ (∪)), !(right_id_L ∅ (∪)).
    by rewrite <- insert_union_singleton_l. }
  exists lines, o, W', s'. unfold w_tables. cbn -[overlay].
  split_and!; try done.
  - exact (eq_trans Horders Ho1).
  - exists rows. split.
    + eapply Forall2_impl; [done|]. intros l i (? & ? & ? & Hprice).
      split_and!; [done..|]. rewrite Hprice. unfold price_of. by rewrite Hp1.
    + rewrite Hlines. by rewrite (lines_of_same_items _ _ _ Hi1).
  - intros id. destruct (Hsame id) as [Hname _].
    etrans; [exact Hname|by rewrite Hp1].
Qed.

Lemma select_orders_elem v r :
  r ∈ select_orders v
  ↔ ∃ id o, orders v !! id = Some o ∧ r = listed_order v o.
Proof.
  unfold select_orders, table_rows. rewrite list_elem_of_fmap. split.
  - intros (o & -> & Ho). rewrite merge_sort_Permutation in Ho.
    apply list_elem_of_fmap in Ho as ([id o'] & -> & Ho).
    apply elem_of_map_to_list in Ho. eauto.
  - intros (id & o & Ho & ->). exists o. split; [done|].
    rewrite merge_sort_Permutation. apply list_elem_of_fmap.
    exists (id, o). split; [done|]. by apply elem_of_map_to_list.
Qed.

Lemma lines_of_unknown_order v id :
  (∀ k i, order_items v !! k = Some i → is_Some (orders v !! oi_order_id i)) →
  orders v !! id = None →
  lines_of v id = [].
Proof.
  intros Hfk Hnone. destruct (lines_of v id) as [|i l] eqn:E; [done|].
  assert (i ∈ lines_of v id) as Hi by (rewrite E; left).
  apply list_elem_of_filter in Hi as [Hid Hi].
  apply list_elem_of_fmap in Hi as ([k i'] & -> & Hi).
  apply elem_of_map_to_list in Hi. apply Hfk in Hi. cbn in Hid.
  rewrite Hid, Hnone in Hi. by destruct Hi.
Qed.

Lemma Forall2_fmap_eq {A B C} (R : A → B → Prop) (f : B → C) (g : A → C)
    (l : list A) (k : list B) :
  Forall2 R l k → (∀ a b, R a b → f b = g a) → f <$> k = g <$> l.
Proof.
  intros H Hfg. induction H as [|a b l k Hab _ IH]; [done|].
  cbn. by rewrite (Hfg a b Hab), IH.
Qed.

(** X22.  A created order can be read back.  When POST /api/orders has
    answered 201, GET /api/orders lists the order with the id, customer
    and amount of the response, as pending, and with one item for every
    item of the request: its product id and quantity, and the name and
    the price the product had when the order was made. *)
Theorem created_order_is_listed req faults now w resp w' :
  serve (POST_orders req) faults now w = (inr resp, w') →
  r_status resp = 201 →
  (∀ k i, order_items (w_tables w) !! k = Some i →
          is_Some (orders (w_tables w) !! oi_order_id i)) →
  ∃ o lines r,
    items req = Some lines
    ∧ r_body resp = message_data "Order created successfully" (json_order o)
    ∧ list_orders false w' = (200, orders_data (select_orders (w_tables w')))
    ∧ r ∈ select_orders (w_tables w')
    ∧ ol_id r = o_id o
    ∧ ol_customer_name r = o_customer_name o
    ∧ ol_customer_email r = o_customer_email o
    ∧ ol_total_amount r = o_total_amount o
    ∧ ol_total_amount r = request_amount (w_tables w) lines
    ∧ ol_status r = "pending"
    ∧ ol_created_at r = now
    ∧ ol_items r ≡ₚ item_of_line (w_tables w) <$> lines.
Proof.
  destruct w as [[C s] c]. unfold w_tables. cbn [w_db db_tables].
  intros Hserve H201 Hfk.
  destruct (created_order_run _ _ _ _ _ _ _ _ Hserve H201)
    as (lines & o & W' & s' & Hitems & Hne & -> & Hnew & Hfresh & -> & Horders
        & (rows & Hrows & Hlines) & Hnames).
  apply new_order_inr in Hnew as (Hid & _ & Htotal & Hst & Hat & _).
  exists o, lines, (listed_order (overlay W' C) o). cbn -[overlay].
  split_and!; try done.
  - apply select_orders_elem. exists (orders_id_seq s + 1), o.
    split; [|done].
    change (orders (overlay W' C) !! (orders_id_seq s + 1) = Some o).
    by rewrite Horders, lookup_insert_eq.
  - rewrite (lines_of_unknown_order C (o_id o)), app_nil_r in Hlines;
      [|done|by rewrite Hid].
    unfold joined_items.
    destruct (lines_of (overlay W' C) (o_id o)) as [|i l] eqn:E.
    + apply Permutation_nil_l in Hlines. subst rows.
      apply Forall2_nil_inv_r in Hrows. done.
    + rewrite Hlines.
      rewrite (Forall2_fmap_eq _ (item_of (overlay W' C))
                 (item_of_line C) lines rows Hrows); [done|].
      intros l' i' (_ & Hp & Hq & Hprice). unfold item_of, item_of_line.
      rewrite Hp, Hq, Hprice. f_equal. apply Hnames.
Qed.

Lemma created_order_is_listed_witness :
  let req := order_of [mk_order_line 1 3; mk_order_line 2 1] in
  ∃ o lines r,
    items req = Some lines
    ∧ r_body (respond 201
                (message_data "Order created successfully"
                   (json_order
                      (mk_order 1 "Alice Williams" "alice.williams@example.com"
                         5999 "pending" 100 100))))
      = message_data "Order created successfully" (json_order o)
    ∧ list_orders false (serve (POST_orders req) [] 100 shop).2
      = (200,
         orders_data
           (select_orders (w_tables (serve (POST_orders req) [] 100 shop).2)))
    ∧ r ∈ select_orders (w_tables (serve (POST_orders req) [] 100 shop).2)
    ∧ ol_id r = o_id o
    ∧ ol_customer_name r = o_customer_name o
    ∧ ol_customer_email r = o_customer_email o
    ∧ ol_total_amount r = o_total_amount o
    ∧ ol_total_amount r = request_amount (w_tables shop) lines
    ∧ ol_status r = "pending"
    ∧ ol_created_at r = 100
    ∧ ol_items r ≡ₚ item_of_line (w_tables shop) <$> lines.
Proof.
  intros req.
  apply (created_order_is_listed req [] 100 shop).
  - vm_compute. reflexivity.
  - reflexivity.
  - intros k i H. change ((∅ : gmap Z order_item) !! k = Some i) in H.
    by rewrite lookup_empty in H.
Defined.
